(** * Trading-decision core of the vision bot: a shallow embedding

    The development follows the three JavaScript sources:

    - the analyzer ([EnhancedTradingAnalyzer]: score calculators, the
      decision table, the four-provider join), module [Analyzer];
    - [src/trading-bot.js] ([RiskManager], [TechnicalStrategyManager], the
      [settp] command handler, [calculatePositionSizing], [executeTrade]),
      modules [Risk], [Registry] and [Bot]; the [strategy] command handler
      and [analyzePair], module [Commands]; the authorization middleware
      and the handlers of the trading events, module [Access];
    - [index.js] (the check of the environment, the configuration, the
      start of the bot), module [Startup].

    JavaScript numbers are IEEE-754 binary64 values; they are modelled by
    Rocq's primitive [float], so every concrete evaluation below is the
    evaluation the JavaScript engine performs.  The dynamic parts of the
    language that the code relies on (missing properties, coercion of an
    object to a number, truthiness, [parseFloat]) are modelled in module
    [Js], promises in module [Async].

    The definitions come first; the facts follow: binary64 arithmetic
    (order, sign of a difference, monotonicity of rounded sums and
    products), then the analyzer, the risk manager, [executeTrade], the
    registry and the range of the whale score; then the registry under
    the commands, the preparation of a trade, the risk manager over its
    whole life, the notifications, the start-up script, the order of the
    scores and the coercion of a text to a number. *)

From Stdlib Require Import ZArith List String Ascii Bool Floats Lia.
From Stdlib Require Import Permutation Sorted DecimalString DecimalN.
Import ListNotations.

Set Warnings "-inexact-float,-register-all".
Set Implicit Arguments.

Local Open Scope string_scope.

(* ================================================================== *)
(** * The JavaScript values the program manipulates *)
(* ================================================================== *)

Module Js.

  (** The values that reach the code under study: [undefined], numbers,
      strings and plain objects (own data properties only, in insertion
      order, no [valueOf]/[toString] overrides). *)
Inductive value : Type :=
  | VUndefined
  | VNumber (f : float)
  | VString (s : string)
  | VObject (props : list (string * value)).

Definition object := list (string * value).

  (** [o.k]: the value of property [k], [undefined] when [o] has none. *)
Fixpoint get (o : object) (k : string) : value :=
    match o with
    | [] => VUndefined
    | (k', v) :: o' => if String.eqb k k' then v else get o' k
    end.

  (** ** Decimal literals: [parseFloat] and [Number(string)] *)

Definition is_digit (c : ascii) : bool :=
    let n := nat_of_ascii c in (48 <=? n)%nat && (n <=? 57)%nat.

Definition digit_value (c : ascii) : Z := Z.of_nat (nat_of_ascii c - 48).

  (** The longest prefix of decimal digits, and what follows it. *)
Fixpoint digits_prefix (s : string) : string * string :=
    match s with
    | String c s' =>
        if is_digit c
        then let '(d, r) := digits_prefix s' in (String c d, r)
        else (EmptyString, s)
    | EmptyString => (EmptyString, EmptyString)
    end.

Fixpoint Z_of_digits (acc : Z) (d : string) : Z :=
    match d with
    | String c d' => Z_of_digits (10 * acc + digit_value c) d'
    | EmptyString => acc
    end.

  (** The mathematical value of a scanned literal, before rounding. *)
Inductive decimal : Type :=
  | DInfinity (neg : bool)
  | DFinite (neg : bool) (digits : Z) (exp10 : Z).

  (** [ExponentPart]: [e] or [E], an optional sign, at least one digit.
      An ill-formed exponent is not part of the literal. *)
Definition scan_exponent (s : string) : Z * string :=
    match s with
    | String c r =>
        if (Ascii.eqb c "e" || Ascii.eqb c "E")%bool then
          let '(neg, r') :=
            match r with
            | String "+" r' => (false, r')
            | String "-" r' => (true, r')
            | _ => (false, r)
            end in
          let '(d, rest) := digits_prefix r' in
          match d with
          | EmptyString => (0%Z, s)
          | _ => ((if neg then - Z_of_digits 0 d else Z_of_digits 0 d)%Z, rest)
          end
        else (0%Z, s)
    | EmptyString => (0%Z, s)
    end.

  (** [StrUnsignedDecimalLiteral]: [Infinity], [digits . digits? exp?],
      [. digits exp?] or [digits exp?]; the longest such prefix. *)
Definition scan_unsigned (neg : bool) (s : string) : option (decimal * string) :=
    if String.prefix "Infinity" s
    then Some (DInfinity neg, String.substring 8 (String.length s - 8) s)
    else
      let '(ip, r1) := digits_prefix s in
      let '(fp, r2) :=
        match r1 with
        | String "." r =>
            let '(fp, r2) := digits_prefix r in
            match ip, fp with
            | EmptyString, EmptyString => (EmptyString, r1)
            | _, _ => (fp, r2)
            end
        | _ => (EmptyString, r1)
        end in
      match ip, fp with
      | EmptyString, EmptyString => None
      | _, _ =>
          let '(e, r3) := scan_exponent r2 in
          Some (DFinite neg (Z_of_digits 0 (ip ++ fp))
                        (e - Z.of_nat (String.length fp)), r3)
      end.

  (** [StrDecimalLiteral]: an optional sign, then the unsigned literal. *)
Definition scan_decimal (s : string) : option (decimal * string) :=
    match s with
    | String "+" r => scan_unsigned false r
    | String "-" r => scan_unsigned true r
    | _ => scan_unsigned false s
    end.

  (** Round-to-nearest-even conversion of [digits * 10 ^ exp10] to binary64,
      through the reference operations of [SpecFloat]. *)
Definition float_of_decimal (d : decimal) : float :=
    match d with
    | DInfinity neg => if neg then neg_infinity else infinity
    | DFinite neg m k =>
        match m with
        | Zpos p =>
            if (0 <=? k)%Z
            then SF2Prim (binary_normalize prec emax
                            ((if neg then Zneg p else Zpos p) * 10 ^ k)%Z 0%Z false)
            else SF2Prim (SFdiv prec emax (S754_finite neg p 0%Z)
                            (S754_finite false (Z.to_pos (10 ^ (- k))) 0%Z))
        | _ => if neg then neg_zero else zero
        end
    end.

  (** White space ([StrWhiteSpaceChar]) at the head of a UTF-8 text:
      TAB, LF, VT, FF, CR, SP, and the encodings of U+00A0, U+1680,
      U+2000..U+200A, U+2028, U+2029, U+202F, U+205F, U+3000, U+FEFF. *)
Definition ws_length (s : string) : nat :=
    match s with
    | String c r =>
        let n := nat_of_ascii c in
        if ((9 <=? n) && (n <=? 13) || (n =? 32))%nat then 1%nat
        else
          match r with
          | String c2 (String c3 _) =>
              let n2 := nat_of_ascii c2 in
              let n3 := nat_of_ascii c3 in
              if ((n =? 194) && (n2 =? 160))%nat then 2%nat
              else if ((n =? 225) && (n2 =? 154) && (n3 =? 128))%nat then 3%nat
              else if ((n =? 226) && (n2 =? 128)
                       && ((128 <=? n3) && (n3 <=? 138)
                           || (n3 =? 168) || (n3 =? 169) || (n3 =? 175)))%nat
                   then 3%nat
              else if ((n =? 226) && (n2 =? 129) && (n3 =? 159))%nat then 3%nat
              else if ((n =? 227) && (n2 =? 128) && (n3 =? 128))%nat then 3%nat
              else if ((n =? 239) && (n2 =? 187) && (n3 =? 191))%nat then 3%nat
              else 0%nat
          | String c2 EmptyString =>
              if ((n =? 194) && (nat_of_ascii c2 =? 160))%nat then 2%nat else 0%nat
          | EmptyString => 0%nat
          end
    | EmptyString => 0%nat
    end.

Fixpoint trim_start_fuel (fuel : nat) (s : string) : string :=
    match fuel with
    | O => s
    | S fuel' =>
        match ws_length s with
        | O => s
        | n => trim_start_fuel fuel' (String.substring n (String.length s - n) s)
        end
    end.

Definition trim_start (s : string) : string := trim_start_fuel (String.length s) s.

  (** [parseFloat(s)]: skip leading white space, take the longest prefix that
      is a decimal literal, ignore the rest; [NaN] when there is none. *)
Definition parseFloat (s : string) : float :=
    match scan_decimal (trim_start s) with
    | Some (d, _) => float_of_decimal d
    | None => nan
    end.

  (** Is the whole of [s] white space? *)
Definition all_ws (s : string) : bool :=
    match trim_start s with EmptyString => true | _ => false end.

Definition radix_digit (radix : Z) (c : ascii) : option Z :=
    let n := Z.of_nat (nat_of_ascii c) in
    let v := if ((48 <=? n) && (n <=? 57))%Z then (n - 48)%Z
             else if ((97 <=? n) && (n <=? 122))%Z then (n - 87)%Z
             else if ((65 <=? n) && (n <=? 90))%Z then (n - 55)%Z
             else radix in
    if (v <? radix)%Z then Some v else None.

  (** Digits of a [NonDecimalIntegerLiteral], then only white space. *)
Fixpoint scan_radix (radix acc : Z) (seen : bool) (s : string) : option Z :=
    match s with
    | String c r =>
        match radix_digit radix c with
        | Some v => scan_radix radix (radix * acc + v)%Z true r
        | None => if seen && all_ws s then Some acc else None
        end
    | EmptyString => if seen then Some acc else None
    end.

  (** [StringToNumber]: the whole text, white space trimmed at both ends,
      must be a numeric literal; the empty text is [0]. *)
Definition StringToNumber (s : string) : float :=
    let t := trim_start s in
    let nondecimal (radix : Z) (r : string) :=
      match scan_radix radix 0 false r with
      | Some n => SF2Prim (binary_normalize prec emax n 0%Z false)
      | None => nan
      end in
    match t with
    | EmptyString => zero
    | String "0" (String "x" r) | String "0" (String "X" r) => nondecimal 16%Z r
    | String "0" (String "o" r) | String "0" (String "O" r) => nondecimal 8%Z r
    | String "0" (String "b" r) | String "0" (String "B" r) => nondecimal 2%Z r
    | _ =>
        match scan_decimal t with
        | Some (d, rest) => if all_ws rest then float_of_decimal d else nan
        | None => nan
        end
    end.

(** [text.split(' ')]. *)
Fixpoint split_space (s : string) : list string :=
  match s with
  | EmptyString => [EmptyString]
  | String c s' =>
      if Ascii.eqb c " "
      then EmptyString :: split_space s'
      else match split_space s' with
           | w :: ws => String c w :: ws
           | [] => [String c EmptyString]
           end
  end.

(** ** Coercions and operators *)

  (** [ToPrimitive]: a plain object converts to the text ["[object Object]"]. *)
Definition ToPrimitive (v : value) : value :=
    match v with
    | VObject _ => VString "[object Object]"
    | _ => v
    end.

Definition ToNumber (v : value) : float :=
    match ToPrimitive v with
    | VUndefined => nan
    | VNumber f => f
    | VString s => StringToNumber s
    | VObject _ => nan
    end.

  (** [ToBoolean]: [undefined], [0], [-0], [NaN] and [""] are falsy. *)
Definition ToBoolean (v : value) : bool :=
    match v with
    | VUndefined => false
    | VNumber f => negb (PrimFloat.is_zero f || PrimFloat.is_nan f)
    | VString s => negb (String.eqb s "")
    | VObject _ => true
    end.

  (** [a < b]: two strings compare as texts, anything else as numbers; a
      comparison with [NaN] is false. *)
Definition lt (a b : value) : bool :=
    match ToPrimitive a, ToPrimitive b with
    | VString s, VString t => String.ltb s t
    | pa, pb => PrimFloat.ltb (ToNumber pa) (ToNumber pb)
    end.

  (** [a > b] is [b < a]. *)
Definition gt (a b : value) : bool := lt b a.

End Js.

Import Js.

(* ================================================================== *)
(** * Promises and thrown errors *)
(* ================================================================== *)

Module Async.

  (** A promise is rejected with a reason, which is any value. *)
Definition error : Type := value.

Inductive settlement (A : Type) : Type :=
  | Fulfilled (a : A)
  | Rejected (e : error).
Arguments Fulfilled {A} a.
Arguments Rejected {A} e.

  (** A promise is observed through the instant at which it settles and the
      way it settles. *)
Record promise (A : Type) : Type :=
    { settles_at : nat; outcome : settlement A }.

Definition is_rejected {A} (p : promise A) : bool :=
    match outcome p with Rejected _ => true | Fulfilled _ => false end.

  (** The join of two promises as [Promise.all] performs it: fulfilled once
      both are, rejected as soon as one is, with the reason of the rejection
      that comes first in time (the earlier element when both come at the
      same instant). *)
Definition join {A B} (pa : promise A) (pb : promise B) : promise (A * B) :=
    match outcome pa, outcome pb with
    | Fulfilled a, Fulfilled b =>
        {| settles_at := Nat.max (settles_at pa) (settles_at pb);
           outcome := Fulfilled (a, b) |}
    | Rejected e, Fulfilled _ =>
        {| settles_at := settles_at pa; outcome := Rejected e |}
    | Fulfilled _, Rejected e =>
        {| settles_at := settles_at pb; outcome := Rejected e |}
    | Rejected ea, Rejected eb =>
        if (settles_at pb <? settles_at pa)%nat
        then {| settles_at := settles_at pb; outcome := Rejected eb |}
        else {| settles_at := settles_at pa; outcome := Rejected ea |}
    end.

  (** [await p] followed by the synchronous continuation [k]: a rejection is
      rethrown, which rejects the promise of the enclosing [async] function. *)
Definition await_then {A B} (p : promise A) (k : A -> B) : promise B :=
    {| settles_at := settles_at p;
       outcome := match outcome p with
                  | Fulfilled a => Fulfilled (k a)
                  | Rejected e => Rejected e
                  end |}.

  (** The rejection a promise carries, if any, with its instant. *)
Definition rejection {A} (p : promise A) : list (nat * error) :=
  match outcome p with
  | Rejected e => [(settles_at p, e)]
  | Fulfilled _ => []
  end.

(** [Promise.all([pa, pb, pc, pd])]. *)
Definition Promise_all4 {A B C D}
      (pa : promise A) (pb : promise B) (pc : promise C) (pd : promise D)
    : promise (A * B * C * D) :=
    join (join (join pa pb) pc) pd.

End Async.

Import Async.

(* ================================================================== *)
(** * The analyzer: score calculators and the decision table *)
(* ================================================================== *)

Module Analyzer.

Local Open Scope float_scope.

  (** ** Provider results, as the analyzer reads them *)

Record Buys : Type := { volume : float; timeFrame : float }.

Record WhaleActivity : Type :=
    { buys : Buys; avgHoldTime : float; avgTradeSize : float; walletAge : float }.

Record TokenMetrics : Type :=
    { holderDistribution : float; liquidityDepth : float;
      volumeProfile : float; priceImpact : float }.

Record SmartMoneyFlow : Type :=
    { inflow : float; outflow : float; pattern : value; walletQuality : value }.

Record ManipulationScore : Type :=
    { indicators : value; washTrading : float;
      frontRunning : float; contractSafety : float }.

  (** ** Arguments of the calculators *)

Record WhaleMetrics : Type :=
    { recentBuys : Buys; holdingTime : float; tradeSize : float; wm_walletAge : float }.

(** The argument of [analyzeSmartMoney].  Besides the four properties that
    [analyzeTradeOpportunity] gives it, the method reads [flow.pattern]:
    [fl_pattern] is that property, [undefined] in an object that has none. *)
Record Flow : Type :=
    { inflowRate : float; outflowRate : float;
      accumulationPattern : value; fl_walletQuality : value;
      fl_pattern : value }.

Inductive Action : Type := AVOID | STRONG_BUY | WAIT | BUY | MONITOR.

(** Membership of the interval [[0, 1]], the range the specification gives
    to a score. *)
Definition in_unit_interval (x : float) : bool := (0 <=? x) && (x <=? 1).

Record Recommendation : Type :=
    { action : Action; size : value; timing : value;
      stopLoss : value; takeProfit : value }.

Record Details : Type :=
    { d_whaleActivity : WhaleActivity; d_tokenMetrics : TokenMetrics;
      d_smartMoneyFlow : SmartMoneyFlow; d_manipulationScore : ManipulationScore }.

Record Analysis : Type :=
    { overallScore : value; details : Details; recommendation : Recommendation }.

  (** ** The decision table, [determineAction] *)

Definition determineAction (scores : object) : Action :=
    if Js.lt (get scores "riskScore") (VNumber 0.7) then AVOID
    else if Js.gt (get scores "whaleScore") (VNumber 0.8)
            && Js.gt (get scores "smartMoneyScore") (VNumber 0.7) then STRONG_BUY
    else if Js.lt (get scores "healthScore") (VNumber 0.5) then WAIT
    else if Js.gt (get scores "overallScore") (VNumber 0.75) then BUY
    else MONITOR.

(** The object literal [{ whaleScore, healthScore, smartMoneyScore,
    riskScore }] that [analyzeTradeOpportunity] hands to
    [generateTradeRecommendation]: these four properties and no other. *)
Definition scores_of (whaleScore healthScore smartMoneyScore riskScore : value)
  : object :=
  [ ("whaleScore", whaleScore); ("healthScore", healthScore);
    ("smartMoneyScore", smartMoneyScore); ("riskScore", riskScore) ].

(** The methods that the class calls on [this] and that the sources do not
    define, with the engine's [Number::toString] (used when [+]
    concatenates); they are parameters of the development. *)
Record Collaborators : Type :=
  { normalizeTradeSize : float -> float;
    analyzeAccumulationPattern : value -> float;
    assessWalletQuality : value -> float;
    calculateConfidence : Flow -> value;
    calculateHealthScore : TokenMetrics -> float;
    calculateRiskScore : ManipulationScore -> float;
    computeWeightedScore : object -> value;
    calculateOptimalPosition : object -> value;
    suggestEntryTiming : object -> value;
    calculateStopLoss : object -> value;
    calculateTakeProfit : object -> value;
    NumberToString : float -> string;
    (* the four providers; each call returns a promise *)
    getWhaleActivity : string -> string -> promise WhaleActivity;
    getTokenMetrics : string -> promise TokenMetrics;
    getSmartMoneyFlow : string -> promise SmartMoneyFlow;
    assessManipulation : string -> promise ManipulationScore }.

Section Methods.

Variable this : Collaborators.

Definition ToString (v : value) : string :=
  match ToPrimitive v with
  | VUndefined => "undefined"
  | VNumber f => NumberToString this f
  | VString s => s
  | VObject _ => "[object Object]"
  end.

(** [a + b]: concatenation as soon as one operand is a string after
    [ToPrimitive], addition of numbers otherwise. *)
Definition add (a b : value) : value :=
  match ToPrimitive a, ToPrimitive b with
  | VString s, pb => VString (s ++ ToString pb)
  | pa, VString t => VString (ToString pa ++ t)
  | pa, pb => VNumber (ToNumber pa + ToNumber pb)
  end.

Definition calculateWhaleScore (metrics : WhaleMetrics) : float :=
  let buyPressure := volume (recentBuys metrics) / timeFrame (recentBuys metrics) in
  let holdingQuality := holdingTime metrics * wm_walletAge metrics in
  let sizeImpact := normalizeTradeSize this (tradeSize metrics) in
  (buyPressure * 0.4) + (holdingQuality * 0.4) + (sizeImpact * 0.2).

(** [analyzeSmartMoney] returns an object, not a number.  The accumulation
    is computed from [flow.pattern], not from [flow.accumulationPattern]. *)
Definition analyzeSmartMoney (flow : Flow) : object :=
  let netFlow := inflowRate flow - outflowRate flow in
  let accumulation := analyzeAccumulationPattern this (fl_pattern flow) in
  let walletQuality := assessWalletQuality this (fl_walletQuality flow) in
  [ ("score", VNumber ((netFlow * 0.4) + (accumulation * 0.3) + (walletQuality * 0.3)));
    ("confidence", calculateConfidence this flow) ].

Definition generateTradeRecommendation (scores : object) : Recommendation :=
  let whaleScore := get scores "whaleScore" in
  let healthScore := get scores "healthScore" in
  let smartMoneyScore := get scores "smartMoneyScore" in
  let riskScore := get scores "riskScore" in
  let positionSize :=
    calculateOptimalPosition this
      [ ("confidence", VNumber (ToNumber (add whaleScore smartMoneyScore) / 2));
        ("risk", riskScore);
        ("marketConditions", healthScore) ] in
  {| action := determineAction scores;
     size := positionSize;
     timing := suggestEntryTiming this scores;
     stopLoss := calculateStopLoss this scores;
     takeProfit := calculateTakeProfit this scores |}.

(** The body of [analyzeTradeOpportunity] after the [await]. *)
Definition analyze
    (r : WhaleActivity * TokenMetrics * SmartMoneyFlow * ManipulationScore)
  : Analysis :=
  let '(whaleActivity, tokenMetrics, smartMoneyFlow, manipulationScore) := r in
  let whaleScore :=
    calculateWhaleScore
      {| recentBuys := buys whaleActivity;
         holdingTime := avgHoldTime whaleActivity;
         tradeSize := avgTradeSize whaleActivity;
         wm_walletAge := walletAge whaleActivity |} in
  let healthScore := calculateHealthScore this tokenMetrics in
  let smartMoneyScore :=
    analyzeSmartMoney
      {| inflowRate := inflow smartMoneyFlow;
         outflowRate := outflow smartMoneyFlow;
         accumulationPattern := pattern smartMoneyFlow;
         fl_walletQuality := walletQuality smartMoneyFlow;
         fl_pattern := VUndefined |} in
  let riskScore := calculateRiskScore this manipulationScore in
  {| overallScore :=
       computeWeightedScore this
         [ ("whaleScore", VNumber (whaleScore * 0.3));
           ("healthScore", VNumber (healthScore * 0.25));
           ("smartMoneyScore", VNumber (ToNumber (VObject smartMoneyScore) * 0.25));
           ("riskScore", VNumber (riskScore * 0.2)) ];
     details :=
       {| d_whaleActivity := whaleActivity; d_tokenMetrics := tokenMetrics;
          d_smartMoneyFlow := smartMoneyFlow;
          d_manipulationScore := manipulationScore |};
     recommendation :=
       generateTradeRecommendation
         (scores_of (VNumber whaleScore) (VNumber healthScore)
                    (VObject smartMoneyScore) (VNumber riskScore)) |}.

Definition analyzeTradeOpportunity (tokenAddress chain : string)
  : promise Analysis :=
  await_then
    (Promise_all4 (getWhaleActivity this tokenAddress chain)
                  (getTokenMetrics this tokenAddress)
                  (getSmartMoneyFlow this tokenAddress)
                  (assessManipulation this tokenAddress))
    analyze.

End Methods.

End Analyzer.

(* ================================================================== *)
(** * [RiskManager] *)
(* ================================================================== *)

Module Risk.

Local Open Scope float_scope.

(** [a >= b] and [a > b] on numbers; false as soon as one side is [NaN]. *)
Definition geb (a b : float) : bool := b <=? a.
Definition gtb (a b : float) : bool := b <? a.

(** The three risk settings of the configuration object; [None] stands for
    an absent property. *)
Record Config : Type :=
  { cfg_maxLossPerTrade : option float;
    cfg_maxDailyLoss : option float;
    cfg_maxPositionSize : option float }.

(** [x || d] for a number-or-absent [x]: [d] replaces a falsy [x]. *)
Definition or_default (x : option float) (d : float) : float :=
  match x with
  | Some f => if ToBoolean (VNumber f) then f else d
  | None => d
  end.

Record RiskManager : Type :=
  { maxLossPerTrade : float;
    maxDailyLoss : float;
    maxPositionSize : float;
    dailyLoss : float }.

Definition set_dailyLoss (rm : RiskManager) (v : float) : RiskManager :=
  {| maxLossPerTrade := maxLossPerTrade rm;
     maxDailyLoss := maxDailyLoss rm;
     maxPositionSize := maxPositionSize rm;
     dailyLoss := v |}.

(** A job handed to the scheduler: the recurrence rule it was registered
    under and the callback, which acts on the manager that created it. *)
Record Job : Type :=
  { rule : string; callback : RiskManager -> RiskManager }.

(** [resetDailyLoss()] registers one job under the rule ["0 0 * * *"]; the
    callback is [this.dailyLoss = 0]. *)
Definition resetDailyLoss (jobs : list Job) : list Job :=
  jobs ++ [ {| rule := "0 0 * * *"; callback := fun rm => set_dailyLoss rm 0 |} ].

(** [new RiskManager(config)], with the scheduler's job table threaded. *)
Definition new_RiskManager (config : Config) (jobs : list Job)
  : RiskManager * list Job :=
  ( {| maxLossPerTrade := or_default (cfg_maxLossPerTrade config) 2;
       maxDailyLoss := or_default (cfg_maxDailyLoss config) 6;
       maxPositionSize := or_default (cfg_maxPositionSize config) 5;
       dailyLoss := 0 |},
    resetDailyLoss jobs ).

(** A take-profit leg of a prepared trade. *)
Record TakeProfit : Type := { price : float; positionSize : float }.

(** A trade.  A numeric property that the caller left out reads as
    [undefined], which arithmetic turns into [NaN]; such a property is
    modelled by [nan]. *)
Record Trade : Type :=
  { size : float;
    entryPrice : float;
    stopLoss : float;
    trade_takeProfitTargets : list TakeProfit }.

(** The two rejection messages, with the number each one interpolates:
    [`Daily loss limit of ${maxDailyLoss}% reached`] and
    [`Trade risk exceeds maximum loss per trade of ${maxLossPerTrade}%`]. *)
Inductive Reason : Type :=
| DailyLossLimitReached (limit : float)
| TradeRiskExceedsMaximum (limit : float).

(** The object [validateTrade] resolves to; [reason] is absent on success. *)
Record Validation : Type := { valid : bool; reason : option Reason }.

Definition potentialLoss (trade : Trade) : float :=
  size trade * (stopLoss trade / 100).

Definition validateTrade (rm : RiskManager) (trade : Trade) : Validation :=
  if geb (dailyLoss rm) (maxDailyLoss rm) then
    {| valid := false; reason := Some (DailyLossLimitReached (maxDailyLoss rm)) |}
  else if gtb (potentialLoss trade) (maxLossPerTrade rm) then
    {| valid := false; reason := Some (TradeRiskExceedsMaximum (maxLossPerTrade rm)) |}
  else {| valid := true; reason := None |}.

(** ** The manager and its scheduler as a state machine *)

Record World : Type := { manager : RiskManager; jobs : list Job }.

(** A reading of the scheduler's clock, to the minute. *)
Record Time : Type :=
  { minute : nat; hour : nat; dayOfMonth : nat; month : nat; dayOfWeek : nat }.

(** A field of a recurrence rule accepts a value when it is [*] or that
    number; these are the two forms the source uses (ranges, steps and
    lists are not read and accept nothing). *)
Definition field_accepts (field : string) (v : nat) : bool :=
  if String.eqb field "*" then true
  else
    match digits_prefix field with
    | (String c d, EmptyString) => (Z.of_nat v =? Z_of_digits 0 (String c d))%Z
    | _ => false
    end.

(** A rule of five fields, [minute hour dayOfMonth month dayOfWeek], is due
    at the readings that every field accepts. *)
Definition is_due (r : string) (t : Time) : bool :=
  match split_space r with
  | [mi; h; dom; mo; dow] =>
      field_accepts mi (minute t) && field_accepts h (hour t)
      && field_accepts dom (dayOfMonth t) && field_accepts mo (month t)
      && field_accepts dow (dayOfWeek t)
  | _ => false
  end.

Inductive event : Type :=
| Tick (t : Time)            (* the scheduler's clock reaches the minute [t] *)
| Validate (trade : Trade).  (* a call of [validateTrade] *)

(** What one event lets an observer see. *)
Inductive observation : Type :=
| Ran (callbacks : nat)                       (* callbacks run at a [Tick] *)
| Validated (seen : float) (v : Validation).  (* [dailyLoss] read, result *)

Definition due (t : Time) (js : list Job) : list Job :=
  filter (fun j => is_due (rule j) t) js.

Definition run_jobs (js : list Job) (rm : RiskManager) : RiskManager :=
  fold_left (fun m j => callback j m) js rm.

Definition step (w : World) (e : event) : World * observation :=
  match e with
  | Tick t =>
      ( {| manager := run_jobs (due t (jobs w)) (manager w); jobs := jobs w |},
        Ran (List.length (due t (jobs w))) )
  | Validate trade =>
      ( w, Validated (dailyLoss (manager w)) (validateTrade (manager w) trade) )
  end.

Fixpoint run (w : World) (es : list event) : World * list observation :=
  match es with
  | [] => (w, [])
  | e :: es' =>
      let '(w1, o) := step w e in
      let '(w2, os) := run w1 es' in
      (w2, o :: os)
  end.

(** A day boundary: the clock reads 00:00. *)
Definition is_day_boundary (t : Time) : bool :=
  Nat.eqb (hour t) 0 && Nat.eqb (minute t) 0.

(** The world right after [new RiskManager(config)] with an empty scheduler. *)
Definition boot (config : Config) : World :=
  let '(rm, js) := new_RiskManager config [] in {| manager := rm; jobs := js |}.

(** ** The clock that the scheduler reads

    The rule is registered without a time zone, so the scheduler matches it
    against the clock of the zone the process runs in.  An instant is a
    number of minutes since 1970-01-01T00:00 UTC; a zone is the number of
    minutes by which its clock is ahead of UTC (a fixed offset: no daylight
    saving). *)

(** The civil date (year, month, day) of a day number, counted from
    1970-01-01, in the proleptic Gregorian calendar. *)
Definition civil (days : Z) : Z * Z * Z :=
  (let z := days + 719468 in
   let era := z / 146097 in
   let doe := z mod 146097 in
   let yoe := (doe - doe / 1460 + doe / 36524 - doe / 146096) / 365 in
   let doy := doe - (365 * yoe + yoe / 4 - yoe / 100) in
   let mp := (5 * doy + 2) / 153 in
   let d := doy - (153 * mp + 2) / 5 + 1 in
   let m := if mp <? 10 then mp + 3 else mp - 9 in
   (yoe + era * 400 + (if m <=? 2 then 1 else 0), m, d))%Z.

(** What the clock of [zone] reads at [instant]; 1970-01-01 was a Thursday,
    day 4 of the week. *)
Definition reading (zone instant : Z) : Time :=
  (let local := instant + zone in
   let days := local / 1440 in
   let m := local mod 1440 in
   let '(_, mo, d) := civil days in
   {| minute := Z.to_nat (m mod 60); hour := Z.to_nat (m / 60);
      dayOfMonth := Z.to_nat d; month := Z.to_nat mo;
      dayOfWeek := Z.to_nat ((days + 4) mod 7) |})%Z.

(** A UTC day boundary: the clock of UTC reads 00:00. *)
Definition is_UTC_day_boundary (instant : Z) : bool :=
  (instant mod 1440 =? 0)%Z.

End Risk.

(* ================================================================== *)
(** * [TechnicalStrategyManager] and the [settp] command *)
(* ================================================================== *)

Module Registry.

Import Risk.
Local Open Scope float_scope.

Record PositionSize : Type := { percentage : float; target : float }.

Record EntryConditions : Type :=
  { ec_stopLoss : float;
    takeProfitTargets : list float;
    positionSizing : list PositionSize;
    parameters : list (string * float) }.   (* the strategy's own settings *)

Record Strategy : Type :=
  { name : string;
    description : string;
    entryConditions : EntryConditions;
    enabled : bool;
    timestamp : float }.

(** A [Map] with string keys: entries in insertion order, keys unique. *)
Definition Map (V : Type) : Type := list (string * V).

Fixpoint Map_get {V} (m : Map V) (k : string) : option V :=
  match m with
  | [] => None
  | (k', v) :: m' => if String.eqb k k' then Some v else Map_get m' k
  end.

(** [m.set(k, v)]: an existing key keeps its place, a new one goes last. *)
Fixpoint Map_set {V} (m : Map V) (k : string) (v : V) : Map V :=
  match m with
  | [] => [(k, v)]
  | (k', v') :: m' =>
      if String.eqb k k' then (k, v) :: m' else (k', v') :: Map_set m' k v
  end.

Definition Map_values {V} (m : Map V) : list V := map snd m.

Record TechnicalStrategyManager : Type :=
  { strategies : Map Strategy; riskManager : RiskManager }.

(** What a caller passes to [addStrategy]: no [enabled], no [timestamp]. *)
Record StrategySpec : Type :=
  { spec_name : string; spec_description : string;
    spec_entryConditions : EntryConditions }.

(** [addStrategy(id, strategy)]; [now] is the value of [Date.now()]. *)
Definition addStrategy (m : Map Strategy) (id : string) (s : StrategySpec)
    (now : float) : Map Strategy :=
  Map_set m id
    {| name := spec_name s; description := spec_description s;
       entryConditions := spec_entryConditions s;
       enabled := false; timestamp := now |}.

Definition breakout : StrategySpec :=
  {| spec_name := "Smart Breakout Trading";
     spec_description := "Trades breakouts with volume confirmation";
     spec_entryConditions :=
       {| ec_stopLoss := 2;
          takeProfitTargets := [6; 12; 18];
          positionSizing :=
            [ {| percentage := 40; target := 6 |};
              {| percentage := 30; target := 12 |};
              {| percentage := 30; target := 18 |} ];
          parameters :=
            [ ("lookbackPeriod", 20); ("volumeIncrease", 50);
              ("breakoutPercentage", 2) ] |} |}.

Definition movingAverages : StrategySpec :=
  {| spec_name := "Triple Moving Average Crossover";
     spec_description := "Uses 8, 21, 55 EMAs with volume confirmation";
     spec_entryConditions :=
       {| ec_stopLoss := 2;
          takeProfitTargets := [5; 10; 15];
          positionSizing :=
            [ {| percentage := 40; target := 5 |};
              {| percentage := 30; target := 10 |};
              {| percentage := 30; target := 15 |} ];
          parameters :=
            [ ("fastEMA", 8); ("mediumEMA", 21); ("slowEMA", 55);
              ("volumeThreshold", 30) ] |} |}.

Definition volumeAnalysis : StrategySpec :=
  {| spec_name := "Smart Volume Analysis";
     spec_description := "Trades based on volume patterns";
     spec_entryConditions :=
       {| ec_stopLoss := 2;
          takeProfitTargets := [4; 8; 12];
          positionSizing :=
            [ {| percentage := 40; target := 4 |};
              {| percentage := 30; target := 8 |};
              {| percentage := 30; target := 12 |} ];
          parameters :=
            [ ("volumeIncreaseThreshold", 100); ("priceRangeThreshold", 1.5) ] |} |}.

Definition initializeTechnicalStrategies (m : Map Strategy) (now : float)
  : Map Strategy :=
  addStrategy
    (addStrategy (addStrategy m "breakout" breakout now)
                 "movingAverages" movingAverages now)
    "volumeAnalysis" volumeAnalysis now.

(** [new TechnicalStrategyManager(config)]. *)
Definition new_TechnicalStrategyManager (config : Config) (now : float)
    (js : list Job) : TechnicalStrategyManager * list Job :=
  let '(rm, js') := new_RiskManager config js in
  ( {| strategies := initializeTechnicalStrategies [] now; riskManager := rm |},
    js' ).

(** [validateStrategy]: the trade with the strategy's stop loss in place of
    its own, handed to the risk manager. *)
Definition validateStrategy (mgr : TechnicalStrategyManager)
    (strategy : Strategy) (trade : Trade) : Validation :=
  validateTrade (riskManager mgr)
    {| size := size trade;
       entryPrice := entryPrice trade;
       stopLoss := ec_stopLoss (entryConditions strategy);
       trade_takeProfitTargets := trade_takeProfitTargets trade |}.

(** ** [Array.prototype] helpers *)

(** [l.map((x, index) => f x index)], the index starting at [i]. *)
Fixpoint mapi_from {A B} (f : A -> nat -> B) (i : nat) (l : list A) : list B :=
  match l with
  | [] => []
  | x :: l' => f x i :: mapi_from f (S i) l'
  end.

Definition mapi {A B} (f : A -> nat -> B) (l : list A) : list B := mapi_from f 0 l.

(** [l.sort(compare)].  The sort is stable, and [x] goes after [y] only when
    [compare(x, y) > 0]; a [NaN] from the comparator counts as [0]. *)
Fixpoint sort_insert (compare : float -> float -> float) (x : float)
    (l : list float) : list float :=
  match l with
  | [] => [x]
  | y :: l' =>
      if gtb (compare x y) 0 then y :: sort_insert compare x l' else x :: l
  end.

Fixpoint sort (compare : float -> float -> float) (l : list float) : list float :=
  match l with
  | [] => []
  | x :: l' => sort_insert compare x (sort compare l')
  end.

(** ** [calculatePositionSizing] and the [settp] handler *)

Definition calculatePositionSizing (targets : list float) : list PositionSize :=
  mapi (fun target index =>
          {| percentage := if Nat.eqb index 0 then 40 else 30;
             target := target |})
       targets.

(** The three replies of the handler.  [TakeProfitUpdate] carries what
    [formatTakeProfitUpdate] prints: the strategy id and, per target, its
    rank, its value and the percentage read back from the strategy;
    [None] marks a [positionSizing] entry that does not exist. *)
Inductive Reply : Type :=
| Usage
| StrategyNotFound
| TakeProfitUpdate (strategyId : string) (lines : list (nat * float * option float)).

Definition formatTakeProfitUpdate (strategyId : string) (targets : list float)
    (strategy : Strategy) : Reply :=
  TakeProfitUpdate strategyId
    (mapi (fun target index =>
             (S index, target,
              option_map percentage
                (nth_error (positionSizing (entryConditions strategy)) index)))
          targets).

(** [!isNaN(t)]. *)
Definition not_NaN (t : float) : bool := negb (PrimFloat.is_nan t).

(** The targets the handler stores for the words [targets] of the command. *)
Definition parseTargets (targets : list string) : list float :=
  sort (fun a b => a - b) (filter not_NaN (map parseFloat targets)).

(** Ascending order of numbers: each one is at most every later one. *)
Definition ascending : list float -> Prop :=
  StronglySorted (fun a b => (a <=? b) = true).

Definition set_targets (strategy : Strategy) (tps : list float)
    (ps : list PositionSize) : Strategy :=
  {| name := name strategy;
     description := description strategy;
     entryConditions :=
       {| ec_stopLoss := ec_stopLoss (entryConditions strategy);
          takeProfitTargets := tps;
          positionSizing := ps;
          parameters := parameters (entryConditions strategy) |};
     enabled := enabled strategy;
     timestamp := timestamp strategy |}.

(** The handler of [/settp <strategy> <target>...] on the message [text]. *)
Definition settp (mgr : TechnicalStrategyManager) (text : string)
  : TechnicalStrategyManager * Reply :=
  match split_space text with
  | _ :: strategyId :: targets =>
      if (String.eqb strategyId "" || Nat.eqb (List.length targets) 0)%bool
      then (mgr, Usage)
      else
        match Map_get (strategies mgr) strategyId with
        | None => (mgr, StrategyNotFound)
        | Some strategy =>
            let takeProfitTargets := parseTargets targets in
            let strategy' :=
              set_targets strategy takeProfitTargets
                          (calculatePositionSizing takeProfitTargets) in
            ( {| strategies := Map_set (strategies mgr) strategyId strategy';
                 riskManager := riskManager mgr |},
              formatTakeProfitUpdate strategyId takeProfitTargets strategy' )
        end
  | _ => (mgr, Usage)
  end.

(** [/strategy activate <id>]: the strategy's [enabled] flag is set. *)
Definition activate (mgr : TechnicalStrategyManager) (strategyId : string)
  : TechnicalStrategyManager :=
  match Map_get (strategies mgr) strategyId with
  | Some s =>
      {| strategies :=
           Map_set (strategies mgr) strategyId
             {| name := name s; description := description s;
                entryConditions := entryConditions s;
                enabled := true; timestamp := timestamp s |};
         riskManager := riskManager mgr |}
  | None => mgr
  end.

End Registry.

(* ================================================================== *)
(** * [executeTrade] *)
(* ================================================================== *)

Module Bot.

Import Risk Registry.
Local Open Scope float_scope.

(** What [executeTrade] throws: the two [Error]s it raises itself and the
    [TypeError] of reading [percentage] from a missing [positionSizing]
    entry. *)
Inductive thrown : Type :=
| NoActiveStrategy
| TradeValidationFailed (r : option Reason)
| PercentageOfUndefined (index : nat).

Inductive completion : Type :=
| Returned (v : value)
| Thrown (e : thrown).

(** The first enabled strategy, in the order of the map. *)
Definition activeStrategy (mgr : TechnicalStrategyManager) : option Strategy :=
  find enabled (Map_values (strategies mgr)).

(** The [map] over [takeProfitTargets]; [inl index] when
    [positionSizing[index]] is [undefined]. *)
Fixpoint prepareTargets (trade : Trade) (sizing : list PositionSize)
    (index : nat) (targets : list float) : nat + list TakeProfit :=
  match targets with
  | [] => inr []
  | target :: targets' =>
      match nth_error sizing index with
      | None => inl index
      | Some ps =>
          match prepareTargets trade sizing (S index) targets' with
          | inl i => inl i
          | inr tps =>
              inr ({| price := entryPrice trade * (1 + target / 100);
                      positionSize := percentage ps / 100 * size trade |} :: tps)
          end
      end
  end.

(** [executeTrade(trade)].  The method ends with a call of itself, so the
    embedding is by fuel: [None] means that [fuel] nested calls did not
    bring the outermost one to completion. *)
Fixpoint executeTrade (fuel : nat) (mgr : TechnicalStrategyManager)
    (trade : Trade) : option completion :=
  match fuel with
  | O => None
  | S fuel' =>
      match activeStrategy mgr with
      | None => Some (Thrown NoActiveStrategy)
      | Some strategy =>
          let validation := validateStrategy mgr strategy trade in
          if negb (valid validation)
          then Some (Thrown (TradeValidationFailed (reason validation)))
          else
            match prepareTargets trade
                    (positionSizing (entryConditions strategy)) 0
                    (takeProfitTargets (entryConditions strategy)) with
            | inl index => Some (Thrown (PercentageOfUndefined index))
            | inr tps =>
                executeTrade fuel' mgr
                  {| size := size trade;
                     entryPrice := entryPrice trade;
                     stopLoss := ec_stopLoss (entryConditions strategy);
                     trade_takeProfitTargets := tps |}
            end
      end
  end.

End Bot.

(* ================================================================== *)
(** * The handlers that act on the registry, and [analyzePair] *)
(* ================================================================== *)

Module Commands.

Import Risk Registry Bot.

(** What [/strategy list] prints for one strategy. *)
Record Listing : Type :=
  { ls_id : string; ls_name : string; ls_description : string;
    ls_stopLoss : float; ls_takeProfits : list float }.

Inductive StrategyReply : Type :=
| AvailableStrategies (entries : list Listing)
| StrategyActivated (strategyName : string).

(** A word of the message after destructuring: [undefined] when the message
    has too few words. *)
Definition word (w : option string) : value :=
  match w with Some s => VString s | None => VUndefined end.

(** [w === s]. *)
Definition word_is (w : option string) (s : string) : bool :=
  match w with Some a => String.eqb a s | None => false end.

(** The handler of [/strategy ...] on the message [text]; no reply at all
    when neither branch is taken. *)
Definition strategyCommand (mgr : TechnicalStrategyManager) (text : string)
  : TechnicalStrategyManager * option StrategyReply :=
  let words := split_space text in
  let action := nth_error words 1 in
  let strategyId := nth_error words 2 in
  if word_is action "list" then
    ( mgr,
      Some (AvailableStrategies
              (map (fun '(id, strategy) =>
                      {| ls_id := id; ls_name := name strategy;
                         ls_description := description strategy;
                         ls_stopLoss := ec_stopLoss (entryConditions strategy);
                         ls_takeProfits :=
                           takeProfitTargets (entryConditions strategy) |})
                   (strategies mgr))) )
  else if word_is action "activate" && ToBoolean (word strategyId) then
    match strategyId with
    | Some id =>
        match Map_get (strategies mgr) id with
        | Some strategy => (activate mgr id, Some (StrategyActivated (name strategy)))
        | None => (mgr, None)
        end
    | None => (mgr, None)
    end
  else (mgr, None).

(** The two messages that change the registry. *)
Inductive command : Type :=
| Strategy_ (text : string)   (* a [/strategy] message *)
| Settp (text : string).      (* a [/settp] message *)

Definition handle (mgr : TechnicalStrategyManager) (c : command)
  : TechnicalStrategyManager :=
  match c with
  | Strategy_ text => fst (strategyCommand mgr text)
  | Settp text => fst (settp mgr text)
  end.

(** The registry after the messages [cs], handled in order. *)
Definition after (mgr : TechnicalStrategyManager) (cs : list command)
  : TechnicalStrategyManager :=
  fold_left handle cs mgr.

(** [analyzePair(symbol)]; [performAnalysis] is a method that the sources do
    not define. *)
Definition analyzePair {A} (performAnalysis : string -> Strategy -> A)
    (mgr : TechnicalStrategyManager) (symbol : string) : thrown + A :=
  match activeStrategy mgr with
  | None => inl NoActiveStrategy
  | Some strategy => inr (performAnalysis symbol strategy)
  end.

(** One strategy as a later state of the registry may hold it: same name,
    description, stop loss, parameters and time stamp, and still enabled if
    it was. *)
Definition evolves (s s' : Strategy) : Prop :=
  name s' = name s /\ description s' = description s
  /\ ec_stopLoss (entryConditions s') = ec_stopLoss (entryConditions s)
  /\ parameters (entryConditions s') = parameters (entryConditions s)
  /\ timestamp s' = timestamp s
  /\ (enabled s = true -> enabled s' = true).

(** The sizing that [calculatePositionSizing] gives to the stored targets. *)
Definition sized (s : Strategy) : Prop :=
  positionSizing (entryConditions s)
  = calculatePositionSizing (takeProfitTargets (entryConditions s)).

(** Two registries with the same keys in the same order, whose strategies
    are related by [R] key by key. *)
Definition alike (R : Strategy -> Strategy -> Prop) (m m' : Map Strategy) : Prop :=
  Forall2 (fun a b => fst a = fst b /\ R (snd a) (snd b)) m m'.

(** The strategy [s] with its [enabled] flag set. *)
Definition enable (s : Strategy) : Strategy :=
  {| name := name s; description := description s;
     entryConditions := entryConditions s;
     enabled := true; timestamp := timestamp s |}.

End Commands.

(* ================================================================== *)
(** * Authorized users, notifications *)
(* ================================================================== *)

Module Access.

Import Analyzer.

(** [text.split(sep)] for a separator of one character. *)
Fixpoint split_on (sep : ascii) (s : string) : list string :=
  match s with
  | EmptyString => [EmptyString]
  | String c s' =>
      if Ascii.eqb c sep
      then EmptyString :: split_on sep s'
      else match split_on sep s' with
           | w :: ws => String c w :: ws
           | [] => [String c EmptyString]
           end
  end.

(** [l.join(sep)]. *)
Fixpoint join_with (sep : ascii) (l : list string) : string :=
  match l with
  | [] => EmptyString
  | [w] => w
  | w :: l' => w ++ String sep (join_with sep l')
  end.

(** A [Set] of strings: its elements in insertion order, each one once. *)
Definition Set_has (s : list string) (x : string) : bool :=
  existsb (String.eqb x) s.

Definition Set_add (s : list string) (x : string) : list string :=
  if Set_has s x then s else (s ++ [x])%list.

(** [new Set(l)]. *)
Definition new_Set (l : list string) : list string := fold_left Set_add l [].

(** [new Set(config.AUTHORIZED_USERS.split(','))]. *)
Definition authorizedUsers (AUTHORIZED_USERS : string) : list string :=
  new_Set (split_on "," AUTHORIZED_USERS).

(** A user id as the bot receives it: a number that holds a natural number
    below [2 ^ 53].  In that range every integer is a number of its own and
    [toString] prints all its decimal digits; beyond it the digits are
    rounded, and from [10 ^ 21] on the text is in exponent form. *)
Record UserId : Type :=
  { id_value : N; id_safe : (id_value <? 2 ^ 53)%N = true }.

(** [id.toString()]. *)
Definition id_toString (id : UserId) : string :=
  DecimalString.NilZero.string_of_uint (N.to_uint (id_value id)).

Inductive access : Type :=
| Unauthorized   (* the refusal is sent, the update goes no further *)
| Next.          (* the update goes on to the handlers *)

Definition authMiddleware (users : list string) (id : UserId) : access :=
  if negb (Set_has users (id_toString id)) then Unauthorized else Next.

(** ** The handlers of the trading events *)

(** [a >= b]: two strings compare as texts, anything else as numbers; a
    comparison with [NaN] is false. *)
Definition ge (a b : value) : bool :=
  match ToPrimitive a, ToPrimitive b with
  | VString s, VString t => negb (String.ltb s t)
  | pa, pb => PrimFloat.leb (ToNumber pb) (ToNumber pa)
  end.

(** [for (const userId of users) await body(userId)]: the users served, in
    order, and the rejection that ended the loop, if one did. *)
Fixpoint for_each (body : string -> settlement unit) (users : list string)
  : list string * option error :=
  match users with
  | [] => ([], None)
  | userId :: users' =>
      match body userId with
      | Fulfilled _ =>
          let '(served, e) := for_each body users' in (userId :: served, e)
      | Rejected e => ([], Some e)
      end
  end.

(** [sendTradeNotification]: the rejection of [sendMessage] is caught and
    logged. *)
Definition sendTradeNotification (sendMessage : string -> settlement unit)
    (userId : string) : settlement unit :=
  match sendMessage userId with
  | Fulfilled _ => Fulfilled tt
  | Rejected _ => Fulfilled tt
  end.

(** What a handler of a trading event did: the users it called the sender
    for, and how its promise settled. *)
Record Handled : Type := { called : list string; settled : settlement unit }.

(** The users a loop called its sender for: those served, and the one whose
    rejection ended it. *)
Fixpoint calls_of (body : string -> settlement unit) (users : list string)
  : list string :=
  match users with
  | [] => []
  | userId :: users' =>
      match body userId with
      | Fulfilled _ => userId :: calls_of body users'
      | Rejected _ => [userId]
      end
  end.

Definition loop (body : string -> settlement unit) (users : list string)
  : Handled :=
  {| called := calls_of body users;
     settled := match snd (for_each body users) with
                | None => Fulfilled tt
                | Some e => Rejected e
                end |}.

(** The handler of the [trade] event. *)
Definition onTrade (this : Collaborators) (users : list string)
    (sendMessage : string -> settlement unit) (tokenAddress chain : string)
  : Handled :=
  match outcome (analyzeTradeOpportunity this tokenAddress chain) with
  | Rejected e => {| called := []; settled := Rejected e |}
  | Fulfilled enhancedAnalysis =>
      if ge (overallScore enhancedAnalysis) (VNumber 0.7)
      then loop (sendTradeNotification sendMessage) users
      else {| called := []; settled := Fulfilled tt |}
  end.

(** The handler of the [error] event; [sendErrorNotification] is a method
    that the sources do not define. *)
Definition onError (sendErrorNotification : string -> settlement unit)
    (users : list string) : Handled :=
  loop sendErrorNotification users.

End Access.

(* ================================================================== *)
(** * [index.js]: the environment check and the configuration *)
(* ================================================================== *)

Module Startup.

Import Risk Registry Access.
Local Open Scope float_scope.

(** [process.env]: every variable that is set holds a text. *)
Definition Env : Type := Map string.

Definition requiredEnvVars : list string :=
  [ "TELEGRAM_BOT_TOKEN"; "AUTHORIZED_USERS";
    "ETHERSCAN_API_KEY"; "SOLSCAN_API_KEY" ]%string.

Definition env_value (env : Env) (k : string) : value :=
  match Map_get env k with Some s => VString s | None => VUndefined end.

Definition missingEnvVars (env : Env) : list string :=
  filter (fun envVar => negb (ToBoolean (env_value env envVar))) requiredEnvVars.

(** [parseFloat(process.env[k])]; [parseFloat] reads the text of its
    argument, which is ["undefined"] for a variable that is not set. *)
Definition parseFloat_env (env : Env) (k : string) : float :=
  parseFloat (match Map_get env k with Some s => s | None => "undefined"%string end).

Record BotConfig : Type :=
  { TELEGRAM_BOT_TOKEN : value;
    AUTHORIZED_USERS : value;
    ETHERSCAN_API_KEY : value;
    SOLSCAN_API_KEY : value;
    risk : Config;
    defaultTradingPair : string;
    tradingEnabled : bool;
    testMode : bool }.

Definition config (env : Env) : BotConfig :=
  {| TELEGRAM_BOT_TOKEN := env_value env "TELEGRAM_BOT_TOKEN";
     AUTHORIZED_USERS := env_value env "AUTHORIZED_USERS";
     ETHERSCAN_API_KEY := env_value env "ETHERSCAN_API_KEY";
     SOLSCAN_API_KEY := env_value env "SOLSCAN_API_KEY";
     risk :=
       {| cfg_maxLossPerTrade :=
            Some (or_default (Some (parseFloat_env env "MAX_LOSS_PER_TRADE")) 2);
          cfg_maxDailyLoss :=
            Some (or_default (Some (parseFloat_env env "MAX_DAILY_LOSS")) 6);
          cfg_maxPositionSize :=
            Some (or_default (Some (parseFloat_env env "MAX_POSITION_SIZE")) 5) |};
     defaultTradingPair :=
       match Map_get env "DEFAULT_TRADING_PAIR" with
       | Some s => if String.eqb s "" then "USDT"%string else s
       | None => "USDT"%string
       end;
     tradingEnabled :=
       match Map_get env "TRADING_ENABLED" with
       | Some s => String.eqb s "true"
       | None => false
       end;
     testMode :=
       match Map_get env "TEST_MODE" with
       | Some s => String.eqb s "true"
       | None => false
       end |}.

(** What the constructor of the bot builds from the configuration, as far
    as the sources define it. *)
Record TradingBot : Type :=
  { strategyManager : TechnicalStrategyManager;
    bot_authorizedUsers : list string }.

(** [new ConsolidatedTelegramTradingBot(config)] followed by [bot.start()].
    What the sources do not define (the constructors of [Telegraf] and of
    [CrossChainTradingBot], the calls into them, [launch]) either completes
    or throws: [external] tells which.  [None] is an exception: one of
    theirs, or the [TypeError] of calling [split] on something that is not
    a text. *)
Definition new_TradingBot (external : BotConfig -> bool) (c : BotConfig)
    (now : float) (js : list Job) : option (TradingBot * list Job) :=
  if external c then
    let '(mgr, js') := new_TechnicalStrategyManager (risk c) now js in
    match AUTHORIZED_USERS c with
    | VString s =>
        Some ({| strategyManager := mgr; bot_authorizedUsers := authorizedUsers s |},
              js')
    | _ => None
    end
  else None.

Inductive started : Type :=
| Exit (code : nat) (missing : list string)   (* [process.exit(code)] *)
| Running (b : TradingBot) (js : list Job).

(** The script: the check of the environment, then [startBot()], whose
    [catch] ends the process with code 1. *)
Definition main (external : BotConfig -> bool) (env : Env) (now : float)
  : started :=
  match missingEnvVars env with
  | [] =>
      match new_TradingBot external (config env) now [] with
      | Some (b, js) => Running b js
      | None => Exit 1 []
      end
  | missing => Exit 1 missing
  end.

End Startup.

(* ================================================================== *)
(** * Concrete inputs *)
(* ================================================================== *)

Module Samples.

Import Analyzer Risk Registry.
Local Open Scope float_scope.

(** A promise fulfilled with [a] at instant [t], one rejected with the
    reason [e] at instant [t]. *)
Definition fulfilled {A} (t : nat) (a : A) : promise A :=
  {| settles_at := t; outcome := Fulfilled a |}.

Definition rejected {A} (t : nat) (e : error) : promise A :=
  {| settles_at := t; outcome := Rejected e |}.

Definition whales : WhaleActivity :=
  {| buys := {| volume := 10; timeFrame := 1 |};
     avgHoldTime := 0; avgTradeSize := 0; walletAge := 0 |}.

Definition metrics : TokenMetrics :=
  {| holderDistribution := 0.5; liquidityDepth := 0.5;
     volumeProfile := 0.5; priceImpact := 0.1 |}.

Definition flow : SmartMoneyFlow :=
  {| inflow := 0.9; outflow := 0.1;
     pattern := VString "accumulating"; walletQuality := VNumber 0.8 |}.

Definition manipulation : ManipulationScore :=
  {| indicators := VUndefined; washTrading := 0.1;
     frontRunning := 0.1; contractSafety := 0.9 |}.

(** Collaborators that honour the contracts of the specification: the
    normalizer clamps to [[0, 1]], the scores they return lie in [[0, 1]];
    the third provider fails first, the fourth fails later. *)
Definition clamp (x : float) : float :=
  if x <? 0 then 0 else if 1 <? x then 1 else x.

Definition collaborators : Collaborators :=
  {| normalizeTradeSize := clamp;
     analyzeAccumulationPattern := fun _ => 0.5;
     assessWalletQuality := fun v => clamp (ToNumber v);
     calculateConfidence := fun _ => VNumber 0.5;
     calculateHealthScore := fun m => clamp (liquidityDepth m);
     calculateRiskScore := fun m => clamp (contractSafety m);
     computeWeightedScore := fun o =>
       VNumber (ToNumber (get o "whaleScore") + ToNumber (get o "healthScore")
                + ToNumber (get o "smartMoneyScore") + ToNumber (get o "riskScore"));
     calculateOptimalPosition := fun _ => VNumber 1;
     suggestEntryTiming := fun _ => VString "now";
     calculateStopLoss := fun _ => VNumber 2;
     calculateTakeProfit := fun _ => VObject [];
     NumberToString := fun _ => "0";
     getWhaleActivity := fun _ _ => fulfilled 3 whales;
     getTokenMetrics := fun _ => fulfilled 1 metrics;
     getSmartMoneyFlow := fun _ => rejected 2 (VString "timeout");
     assessManipulation := fun _ => rejected 5 (VString "rate limited") |}.

(** The same with four providers that succeed. *)
Definition healthy : Collaborators :=
  {| normalizeTradeSize := normalizeTradeSize collaborators;
     analyzeAccumulationPattern := analyzeAccumulationPattern collaborators;
     assessWalletQuality := assessWalletQuality collaborators;
     calculateConfidence := calculateConfidence collaborators;
     calculateHealthScore := calculateHealthScore collaborators;
     calculateRiskScore := calculateRiskScore collaborators;
     computeWeightedScore := computeWeightedScore collaborators;
     calculateOptimalPosition := calculateOptimalPosition collaborators;
     suggestEntryTiming := suggestEntryTiming collaborators;
     calculateStopLoss := calculateStopLoss collaborators;
     calculateTakeProfit := calculateTakeProfit collaborators;
     NumberToString := NumberToString collaborators;
     getWhaleActivity := fun _ _ => fulfilled 3 whales;
     getTokenMetrics := fun _ => fulfilled 1 metrics;
     getSmartMoneyFlow := fun _ => fulfilled 2 flow;
     assessManipulation := fun _ => fulfilled 5 manipulation |}.

(** The first example of the specification: riskScore 0.5, the other
    scores and the overall score 0.95. *)
Definition risky_scores : object :=
  [ ("whaleScore", VNumber 0.95); ("healthScore", VNumber 0.95);
    ("smartMoneyScore", VNumber 0.95); ("riskScore", VNumber 0.5);
    ("overallScore", VNumber 0.95) ].

(** The configuration at the end of [trading-bot.js]. *)
Definition config : Config :=
  {| cfg_maxLossPerTrade := Some 2;
     cfg_maxDailyLoss := Some 6;
     cfg_maxPositionSize := Some 5 |}.

(** A manager as the constructor builds it, then [/strategy activate
    breakout]. *)
Definition manager_with_breakout : TechnicalStrategyManager :=
  activate (fst (new_TechnicalStrategyManager config 0 [])) "breakout".

Definition trade : Trade :=
  {| size := 50; entryPrice := 100; stopLoss := nan;
     trade_takeProfitTargets := [] |}.

(** Whale metrics whose three terms are within [[0, 1]]: buy pressure 0.5,
    holding quality 0.5, trade size 0.3. *)
Definition steady_buying : WhaleMetrics :=
  {| recentBuys := {| volume := 1; timeFrame := 2 |};
     holdingTime := 0.5; tradeSize := 0.3; wm_walletAge := 1 |}.

(** Whale metrics with a buy pressure of 10 (volume 10 in a time frame of
    1) and nothing else. *)
Definition heavy_buying : WhaleMetrics :=
  {| recentBuys := {| volume := 10; timeFrame := 1 |};
     holdingTime := 0; tradeSize := 0; wm_walletAge := 0 |}.

(** The risk examples of the specification: a manager whose accumulator has
    reached the daily limit of 6, a fresh one, and a trade of size 100 with
    a stop loss of 3. *)
Definition exhausted : RiskManager :=
  {| maxLossPerTrade := 2; maxDailyLoss := 6; maxPositionSize := 5;
     dailyLoss := 6 |}.

Definition fresh : RiskManager :=
  {| maxLossPerTrade := 2; maxDailyLoss := 6; maxPositionSize := 5;
     dailyLoss := 0 |}.

Definition risky_trade : Trade :=
  {| size := 100; entryPrice := 1; stopLoss := 3;
     trade_takeProfitTargets := [] |}.

End Samples.

(** More inputs, for the facts on the command handlers, on the events and
    on the start-up script. *)
Module MoreSamples.

Import Analyzer Risk Registry.
Local Open Scope float_scope.

(** A trade of the size of [Samples.trade], with another entry price, a
    stop loss and a take-profit leg of its own. *)
Definition same_size : Trade :=
  {| size := 50; entryPrice := 1; stopLoss := 3;
     trade_takeProfitTargets := [ {| price := 7; positionSize := 1 |} ] |}.

Definition midnight : Time :=
  {| minute := 0; hour := 0; dayOfMonth := 2; month := 1; dayOfWeek := 3 |}.

Definition noon : Time :=
  {| minute := 0; hour := 12; dayOfMonth := 2; month := 1; dayOfWeek := 3 |}.

(** A day of the risk manager: two validations, the clock at noon and at
    midnight, a third validation. *)
Definition day : list event :=
  [ Validate Samples.risky_trade; Tick noon; Validate Samples.trade;
    Tick midnight; Validate Samples.risky_trade ].

(** Whale metrics whose three terms are 0.75, 0.5 and 0.3: at least those
    of [Samples.steady_buying]. *)
Definition stronger_buying : WhaleMetrics :=
  {| recentBuys := {| volume := 1.5; timeFrame := 2 |};
     holdingTime := 0.5; tradeSize := 0.3; wm_walletAge := 1 |}.

(** A smart-money flow whose three terms are 0.8, 0.5 and 0.8 under
    [Samples.collaborators]; as in the object that [analyzeTradeOpportunity]
    builds, the pattern is under [accumulationPattern] and there is no
    [pattern] property. *)
Definition steady_flow : Flow :=
  {| inflowRate := 0.9; outflowRate := 0.1;
     accumulationPattern := VString "accumulating";
     fl_walletQuality := VNumber 0.8;
     fl_pattern := VUndefined |}.

(** [Samples.collaborators] with an [analyzeAccumulationPattern] that tells
    a pattern from its absence: 1 for a text, 0 for anything else. *)
Definition pattern_reader : Collaborators :=
  {| normalizeTradeSize := normalizeTradeSize Samples.collaborators;
     analyzeAccumulationPattern :=
       fun v => match v with VString _ => 1 | _ => 0 end;
     assessWalletQuality := assessWalletQuality Samples.collaborators;
     calculateConfidence := calculateConfidence Samples.collaborators;
     calculateHealthScore := calculateHealthScore Samples.collaborators;
     calculateRiskScore := calculateRiskScore Samples.collaborators;
     computeWeightedScore := computeWeightedScore Samples.collaborators;
     calculateOptimalPosition := calculateOptimalPosition Samples.collaborators;
     suggestEntryTiming := suggestEntryTiming Samples.collaborators;
     calculateStopLoss := calculateStopLoss Samples.collaborators;
     calculateTakeProfit := calculateTakeProfit Samples.collaborators;
     NumberToString := NumberToString Samples.collaborators;
     getWhaleActivity := getWhaleActivity Samples.collaborators;
     getTokenMetrics := getTokenMetrics Samples.collaborators;
     getSmartMoneyFlow := getSmartMoneyFlow Samples.collaborators;
     assessManipulation := assessManipulation Samples.collaborators |}.

(** Whale metrics without a single buy: volume 0 in a time frame of 0. *)
Definition idle_whales : WhaleMetrics :=
  {| recentBuys := {| volume := 0; timeFrame := 0 |};
     holdingTime := 0.5; tradeSize := 0.3; wm_walletAge := 1 |}.

(** A risk manager whose accumulator has reached the daily limit, with the
    scheduler as the constructor leaves it. *)
Definition exhausted_world : World :=
  {| manager := Samples.exhausted; jobs := jobs (boot Samples.config) |}.

(** Three user ids: two that will be listed, one that will not. *)
Definition alice : Access.UserId :=
  {| Access.id_value := 1001; Access.id_safe := eq_refl |}.

Definition bob : Access.UserId :=
  {| Access.id_value := 1002; Access.id_safe := eq_refl |}.

Definition stranger : Access.UserId :=
  {| Access.id_value := 7; Access.id_safe := eq_refl |}.

(** A zone five hours ahead of UTC. *)
Definition UTC_plus_5 : Z := 300.

End MoreSamples.

(* ================================================================== *)
(** * Notions used to reason on binary64 arithmetic *)
(* ================================================================== *)

(** The primitive operations are specified by [FloatAxioms] through the
    reference implementation of [SpecFloat]: a number is a sign, a mantissa
    and an exponent, and every operation rounds an exact result to nearest,
    ties to even.  The definitions below name what the proofs about that
    implementation talk about. *)

Module Binary64.

Local Open Scope Z_scope.

(** The sign of a rounded non-zero number is the sign it was given. *)
Definition has_sign (s : bool) (x : spec_float) : Prop :=
  match x with
  | S754_finite s' _ _ | S754_infinity s' => s' = s
  | _ => False
  end.

(** [m] is the integer nearest to [V / G], the even one on a tie. *)
Definition nearest (V G m : Z) : Prop :=
  2 * Z.abs (G * m - V) <= G /\ (2 * Z.abs (G * m - V) = G -> Z.even m = true).

(** The unit in which values are counted: [2 ^ LOW], below every product of
    two numbers. *)
Definition LOW : Z := -2148.

(** The value that stands for infinity: the first power of two that is not
    a number. *)
Definition top : Z := 2 ^ (emax - LOW).

Definition nonneg (x : spec_float) : Prop :=
  match x with
  | S754_zero _ | S754_finite false _ _ | S754_infinity false => True
  | _ => False
  end.

(** The value of a non-negative number, in units of [2 ^ LOW]. *)
Definition xval (x : spec_float) : Z :=
  match x with
  | S754_finite false m e => Zpos m * 2 ^ (e - LOW)
  | S754_infinity false => top
  | _ => 0
  end.

(** The end of [binary_round_aux]: the rounded mantissa is renormalized and
    the overflow detected. *)
Definition finish (s : bool) (m : Z) (e : Z) : spec_float :=
  let '(mrs, e') := shr_fexp prec emax m e loc_Exact in
  match shr_m mrs with
  | Z0 => S754_zero s
  | Zpos m' => if e' <=? emax - prec then S754_finite s m' e' else S754_infinity s
  | _ => S754_nan
  end.

(** Non-negative and finite. *)
Definition fnn (x : spec_float) : Prop :=
  match x with
  | S754_zero _ | S754_finite false _ _ => True
  | _ => False
  end.

(** The value of such a number in units of [2 ^ emin]. *)
Definition uval (x : spec_float) : Z :=
  match x with
  | S754_finite false m e => Zpos m * 2 ^ (e - emin)
  | _ => 0
  end.

(** [r] is the rounding of the exact value [V], counted in units of
    [2 ^ LOW]. *)
Definition rounded (V : Z) (r : spec_float) : Prop :=
  nonneg r
  /\ ((V = 0 /\ xval r = 0)
      \/ exists M e,
           LOW <= e
           /\ e <= fexp prec emax (Zpos (digits2_pos M) + e)
           /\ Zpos M * 2 ^ (e - LOW) = V
           /\ xval r = xval (binary_round_aux prec emax false (Zpos M) e loc_Exact)).

(** The value of a number in units of [2 ^ emin], with its sign; the
    infinities stand beyond every number. *)
Definition sval (x : spec_float) : Z :=
  match x with
  | S754_zero _ | S754_nan => 0
  | S754_infinity s => cond_Zopp s (2 ^ (emax - emin))
  | S754_finite s m e => cond_Zopp s (Zpos m * 2 ^ (e - emin))
  end.

End Binary64.

Import Binary64.

Ltac fexp_lia := unfold fexp, SpecFloat.emin, emax, prec, LOW in *; lia.

(* ================================================================== *)
(** * Facts about binary64 arithmetic *)
(* ================================================================== *)

Section FloatTheory.

Local Open Scope Z_scope.

(** ** Binary digits *)

Lemma digits2_pos_bounds (m : positive) :
  2 ^ (Zpos (digits2_pos m) - 1) <= Zpos m < 2 ^ Zpos (digits2_pos m).
Proof.
  induction m as [m IH | m IH |]; cbn [digits2_pos].
  - rewrite Pos2Z.inj_succ.
    replace (Z.succ (Zpos (digits2_pos m)) - 1) with (Z.succ (Zpos (digits2_pos m) - 1)) by lia.
    rewrite !Z.pow_succ_r by lia. lia.
  - rewrite Pos2Z.inj_succ.
    replace (Z.succ (Zpos (digits2_pos m)) - 1) with (Z.succ (Zpos (digits2_pos m) - 1)) by lia.
    rewrite !Z.pow_succ_r by lia. lia.
  - cbn. lia.
Qed.

(** ** Right shifts *)

Lemma iter_pos_nat {A} (f : A -> A) (p : positive) (x : A) :
  iter_pos f p x = Nat.iter (Pos.to_nat p) f x.
Proof.
  revert x. induction p as [p IH | p IH |]; intros x; cbn [iter_pos].
  - rewrite !IH, Pos2Nat.inj_xI.
    replace (S (2 * Pos.to_nat p))%nat with (Pos.to_nat p + (Pos.to_nat p + 1))%nat by lia.
    rewrite !Nat.iter_add. reflexivity.
  - rewrite !IH, Pos2Nat.inj_xO.
    replace (2 * Pos.to_nat p)%nat with (Pos.to_nat p + Pos.to_nat p)%nat by lia.
    rewrite Nat.iter_add. reflexivity.
  - reflexivity.
Qed.

Lemma shr_1_m (r : shr_record) :
  0 <= shr_m r -> shr_m (shr_1 r) = shr_m r / 2.
Proof.
  destruct r as [m rb sb]. cbn [shr_m]. intros Hm.
  destruct m as [| [p | p |] |]; cbn [shr_1 shr_m]; try lia.
  - reflexivity.
  - rewrite Pos2Z.inj_xI. apply Z.div_unique with (r := 1); lia.
  - rewrite Pos2Z.inj_xO. apply Z.div_unique with (r := 0); lia.
  - reflexivity.
Qed.

Lemma shr_iter_m (n : nat) (r : shr_record) :
  0 <= shr_m r -> shr_m (Nat.iter n shr_1 r) = shr_m r / 2 ^ Z.of_nat n.
Proof.
  intros Hm. induction n as [| n IH].
  - cbn. rewrite Z.div_1_r. reflexivity.
  - rewrite Nat.iter_succ, shr_1_m.
    + rewrite IH, Nat2Z.inj_succ, Z.pow_succ_r by lia.
      rewrite Z.div_div by lia. f_equal. lia.
    + rewrite IH. apply Z.div_pos; lia.
Qed.

(** ** Rounding a positive mantissa never gives zero *)

Lemma shr_record_of_loc_m (m : Z) (l : location) : shr_m (shr_record_of_loc m l) = m.
Proof. destruct l as [| []]; reflexivity. Qed.

Lemma shr_fexp_pos (m : positive) (e : Z) (l : location) :
  emin <= e ->
  (exists m', shr_m (fst (shr_fexp prec emax (Zpos m) e l)) = Zpos m')
  /\ emin <= snd (shr_fexp prec emax (Zpos m) e l).
Proof.
  intros He. unfold shr_fexp, shr, fexp, SpecFloat.emin in *. cbn [Zdigits2].
  pose proof (digits2_pos_bounds m) as [Hlo _].
  destruct (Z.max (Zpos (digits2_pos m) + e - prec) (3 - emax - prec) - e) as [| p | p] eqn:Hn;
    cbn [fst snd]; rewrite ?shr_record_of_loc_m; try (split; [eexists; reflexivity | lia]).
  split; [| lia].
  rewrite iter_pos_nat, shr_iter_m by (rewrite shr_record_of_loc_m; lia).
  rewrite shr_record_of_loc_m, positive_nat_Z.
  assert (Hp : Zpos p <= Zpos (digits2_pos m) - 1) by (unfold prec, emax in *; lia).
  assert (Hpow : 2 ^ Zpos p <= Zpos m).
  { eapply Z.le_trans; [apply Z.pow_le_mono_r; [lia | exact Hp] | exact Hlo]. }
  assert (Hq : 0 < Zpos m / 2 ^ Zpos p) by (apply Z.div_str_pos; lia).
  destruct (Zpos m / 2 ^ Zpos p) as [| q | q]; try lia. eexists; reflexivity.
Qed.

Lemma round_nearest_even_pos (m : positive) (l : location) :
  exists m', round_nearest_even (Zpos m) l = Zpos m'.
Proof.
  destruct l as [| []]; cbn [round_nearest_even];
    try destruct (Z.even (Zpos m)); eexists; reflexivity.
Qed.

Lemma binary_round_aux_sign (s : bool) (m : positive) (e : Z) (l : location) :
  emin <= e -> has_sign s (binary_round_aux prec emax s (Zpos m) e l).
Proof.
  intros He. unfold binary_round_aux.
  destruct (shr_fexp_pos m l He) as [[m1 Hm1] He1].
  destruct (shr_fexp prec emax (Zpos m) e l) as [mrs1 e1]. cbn [fst snd] in *.
  rewrite Hm1.
  destruct (round_nearest_even_pos m1 (loc_of_shr_record mrs1)) as [m2 ->].
  destruct (shr_fexp_pos m2 loc_Exact He1) as [[m3 Hm3] _].
  destruct (shr_fexp prec emax (Zpos m2) e1 loc_Exact) as [mrs2 e2]. cbn [fst snd] in *.
  rewrite Hm3. destruct (e2 <=? emax - prec); reflexivity.
Qed.

Lemma binary_round_sign (s : bool) (m : positive) (e : Z) :
  emin <= e -> has_sign s (binary_round prec emax s m e).
Proof.
  intros He. unfold binary_round, shl_align.
  set (F := fexp prec emax (Zpos (digits2_pos m) + e)).
  assert (HF : emin <= F) by (unfold F, fexp; lia).
  destruct (F - e); apply binary_round_aux_sign; assumption.
Qed.

(** ** Valid numbers and their order *)

Lemma valid_finite (s : bool) (m : positive) (e : Z) :
  valid_binary (S754_finite s m e) = true ->
  emin <= e /\ Zpos (digits2_pos m) <= prec
  /\ (emin < e -> Zpos (digits2_pos m) = prec).
Proof.
  cbn [SpecFloat.valid_binary]. unfold bounded, canonical_mantissa, fexp, SpecFloat.emin.
  intros H. apply andb_prop in H as [H _]. apply Z.eqb_eq in H.
  unfold prec, emax in *. lia.
Qed.

Lemma iter_xO (m d : positive) : Zpos (Pos.iter xO m d) = Zpos m * 2 ^ Zpos d.
Proof.
  induction d as [| d IH] using Pos.peano_ind.
  - cbn. lia.
  - rewrite Pos.iter_succ, Pos2Z.inj_xO, IH, Pos2Z.inj_succ, Z.pow_succ_r by lia. lia.
Qed.

Lemma shl_align_value (m : positive) (e e' : Z) :
  e' <= e -> Zpos (fst (shl_align m e e')) = Zpos m * 2 ^ (e - e').
Proof.
  intros H. unfold shl_align. destruct (e' - e) as [| d | d] eqn:Hd; cbn [fst].
  - replace (e - e') with 0 by lia. lia.
  - lia.
  - rewrite iter_xO. f_equal. f_equal. lia.
Qed.

(** A canonical mantissa with the larger exponent is the larger number. *)
Lemma canonical_lt (m1 m2 : positive) (e1 e2 : Z) :
  valid_binary (S754_finite false m1 e1) = true ->
  valid_binary (S754_finite false m2 e2) = true ->
  e1 < e2 -> Zpos m1 < Zpos m2 * 2 ^ (e2 - e1).
Proof.
  intros H1 H2 Hlt.
  apply valid_finite in H1 as (He1 & Hd1 & _).
  apply valid_finite in H2 as (He2 & _ & Hd2).
  pose proof (digits2_pos_bounds m1) as [_ Hhi].
  pose proof (digits2_pos_bounds m2) as [Hlo _].
  rewrite Hd2 in Hlo by lia.
  assert (Zpos m1 < 2 ^ prec).
  { eapply Z.lt_le_trans; [exact Hhi | apply Z.pow_le_mono_r; lia]. }
  assert (2 ^ 1 <= 2 ^ (e2 - e1)) by (apply Z.pow_le_mono_r; lia).
  replace (2 ^ prec) with (2 ^ (prec - 1) * 2 ^ 1) in * by (unfold prec; reflexivity).
  nia.
Qed.

(** The order of two valid finite numbers is the sign of the difference of
    their aligned mantissas. *)
Lemma SFcompare_finite (sx sy : bool) (mx my : positive) (ex ey : Z) :
  valid_binary (S754_finite sx mx ex) = true ->
  valid_binary (S754_finite sy my ey) = true ->
  SFcompare (S754_finite sy my ey) (S754_finite sx mx ex)
  = Some (0 ?= cond_Zopp sx (Zpos (fst (shl_align mx ex (Z.min ex ey))))
               - cond_Zopp sy (Zpos (fst (shl_align my ey (Z.min ex ey))))).
Proof.
  intros Hx Hy.
  rewrite !shl_align_value by lia.
  assert (Hx' : valid_binary (S754_finite false mx ex) = true) by exact Hx.
  assert (Hy' : valid_binary (S754_finite false my ey) = true) by exact Hy.
  cbn [SFcompare]. f_equal.
  destruct (Z.compare_spec ey ex) as [Heq | Hlt | Hgt].
  - subst ey. rewrite Z.min_id, Z.sub_diag, Z.pow_0_r, !Z.mul_1_r.
    rewrite Pos.compare_cont_spec.
    destruct (Pos.compare_spec my mx) as [H | H | H];
      destruct sx, sy; cbn [Pos.switch_Eq cond_Zopp CompOpp]; symmetry;
      first [apply Z.compare_eq_iff; lia | apply Z.compare_lt_iff; lia
            | apply Z.compare_gt_iff; lia].
  - pose proof (@canonical_lt my mx ey ex Hy' Hx' Hlt).
    replace (Z.min ex ey) with ey by lia.
    rewrite Z.sub_diag, Z.pow_0_r, Z.mul_1_r.
    assert (0 < 2 ^ (ex - ey)) by (apply Z.pow_pos_nonneg; lia).
    destruct sx, sy; cbn [cond_Zopp]; symmetry;
      try (apply Z.compare_lt_iff; nia); try (apply Z.compare_gt_iff; nia).
  - pose proof (@canonical_lt mx my ex ey Hx' Hy' Hgt).
    replace (Z.min ex ey) with ex by lia.
    rewrite Z.sub_diag, Z.pow_0_r, Z.mul_1_r.
    assert (0 < 2 ^ (ey - ex)) by (apply Z.pow_pos_nonneg; lia).
    destruct sx, sy; cbn [cond_Zopp]; symmetry;
      try (apply Z.compare_lt_iff; nia); try (apply Z.compare_gt_iff; nia).
Qed.

(** ** The sign of a difference *)

Lemma SFsub_sign (x y : spec_float) :
  valid_binary x = true -> valid_binary y = true ->
  x <> S754_nan -> y <> S754_nan ->
  SFltb (S754_zero false) (SF64sub x y) = SFltb y x.
Proof.
  intros Hx Hy Nx Ny.
  destruct x as [sx | sx | | sx mx ex], y as [sy | sy | | sy my ey];
    try congruence;
    try (destruct sx, sy; reflexivity);
    try (destruct sx; reflexivity); try (destruct sy; reflexivity).
  unfold SFltb. rewrite (@SFcompare_finite sx sy mx my ex ey Hx Hy).
  unfold SF64sub, SFsub.
  pose proof (@valid_finite sx mx ex Hx) as (Hex & _).
  pose proof (@valid_finite sy my ey Hy) as (Hey & _).
  destruct (cond_Zopp sx (Zpos (fst (shl_align mx ex (Z.min ex ey))))
            - cond_Zopp sy (Zpos (fst (shl_align my ey (Z.min ex ey)))))
    as [| p | p]; cbn [binary_normalize Z.compare].
  - reflexivity.
  - assert (Hs := @binary_round_sign false p (Z.min ex ey) ltac:(lia)).
    destruct (binary_round prec emax false p (Z.min ex ey)) as [| s | | s m e];
      cbn [has_sign] in Hs; try contradiction; subst s; reflexivity.
  - assert (Hs := @binary_round_sign true p (Z.min ex ey) ltac:(lia)).
    destruct (binary_round prec emax true p (Z.min ex ey)) as [| s | | s m e];
      cbn [has_sign] in Hs; try contradiction; subst s; reflexivity.
Qed.

Local Open Scope float_scope.

Lemma not_nan (a : float) : PrimFloat.is_nan a = false -> Prim2SF a <> S754_nan.
Proof.
  unfold PrimFloat.is_nan. rewrite eqb_spec. intros H E. rewrite E in H. discriminate.
Qed.

(** [a - b] is positive exactly when [b] is below [a]. *)
Lemma sub_positive (a b : float) :
  PrimFloat.is_nan a = false -> PrimFloat.is_nan b = false ->
  (0 <? a - b) = (b <? a).
Proof.
  intros Ha Hb. rewrite !ltb_spec, sub_spec.
  change (Prim2SF 0) with (S754_zero false).
  apply SFsub_sign; auto using Prim2SF_valid, not_nan.
Qed.

(** The order of numbers is total away from [NaN]. *)
Lemma SFcompare_antisym (x y : spec_float) :
  SFcompare x y = option_map CompOpp (SFcompare y x).
Proof.
  destruct x as [sx | sx | | sx mx ex], y as [sy | sy | | sy my ey];
    try reflexivity;
    try (destruct sx, sy; reflexivity);
    try (destruct sx; reflexivity); try (destruct sy; reflexivity).
  cbn [SFcompare option_map]. f_equal.
  rewrite (Z.compare_antisym ex ey), !Pos.compare_cont_spec, (Pos.compare_antisym mx my).
  destruct sx, sy, (ex ?= ey)%Z, (mx ?= my)%positive; reflexivity.
Qed.

Lemma SFcompare_some (x y : spec_float) :
  x <> S754_nan -> y <> S754_nan -> exists c, SFcompare x y = Some c.
Proof.
  intros Hx Hy.
  destruct x as [sx | sx | | sx mx ex], y as [sy | sy | | sy my ey];
    try congruence; cbn [SFcompare]; eexists; reflexivity.
Qed.

Lemma not_ltb_leb (a b : float) :
  PrimFloat.is_nan a = false -> PrimFloat.is_nan b = false ->
  (b <? a) = false -> (a <=? b) = true.
Proof.
  intros Ha Hb. rewrite ltb_spec, leb_spec. unfold SFltb, SFleb.
  rewrite (SFcompare_antisym (Prim2SF a) (Prim2SF b)).
  destruct (@SFcompare_some (Prim2SF b) (Prim2SF a)) as [c ->];
    auto using not_nan.
  destruct c; cbn; congruence.
Qed.

Lemma ltb_leb (a b : float) : (a <? b) = true -> (a <=? b) = true.
Proof.
  rewrite ltb_spec, leb_spec. unfold SFltb, SFleb.
  destruct (SFcompare (Prim2SF a) (Prim2SF b)) as [[] |]; congruence.
Qed.

End FloatTheory.

Section Rounding.

Local Open Scope Z_scope.

(** ** Rounding to nearest, ties to even *)

Lemma nearest_scale (k V G m : Z) :
  0 < k -> nearest V G m -> nearest (k * V) (k * G) m.
Proof.
  intros Hk [H1 H2]. unfold nearest.
  replace (k * G * m - k * V) with (k * (G * m - V)) by ring.
  rewrite Z.abs_mul, (Z.abs_eq k) by lia. split; [nia |].
  intros H. apply H2. nia.
Qed.

Lemma nearest_mono (V V' G a b : Z) :
  0 < G -> nearest V G a -> nearest V' G b -> V <= V' -> a <= b.
Proof.
  intros HG [Ha Hae] [Hb Hbe] HV.
  destruct (Z_le_gt_dec a b) as [| Hgt]; [assumption | exfalso].
  assert (a = b + 1) by nia. subst a.
  assert (E1 : 2 * Z.abs (G * (b + 1) - V) = G) by nia.
  assert (E2 : 2 * Z.abs (G * b - V') = G) by nia.
  specialize (Hae E1). specialize (Hbe E2).
  rewrite Z.even_add in Hae. rewrite Hbe in Hae. discriminate.
Qed.

(** After [k] right shifts the record holds the quotient, the last bit
    shifted out and whether anything was shifted out before it. *)
Lemma shr_iter_inv (M : Z) (k : nat) :
  0 <= M ->
  exists u,
    2 * M = shr_m (Nat.iter k shr_1 {| shr_m := M; shr_r := false; shr_s := false |})
            * 2 ^ (Z.of_nat k + 1)
            + (if shr_r (Nat.iter k shr_1 {| shr_m := M; shr_r := false; shr_s := false |})
               then 2 ^ Z.of_nat k else 0)
            + u
    /\ 0 <= u < 2 ^ Z.of_nat k
    /\ shr_s (Nat.iter k shr_1 {| shr_m := M; shr_r := false; shr_s := false |})
       = negb (u =? 0)
    /\ 0 <= shr_m (Nat.iter k shr_1 {| shr_m := M; shr_r := false; shr_s := false |}).
Proof.
  intros HM. induction k as [| k IH].
  - exists 0. unfold Nat.iter. cbn [nat_rect shr_m shr_r shr_s Z.of_nat].
    change (2 ^ (0 + 1)) with 2. change (2 ^ 0) with 1. cbn [Z.eqb negb].
    repeat split; lia.
  - rewrite Nat.iter_succ.
    destruct IH as (u & Heq & Hu & Hs & Hm).
    destruct (Nat.iter k shr_1 _) as [m rb sb]. cbn [shr_m shr_r shr_s] in *.
    rewrite Nat2Z.inj_succ.
    rewrite (Z.pow_add_r 2 (Z.succ (Z.of_nat k)) 1), (Z.pow_succ_r 2 (Z.of_nat k)) by lia.
    rewrite (Z.pow_add_r 2 (Z.of_nat k) 1) in Heq by lia.
    change (2 ^ 1) with 2 in *.
    assert (HG : 0 < 2 ^ Z.of_nat k) by (apply Z.pow_pos_nonneg; lia).
    generalize dependent (2 ^ Z.of_nat k). intros G Heq Hu HG.
    exists ((if rb then G else 0) + u).
    assert (Hs' : (rb || sb)%bool = negb ((if rb then G else 0) + u =? 0)).
    { rewrite Hs. destruct rb; cbn [orb]; [| reflexivity].
      symmetry. apply Bool.negb_true_iff, Z.eqb_neq. lia. }
    assert (Hu' : 0 <= (if rb then G else 0) + u < 2 * G) by (destruct rb; lia).
    destruct m as [| [p | p |] | p]; cbn [shr_1 shr_m shr_r shr_s];
      [ | rewrite (Pos2Z.inj_xI p) in Heq | rewrite (Pos2Z.inj_xO p) in Heq | |
        exfalso; clear - Hm; lia ];
      (split; [| split; [exact Hu' | split; [exact Hs' | clear; lia]]]);
      cbv beta iota; (etransitivity; [exact Heq | ring]).
Qed.

Lemma round_shr_nearest (M : Z) (k : nat) :
  0 <= M ->
  nearest M (2 ^ Z.of_nat k)
    (round_nearest_even
       (shr_m (Nat.iter k shr_1 {| shr_m := M; shr_r := false; shr_s := false |}))
       (loc_of_shr_record
          (Nat.iter k shr_1 {| shr_m := M; shr_r := false; shr_s := false |})))
  /\ 0 <= round_nearest_even
            (shr_m (Nat.iter k shr_1 {| shr_m := M; shr_r := false; shr_s := false |}))
            (loc_of_shr_record
               (Nat.iter k shr_1 {| shr_m := M; shr_r := false; shr_s := false |})).
Proof.
  intros HM. destruct (shr_iter_inv k HM) as (u & Heq & Hu & Hs & Hm).
  destruct (Nat.iter k shr_1 _) as [q rb sb]. cbn [shr_m shr_r shr_s] in *.
  rewrite Z.pow_add_r, Z.pow_1_r in Heq by lia.
  assert (HG : 0 < 2 ^ Z.of_nat k) by (apply Z.pow_pos_nonneg; lia).
  generalize dependent (2 ^ Z.of_nat k). intros G Heq Hu HG.
  unfold nearest.
  destruct rb, sb; cbn [loc_of_shr_record round_nearest_even];
    symmetry in Hs; [apply Bool.negb_true_iff, Z.eqb_neq in Hs
                    | apply Bool.negb_false_iff, Z.eqb_eq in Hs
                    | apply Bool.negb_true_iff, Z.eqb_neq in Hs
                    | apply Bool.negb_false_iff, Z.eqb_eq in Hs].
  - split; [split; [lia | intros; lia] | lia].
  - destruct (Z.even q) eqn:Hev.
    + split; [split; [lia | intros; assumption] | lia].
    + split; [split; [lia | intros _] | lia].
      rewrite Z.even_add, Hev. reflexivity.
  - split; [split; [lia | intros; lia] | lia].
  - split; [split; [lia | intros; lia] | lia].
Qed.

(** The first shift of [binary_round_aux]: the mantissa is brought to the
    exponent [fexp] asks for and rounded to nearest, ties to even. *)
Lemma shr_fexp_nearest (M : positive) (e : Z) :
  e <= fexp prec emax (Zpos (digits2_pos M) + e) ->
  exists rec,
    shr_fexp prec emax (Zpos M) e loc_Exact
    = (rec, fexp prec emax (Zpos (digits2_pos M) + e))
    /\ nearest (Zpos M) (2 ^ (fexp prec emax (Zpos (digits2_pos M) + e) - e))
         (round_nearest_even (shr_m rec) (loc_of_shr_record rec))
    /\ 0 <= round_nearest_even (shr_m rec) (loc_of_shr_record rec).
Proof.
  intros He. unfold shr_fexp, shr. cbn [Zdigits2 shr_record_of_loc].
  set (F := fexp prec emax (Zpos (digits2_pos M) + e)) in *.
  destruct (F - e) as [| p | p] eqn:Hn; try lia.
  - eexists. split; [f_equal; lia |].
    cbn [shr_m loc_of_shr_record round_nearest_even]. unfold nearest.
    change (2 ^ 0) with 1. split; [split; lia | lia].
  - eexists. split; [f_equal; lia |].
    rewrite iter_pos_nat.
    pose proof (@round_shr_nearest (Zpos M) (Pos.to_nat p) ltac:(lia)) as H.
    rewrite positive_nat_Z in H. exact H.
Qed.

(** A mantissa rounded at the exponent of [fexp] has at most [prec] digits,
    or is [2 ^ prec]; above the subnormal range it has [prec] digits. *)
Lemma nearest_bounds (M : positive) (e m2 : Z) :
  e <= fexp prec emax (Zpos (digits2_pos M) + e) ->
  nearest (Zpos M) (2 ^ (fexp prec emax (Zpos (digits2_pos M) + e) - e)) m2 ->
  m2 <= 2 ^ prec
  /\ (emin < fexp prec emax (Zpos (digits2_pos M) + e) -> 2 ^ (prec - 1) <= m2).
Proof.
  intros He [Hn _].
  pose proof (digits2_pos_bounds M) as [Hlo Hhi].
  set (d := Zpos (digits2_pos M)) in *.
  set (F := fexp prec emax (d + e)) in *.
  assert (HF : d + e - prec <= F /\ emin <= F) by (unfold F, fexp; lia).
  assert (HG : 0 < 2 ^ (F - e)) by (apply Z.pow_pos_nonneg; lia).
  split.
  - assert (Hd : 2 ^ d <= 2 ^ prec * 2 ^ (F - e)).
    { rewrite <- Z.pow_add_r by (unfold prec; lia).
      apply Z.pow_le_mono_r; lia. }
    generalize dependent (2 ^ (F - e)). intros G Hn HG Hd.
    destruct (Z_le_gt_dec m2 (2 ^ prec)) as [| Hgt]; [assumption | exfalso].
    assert (G * (2 ^ prec + 1) <= G * m2) by (apply Z.mul_le_mono_nonneg_l; lia).
    lia.
  - intros Hsub.
    assert (HFd : F = d + e - prec) by (unfold F, fexp in *; lia).
    assert (Hd : 2 ^ (prec - 1) * 2 ^ (F - e) = 2 ^ (d - 1)).
    { rewrite <- Z.pow_add_r by (unfold prec; lia). f_equal. lia. }
    generalize dependent (2 ^ (F - e)). intros G Hn HG Hd.
    destruct (Z_le_gt_dec (2 ^ (prec - 1)) m2) as [| Hgt]; [assumption | exfalso].
    assert (G * m2 <= G * (2 ^ (prec - 1) - 1)) by (apply Z.mul_le_mono_nonneg_l; lia).
    change (2 ^ prec) with (2 * 2 ^ (prec - 1)) in *.
    lia.
Qed.


Lemma binary_round_aux_finish (s : bool) (m e : Z) (l : location) :
  binary_round_aux prec emax s m e l
  = finish s (round_nearest_even (shr_m (fst (shr_fexp prec emax m e l)))
                (loc_of_shr_record (fst (shr_fexp prec emax m e l))))
      (snd (shr_fexp prec emax m e l)).
Proof.
  unfold binary_round_aux, finish.
  destruct (shr_fexp prec emax m e l) as [mrs e']. reflexivity.
Qed.

Lemma top_pos : 0 < top.
Proof. unfold top. apply Z.pow_pos_nonneg; fexp_lia. Qed.

Lemma pow2_split (a b : Z) : 0 <= a -> 0 <= b -> 2 ^ (a + b) = 2 ^ a * 2 ^ b.
Proof. intros. apply Z.pow_add_r; assumption. Qed.

Lemma below_top (m F : Z) :
  LOW <= F -> F <= emax - prec -> m <= 2 ^ prec -> m * 2 ^ (F - LOW) <= top.
Proof.
  intros HF Hle Hm.
  assert (HT : 0 < 2 ^ (F - LOW)) by (apply Z.pow_pos_nonneg; lia).
  apply Z.le_trans with (2 ^ prec * 2 ^ (F - LOW)).
  - apply Z.mul_le_mono_nonneg_r; lia.
  - unfold top. rewrite <- pow2_split by fexp_lia.
    apply Z.pow_le_mono_r; fexp_lia.
Qed.

Lemma above_top (m F : Z) :
  LOW <= F -> emax - prec < F -> 2 ^ (prec - 1) <= m -> top <= m * 2 ^ (F - LOW).
Proof.
  intros HF Hgt Hm.
  assert (HT : 0 < 2 ^ (F - LOW)) by (apply Z.pow_pos_nonneg; lia).
  apply Z.le_trans with (2 ^ (prec - 1) * 2 ^ (F - LOW)).
  - unfold top. rewrite <- pow2_split by fexp_lia.
    apply Z.pow_le_mono_r; fexp_lia.
  - apply Z.mul_le_mono_nonneg_r; lia.
Qed.

Lemma finish_spec (m2 F : Z) :
  emin <= F -> 0 <= m2 <= 2 ^ prec -> (emin < F -> 2 ^ (prec - 1) <= m2) ->
  nonneg (finish false m2 F)
  /\ xval (finish false m2 F) = Z.min (m2 * 2 ^ (F - LOW)) top.
Proof.
  intros HF [Hm0 Hm1] Hnorm. pose proof top_pos as Htop.
  assert (HL : LOW <= F) by fexp_lia.
  assert (HT : 0 < 2 ^ (F - LOW)) by (apply Z.pow_pos_nonneg; lia).
  unfold finish, shr_fexp, shr. cbn [shr_record_of_loc].
  destruct m2 as [| p | p]; [| | lia].
  - cbn [Zdigits2].
    assert (Hn : fexp prec emax (0 + F) - F <= 0) by fexp_lia.
    destruct (fexp prec emax (0 + F) - F) as [| q | q]; try lia;
      cbn [shr_m nonneg xval]; (split; [exact I | lia]).
  - cbn [Zdigits2].
    pose proof (digits2_pos_bounds p) as [Hlo Hhi].
    destruct (Z.eq_dec (Zpos p) (2 ^ prec)) as [Heq | Hne].
    + assert (Hp : p = 9007199254740992%positive)
        by (change (2 ^ prec) with 9007199254740992 in Heq; lia).
      rewrite Hp. change (digits2_pos 9007199254740992) with 54%positive.
      replace (fexp prec emax (54 + F) - F) with 1 by fexp_lia.
      cbn [iter_pos shr_1 shr_m].
      assert (E : 4503599627370496 * 2 ^ (F + 1 - LOW) = 2 ^ prec * 2 ^ (F - LOW)).
      { replace (F + 1 - LOW) with (Z.succ (F - LOW)) by lia.
        rewrite Z.pow_succ_r by lia. change (2 ^ prec) with (2 * 4503599627370496). ring. }
      change (Zpos 9007199254740992) with (2 ^ prec).
      destruct (Z.leb_spec (F + 1) (emax - prec)) as [Hle | Hgt];
        cbn [nonneg xval]; (split; [exact I |]).
      * rewrite E.
        pose proof (@below_top (2 ^ prec) F ltac:(lia) ltac:(lia) ltac:(lia)). lia.
      * assert (top <= 2 ^ prec * 2 ^ (F - LOW)).
        { unfold top. rewrite <- pow2_split by fexp_lia.
          apply Z.pow_le_mono_r; fexp_lia. }
        lia.
    + assert (Hd : Zpos (digits2_pos p) <= prec).
      { assert (H : 2 ^ (Zpos (digits2_pos p) - 1) < 2 ^ prec) by lia.
        apply Z.pow_lt_mono_r_iff in H; fexp_lia. }
      assert (Hn : fexp prec emax (Zpos (digits2_pos p) + F) - F <= 0) by fexp_lia.
      destruct (fexp prec emax (Zpos (digits2_pos p) + F) - F) as [| q | q]; try lia;
        cbn [shr_m]; (destruct (Z.leb_spec F (emax - prec)) as [Hle | Hgt];
                      cbn [nonneg xval]; (split; [exact I |])).
      all: first
        [ pose proof (@below_top (Zpos p) F ltac:(lia) Hle ltac:(lia)); lia
        | pose proof (@above_top (Zpos p) F ltac:(lia) Hgt
                        (Hnorm ltac:(fexp_lia))); lia ].
Qed.

(** [binary_round_aux] on an exact positive mantissa that [fexp] does not ask
    to shift left: the result is the rounding to nearest of [M * 2 ^ e] on
    the grid [2 ^ fexp], capped at infinity. *)
Lemma binary_round_aux_spec (M : positive) (e : Z) :
  e <= fexp prec emax (Zpos (digits2_pos M) + e) ->
  exists m2,
    nearest (Zpos M) (2 ^ (fexp prec emax (Zpos (digits2_pos M) + e) - e)) m2
    /\ 0 <= m2 <= 2 ^ prec
    /\ (emin < fexp prec emax (Zpos (digits2_pos M) + e) -> 2 ^ (prec - 1) <= m2)
    /\ nonneg (binary_round_aux prec emax false (Zpos M) e loc_Exact)
    /\ xval (binary_round_aux prec emax false (Zpos M) e loc_Exact)
       = Z.min (m2 * 2 ^ (fexp prec emax (Zpos (digits2_pos M) + e) - LOW)) top.
Proof.
  intros He.
  assert (HF : emin <= fexp prec emax (Zpos (digits2_pos M) + e)) by fexp_lia.
  destruct (@shr_fexp_nearest M e He) as (rec & Hshr & Hnear & Hpos).
  destruct (@nearest_bounds M e _ He Hnear) as [Hup Hlow].
  rewrite binary_round_aux_finish, Hshr. cbn [fst snd].
  destruct (@finish_spec (round_nearest_even (shr_m rec) (loc_of_shr_record rec))
              (fexp prec emax (Zpos (digits2_pos M) + e)) HF (conj Hpos Hup) Hlow)
    as [Hnn Hval].
  eexists. split; [exact Hnear |]. split; [split; assumption |].
  split; [exact Hlow |]. split; [exact Hnn | exact Hval].
Qed.

(** The number of digits grows with the value. *)
Lemma digits_le (M M' : positive) (a b : Z) :
  0 <= a -> 0 <= b ->
  Zpos M * 2 ^ a <= Zpos M' * 2 ^ b ->
  Zpos (digits2_pos M) + a <= Zpos (digits2_pos M') + b.
Proof.
  intros Ha Hb H.
  pose proof (digits2_pos_bounds M) as [Hlo _].
  pose proof (digits2_pos_bounds M') as [_ Hhi].
  assert (H1 : 2 ^ (Zpos (digits2_pos M) - 1 + a) <= Zpos M * 2 ^ a).
  { rewrite pow2_split by lia. apply Z.mul_le_mono_nonneg_r; [apply Z.pow_nonneg |]; lia. }
  assert (H2 : Zpos M' * 2 ^ b < 2 ^ (Zpos (digits2_pos M') + b)).
  { rewrite pow2_split by lia. apply Z.mul_lt_mono_pos_r; [apply Z.pow_pos_nonneg |]; lia. }
  assert (H3 : 2 ^ (Zpos (digits2_pos M) - 1 + a) < 2 ^ (Zpos (digits2_pos M') + b)) by lia.
  apply Z.pow_lt_mono_r_iff in H3; lia.
Qed.

(** Rounding is monotone. *)
Lemma binary_round_aux_mono (M M' : positive) (e e' : Z) :
  LOW <= e -> LOW <= e' ->
  e <= fexp prec emax (Zpos (digits2_pos M) + e) ->
  e' <= fexp prec emax (Zpos (digits2_pos M') + e') ->
  Zpos M * 2 ^ (e - LOW) <= Zpos M' * 2 ^ (e' - LOW) ->
  xval (binary_round_aux prec emax false (Zpos M) e loc_Exact)
  <= xval (binary_round_aux prec emax false (Zpos M') e' loc_Exact).
Proof.
  intros Hl Hl' He He' HV.
  pose proof (@digits_le M M' (e - LOW) (e' - LOW) ltac:(lia) ltac:(lia) HV) as Hd.
  assert (HFF : fexp prec emax (Zpos (digits2_pos M) + e) <= fexp prec emax (Zpos (digits2_pos M') + e'))
    by (unfold fexp; lia).
  assert (HF : emin <= fexp prec emax (Zpos (digits2_pos M) + e)) by (unfold fexp; lia).
  destruct (@binary_round_aux_spec M e He) as (m & Hn & [Hm0 Hm1] & Hlo & _ & ->).
  destruct (@binary_round_aux_spec M' e' He') as (m' & Hn' & [Hm0' Hm1'] & Hlo' & _ & ->).
  set (F := fexp prec emax (Zpos (digits2_pos M) + e)) in *.
  set (F' := fexp prec emax (Zpos (digits2_pos M') + e')) in *.
  apply Z.min_le_compat_r.
  destruct (Z.eq_dec F F') as [E | NE].
  - rewrite <- E in *.
    apply Z.mul_le_mono_nonneg_r; [apply Z.pow_nonneg; lia |].
    apply (@nearest_mono (Zpos M * 2 ^ (e - LOW)) (Zpos M' * 2 ^ (e' - LOW))
             (2 ^ (F - LOW))).
    + apply Z.pow_pos_nonneg; lia.
    + replace (F - LOW) with ((e - LOW) + (F - e)) by lia.
      rewrite pow2_split, (Z.mul_comm (Zpos M)) by lia.
      apply nearest_scale; [apply Z.pow_pos_nonneg; lia | exact Hn].
    + replace (F - LOW) with ((e' - LOW) + (F - e')) by lia.
      rewrite pow2_split, (Z.mul_comm (Zpos M')) by lia.
      apply nearest_scale; [apply Z.pow_pos_nonneg; lia | exact Hn'].
    + exact HV.
  - specialize (Hlo' ltac:(lia)).
    apply Z.le_trans with (2 ^ prec * 2 ^ (F - LOW)).
    + apply Z.mul_le_mono_nonneg_r; [apply Z.pow_nonneg; lia | exact Hm1].
    + apply Z.le_trans with (2 ^ (prec - 1) * 2 ^ (F' - LOW)).
      * rewrite <- !pow2_split by fexp_lia. apply Z.pow_le_mono_r; lia.
      * apply Z.mul_le_mono_nonneg_r; [apply Z.pow_nonneg; lia | exact Hlo'].
Qed.


End Rounding.

Section Order.

Local Open Scope Z_scope.

(** ** The order of non-negative numbers *)

Lemma fnn_nonneg (x : spec_float) : fnn x -> nonneg x.
Proof. destruct x as [| [] | | [] ? ?]; cbn; auto. Qed.

Lemma valid_exponent (s : bool) (m : positive) (e : Z) :
  valid_binary (S754_finite s m e) = true -> e <= emax - prec.
Proof.
  cbn [SpecFloat.valid_binary]. unfold bounded. intros H.
  apply andb_prop in H as [_ H]. apply Z.leb_le in H. exact H.
Qed.

Lemma xval_uval (x : spec_float) :
  valid_binary x = true -> fnn x -> xval x = uval x * 2 ^ (emin - LOW).
Proof.
  intros Hv Hx. destruct x as [| [] | | [] m e]; cbn in Hx; try contradiction;
    cbn [xval uval]; try reflexivity.
  destruct (@valid_finite false m e Hv) as (He & _).
  rewrite <- Z.mul_assoc, <- pow2_split by fexp_lia. do 2 f_equal. lia.
Qed.

Lemma uval_nonneg (x : spec_float) : 0 <= uval x.
Proof.
  destruct x as [| | | [] m e]; cbn [uval]; lia.
Qed.

Lemma xval_nonneg (x : spec_float) : 0 <= xval x.
Proof.
  pose proof top_pos.
  destruct x as [| [] | | [] m e]; cbn [xval]; lia.
Qed.

Lemma xval_finite_pos (m : positive) (e : Z) :
  valid_binary (S754_finite false m e) = true ->
  0 < xval (S754_finite false m e) < top.
Proof.
  intros Hv. destruct (@valid_finite false m e Hv) as (He & Hd & _).
  pose proof (@valid_exponent false m e Hv) as Hmax.
  pose proof (digits2_pos_bounds m) as [_ Hhi].
  cbn [xval].
  assert (HT : 0 < 2 ^ (e - LOW)) by (apply Z.pow_pos_nonneg; fexp_lia).
  split; [apply Z.mul_pos_pos; lia |].
  assert (Hm : Zpos m < 2 ^ prec).
  { eapply Z.lt_le_trans; [exact Hhi | apply Z.pow_le_mono_r; lia]. }
  apply Z.lt_le_trans with (2 ^ prec * 2 ^ (e - LOW)).
  - apply Z.mul_lt_mono_pos_r; assumption.
  - unfold top. rewrite <- pow2_split by fexp_lia. apply Z.pow_le_mono_r; fexp_lia.
Qed.

(** On valid non-negative numbers the order is the order of values. *)
Lemma SFleb_xval (x y : spec_float) :
  valid_binary x = true -> valid_binary y = true -> nonneg x -> nonneg y ->
  (SFleb x y = true <-> xval x <= xval y).
Proof.
  intros Hx Hy Nx Ny. pose proof top_pos as Htop.
  destruct x as [sx | [] | | [] mx ex]; cbn in Nx; try contradiction;
    destruct y as [sy | [] | | [] my ey]; cbn in Ny; try contradiction;
    try (pose proof (@xval_finite_pos mx ex Hx));
    try (pose proof (@xval_finite_pos my ey Hy));
    try (cbn [xval] in *; unfold SFleb; cbn [SFcompare];
         split; [intros _; lia | reflexivity]);
    try (cbn [xval] in *; unfold SFleb; cbn [SFcompare];
         split; [discriminate | intros; lia]).
  unfold SFleb. rewrite (@SFcompare_finite false false my mx ey ex Hy Hx).
  rewrite !shl_align_value by lia. cbn [cond_Zopp xval].
  destruct (@valid_finite false mx ex Hx) as (Hex & _).
  destruct (@valid_finite false my ey Hy) as (Hey & _).
  set (ez := Z.min ey ex).
  assert (Ex : 2 ^ (ex - LOW) = 2 ^ (ex - ez) * 2 ^ (ez - LOW)).
  { rewrite <- pow2_split by fexp_lia. f_equal. lia. }
  assert (Ey : 2 ^ (ey - LOW) = 2 ^ (ey - ez) * 2 ^ (ez - LOW)).
  { rewrite <- pow2_split by fexp_lia. f_equal. lia. }
  assert (HT : 0 < 2 ^ (ez - LOW)) by (apply Z.pow_pos_nonneg; fexp_lia).
  rewrite Ex, Ey, !Z.mul_assoc. clear Ex Ey H H0.
  generalize (Zpos mx * 2 ^ (ex - ez)). intros A.
  generalize (Zpos my * 2 ^ (ey - ez)). intros B.
  generalize dependent (2 ^ (ez - LOW)). intros T HT.
  destruct (Z.compare_spec 0 (B - A)); split; intros; try discriminate;
    try reflexivity; nia.
Qed.

(** ** Operations as roundings of exact values *)

Lemma rounded_mono (V V' : Z) (r r' : spec_float) :
  rounded V r -> rounded V' r' -> V <= V' -> xval r <= xval r'.
Proof.
  intros [_ [[HV Hr] | (M & e & Hl & He & HV & Hr)]]
         [_ [[HV' Hr'] | (M' & e' & Hl' & He' & HV' & Hr')]] Hle.
  - lia.
  - rewrite Hr. apply xval_nonneg.
  - exfalso. assert (0 < Zpos M * 2 ^ (e - LOW)); [| lia].
    apply Z.mul_pos_pos; [lia | apply Z.pow_pos_nonneg; lia].
  - rewrite Hr, Hr'. apply binary_round_aux_mono; try assumption. lia.
Qed.

Lemma valid_canonical (s : bool) (m : positive) (e : Z) :
  valid_binary (S754_finite s m e) = true -> fexp prec emax (Zpos (digits2_pos m) + e) = e.
Proof.
  cbn [SpecFloat.valid_binary]. unfold bounded, canonical_mantissa. intros H.
  apply andb_prop in H as [H _]. apply Z.eqb_eq in H. exact H.
Qed.

(** A valid number is its own rounding. *)
Lemma rounded_id (x : spec_float) :
  valid_binary x = true -> fnn x -> rounded (xval x) x.
Proof.
  intros Hv Hx. split; [apply fnn_nonneg; exact Hx |].
  destruct x as [| [] | | [] m e]; cbn in Hx; try contradiction.
  - left. split; reflexivity.
  - right. exists m, e.
    pose proof (@valid_canonical false m e Hv) as Hc.
    destruct (@valid_finite false m e Hv) as (He & _).
    assert (Hle : e <= fexp prec emax (Zpos (digits2_pos m) + e)) by lia.
    split; [fexp_lia | split; [exact Hle | split; [reflexivity |]]].
    destruct (@binary_round_aux_spec m e Hle) as (m2 & [Hn _] & _ & _ & _ & ->).
    rewrite Hc, Z.sub_diag in *. change (2 ^ 0) with 1 in Hn.
    assert (m2 = Zpos m) by lia. subst m2.
    pose proof (@xval_finite_pos m e Hv) as Hb. cbn [xval] in *. lia.
Qed.

Lemma digits_mul (mx my : positive) :
  Zpos (digits2_pos mx) + Zpos (digits2_pos my) - 1 <= Zpos (digits2_pos (mx * my)).
Proof.
  pose proof (digits2_pos_bounds mx) as [Hx _].
  pose proof (digits2_pos_bounds my) as [Hy _].
  pose proof (digits2_pos_bounds (mx * my)) as [_ Hxy].
  assert (H : 2 ^ ((Zpos (digits2_pos mx) - 1) + (Zpos (digits2_pos my) - 1))
              < 2 ^ Zpos (digits2_pos (mx * my))).
  { rewrite pow2_split by lia. rewrite Pos2Z.inj_mul in Hxy.
    eapply Z.le_lt_trans; [| exact Hxy].
    apply Z.mul_le_mono_nonneg; try assumption; apply Z.pow_nonneg; lia. }
  apply Z.pow_lt_mono_r_iff in H; lia.
Qed.

Lemma SFmul_rounded (x y : spec_float) :
  valid_binary x = true -> valid_binary y = true -> fnn x -> fnn y ->
  rounded (uval x * uval y) (SF64mul x y).
Proof.
  intros Hx Hy Nx Ny.
  destruct x as [sx | [] | | [] mx ex]; cbn in Nx; try contradiction;
    destruct y as [sy | [] | | [] my ey]; cbn in Ny; try contradiction;
    try (split; [exact I | left; cbn [uval xval SF64mul SFmul]; split; [lia | reflexivity]]).
  destruct (@valid_finite false mx ex Hx) as (Hex & Hdx & Hnx).
  destruct (@valid_finite false my ey Hy) as (Hey & Hdy & Hny).
  pose proof (digits_mul mx my) as Hd.
  pose proof (digits2_pos_bounds mx) as [_ _].
  assert (Hle : ex + ey <= fexp prec emax (Zpos (digits2_pos (mx * my)) + (ex + ey))).
  { assert (0 < Zpos (digits2_pos mx)) by lia.
    assert (0 < Zpos (digits2_pos my)) by lia. fexp_lia. }
  unfold SF64mul, SFmul. cbn [xorb].
  destruct (@binary_round_aux_spec (mx * my) (ex + ey) Hle) as (_ & _ & _ & _ & Hnn & _).
  split; [exact Hnn |]. right. exists (mx * my)%positive, (ex + ey).
  split; [fexp_lia | split; [exact Hle | split; [| reflexivity]]].
  cbn [uval]. rewrite Pos2Z.inj_mul.
  replace (ex + ey - LOW) with ((ex - emin) + (ey - emin)) by fexp_lia.
  rewrite pow2_split by lia. ring.
Qed.

Lemma digits_iter_xO (m d : positive) :
  Zpos (digits2_pos (Pos.iter xO m d)) = Zpos (digits2_pos m) + Zpos d.
Proof.
  induction d as [| d IH] using Pos.peano_ind.
  - cbn. lia.
  - rewrite Pos.iter_succ. cbn [digits2_pos]. rewrite Pos2Z.inj_succ, IH. lia.
Qed.

(** [shl_align] lowers the exponent to the smaller of the two and keeps the
    value. *)
Lemma shl_align_spec (m : positive) (e e' : Z) :
  snd (shl_align m e e') = Z.min e e'
  /\ Zpos (fst (shl_align m e e')) = Zpos m * 2 ^ (e - Z.min e e')
  /\ Zpos (digits2_pos (fst (shl_align m e e'))) + Z.min e e'
     = Zpos (digits2_pos m) + e.
Proof.
  unfold shl_align. destruct (e' - e) as [| d | d] eqn:Hd; cbn [fst snd].
  - replace (Z.min e e') with e by lia. rewrite Z.sub_diag. change (2 ^ 0) with 1. lia.
  - replace (Z.min e e') with e by lia. rewrite Z.sub_diag. change (2 ^ 0) with 1. lia.
  - replace (Z.min e e') with e' by lia.
    rewrite iter_xO, digits_iter_xO. replace (e - e') with (Zpos d) by lia. lia.
Qed.

Lemma SFadd_rounded (x y : spec_float) :
  valid_binary x = true -> valid_binary y = true -> fnn x -> fnn y ->
  rounded (xval x + xval y) (SF64add x y).
Proof.
  intros Hx Hy Nx Ny.
  destruct x as [sx | [] | | [] mx ex]; cbn in Nx; try contradiction;
    destruct y as [sy | [] | | [] my ey]; cbn in Ny; try contradiction.
  - split; [destruct sx, sy; exact I |].
    left. split; [reflexivity | destruct sx, sy; reflexivity].
  - apply (@rounded_id (S754_finite false my ey) Hy I).
  - cbn [xval SF64add SFadd]. rewrite Z.add_0_r.
    apply (@rounded_id (S754_finite false mx ex) Hx I).
  - destruct (@valid_finite false mx ex Hx) as (Hex & _).
    destruct (@valid_finite false my ey Hy) as (Hey & _).
    unfold SF64add, SFadd. cbn [cond_Zopp].
    set (ez := Z.min ex ey).
    pose proof (@shl_align_value mx ex ez ltac:(lia)) as Ex.
    pose proof (@shl_align_value my ey ez ltac:(lia)) as Ey.
    set (ax := fst (shl_align mx ex ez)) in *.
    set (ay := fst (shl_align my ey ez)) in *.
    change (Zpos ax + Zpos ay) with (Zpos (ax + ay)).
    cbn [binary_normalize]. unfold binary_round.
    destruct (shl_align_spec (ax + ay) ez (fexp prec emax (Zpos (digits2_pos (ax + ay)) + ez)))
      as (Hs & Hv & Hd).
    destruct (shl_align (ax + ay) ez (fexp prec emax (Zpos (digits2_pos (ax + ay)) + ez)))
      as [mz ez'].
    cbn [fst snd] in *.
    assert (Hle : ez' <= fexp prec emax (Zpos (digits2_pos mz) + ez')).
    { rewrite Hs at 2. rewrite Hd. lia. }
    destruct (@binary_round_aux_spec mz ez' Hle) as (_ & _ & _ & _ & Hnn & _).
    split; [exact Hnn |]. right. exists mz, ez'.
    split; [fexp_lia | split; [exact Hle | split; [| reflexivity]]].
    rewrite Hv, <- Hs. cbn [xval].
    rewrite <- Z.mul_assoc, <- pow2_split by fexp_lia.
    replace (ez - ez' + (ez' - LOW)) with (ez - LOW) by lia.
    rewrite Pos2Z.inj_add, Ex, Ey, Z.mul_add_distr_r.
    rewrite <- !Z.mul_assoc, <- !pow2_split by fexp_lia.
    f_equal; do 2 f_equal; lia.
Qed.

(** ** Bounds on primitive products and sums *)

Local Open Scope float_scope.

Lemma leb_zero_nonneg (a : float) : (0 <=? a) = true -> nonneg (Prim2SF a).
Proof.
  rewrite leb_spec. change (Prim2SF 0) with (S754_zero false).
  destruct (Prim2SF a) as [| [] | | [] m e]; cbn; auto; discriminate.
Qed.

Lemma nonneg_leb_zero (a : float) : nonneg (Prim2SF a) -> (0 <=? a) = true.
Proof.
  rewrite leb_spec. change (Prim2SF 0) with (S754_zero false).
  destruct (Prim2SF a) as [| [] | | [] m e]; cbn; auto; contradiction.
Qed.

Lemma fnn_below_top (x : spec_float) :
  valid_binary x = true -> fnn x -> (xval x < top)%Z.
Proof.
  intros Hv Hx. pose proof top_pos.
  destruct x as [| [] | | [] m e]; cbn in Hx; try contradiction; cbn [xval]; try lia.
  apply (@xval_finite_pos m e Hv).
Qed.

(** A number between [0] and a finite number is finite. *)
Lemma fnn_between (a b : float) :
  (0 <=? a) = true -> (a <=? b) = true -> fnn (Prim2SF b) -> fnn (Prim2SF a).
Proof.
  intros H0 Hab Hb.
  pose proof (@leb_zero_nonneg a H0) as Na.
  rewrite leb_spec in Hab.
  apply (@SFleb_xval (Prim2SF a) (Prim2SF b) (Prim2SF_valid a) (Prim2SF_valid b) Na
           (@fnn_nonneg _ Hb)) in Hab.
  pose proof (@fnn_below_top (Prim2SF b) (Prim2SF_valid b) Hb).
  destruct (Prim2SF a) as [| [] | | [] m e]; cbn in Na; try contradiction;
    cbn [fnn xval] in *; try exact I; lia.
Qed.

Lemma fnn_of_float (c : float) :
  (0 <=? c) = true -> (c <? infinity) = true -> fnn (Prim2SF c).
Proof.
  intros H0 Hc. pose proof (@leb_zero_nonneg c H0) as Nc.
  rewrite ltb_spec in Hc. change (Prim2SF infinity) with (S754_infinity false) in Hc.
  destruct (Prim2SF c) as [| [] | | [] m e]; cbn in Nc; try contradiction;
    cbn [fnn]; try exact I; discriminate.
Qed.

Lemma mul_bounds (a b c : float) :
  (0 <=? a) = true -> (a <=? b) = true ->
  fnn (Prim2SF b) -> fnn (Prim2SF c) ->
  (0 <=? a * c) = true /\ (a * c <=? b * c) = true.
Proof.
  intros H0 Hab Hb Hc.
  pose proof (@fnn_between a b H0 Hab Hb) as Ha.
  pose proof (@SFmul_rounded (Prim2SF a) (Prim2SF c)
                (Prim2SF_valid a) (Prim2SF_valid c) Ha Hc) as Ra.
  pose proof (@SFmul_rounded (Prim2SF b) (Prim2SF c)
                (Prim2SF_valid b) (Prim2SF_valid c) Hb Hc) as Rb.
  rewrite <- !mul_spec in Ra, Rb.
  split.
  - apply nonneg_leb_zero. exact (proj1 Ra).
  - rewrite leb_spec.
    apply (@SFleb_xval _ _ (Prim2SF_valid (a * c)) (Prim2SF_valid (b * c))
             (proj1 Ra) (proj1 Rb)).
    apply (@rounded_mono _ _ _ _ Ra Rb).
    apply Z.mul_le_mono_nonneg_r; [apply uval_nonneg |].
    rewrite leb_spec in Hab.
    apply (@SFleb_xval _ _ (Prim2SF_valid a) (Prim2SF_valid b)
             (@fnn_nonneg _ Ha) (@fnn_nonneg _ Hb)) in Hab.
    rewrite !xval_uval in Hab by auto using Prim2SF_valid.
    apply Z.mul_le_mono_pos_r in Hab; [exact Hab |].
    apply Z.pow_pos_nonneg; fexp_lia.
Qed.

Lemma add_bounds (a a' b b' : float) :
  (0 <=? a) = true -> (a <=? a') = true -> fnn (Prim2SF a') ->
  (0 <=? b) = true -> (b <=? b') = true -> fnn (Prim2SF b') ->
  (0 <=? a + b) = true /\ (a + b <=? a' + b') = true.
Proof.
  intros Ha0 Haa Ha' Hb0 Hbb Hb'.
  pose proof (@fnn_between a a' Ha0 Haa Ha') as Ha.
  pose proof (@fnn_between b b' Hb0 Hbb Hb') as Hb.
  pose proof (@SFadd_rounded (Prim2SF a) (Prim2SF b)
                (Prim2SF_valid a) (Prim2SF_valid b) Ha Hb) as R.
  pose proof (@SFadd_rounded (Prim2SF a') (Prim2SF b')
                (Prim2SF_valid a') (Prim2SF_valid b') Ha' Hb') as R'.
  rewrite <- !add_spec in R, R'.
  split.
  - apply nonneg_leb_zero. exact (proj1 R).
  - rewrite leb_spec.
    apply (@SFleb_xval _ _ (Prim2SF_valid (a + b)) (Prim2SF_valid (a' + b'))
             (proj1 R) (proj1 R')).
    apply (@rounded_mono _ _ _ _ R R').
    rewrite leb_spec in Haa, Hbb.
    apply (@SFleb_xval _ _ (Prim2SF_valid a) (Prim2SF_valid a')
             (@fnn_nonneg _ Ha) (@fnn_nonneg _ Ha')) in Haa.
    apply (@SFleb_xval _ _ (Prim2SF_valid b) (Prim2SF_valid b')
             (@fnn_nonneg _ Hb) (@fnn_nonneg _ Hb')) in Hbb.
    lia.
Qed.


Local Open Scope Z_scope.

(** ** The order of all numbers *)

Lemma sval_finite_bounds (s : bool) (m : positive) (e : Z) :
  valid_binary (S754_finite s m e) = true ->
  0 < Zpos m * 2 ^ (e - emin) < 2 ^ (emax - emin).
Proof.
  intros Hv. destruct (@valid_finite s m e Hv) as (He & Hd & _).
  pose proof (@valid_exponent s m e Hv) as Hmax.
  pose proof (digits2_pos_bounds m) as [_ Hhi].
  assert (HT : 0 < 2 ^ (e - emin)) by (apply Z.pow_pos_nonneg; lia).
  split; [apply Z.mul_pos_pos; lia |].
  assert (Hm : Zpos m < 2 ^ prec).
  { eapply Z.lt_le_trans; [exact Hhi | apply Z.pow_le_mono_r; lia]. }
  apply Z.lt_le_trans with (2 ^ prec * 2 ^ (e - emin)).
  - apply Z.mul_lt_mono_pos_r; assumption.
  - rewrite <- pow2_split by fexp_lia. apply Z.pow_le_mono_r; fexp_lia.
Qed.

(** On valid numbers the order is the order of values. *)
Lemma SFleb_sval (x y : spec_float) :
  valid_binary x = true -> valid_binary y = true ->
  x <> S754_nan -> y <> S754_nan ->
  (SFleb x y = true <-> sval x <= sval y).
Proof.
  intros Hx Hy Nx Ny.
  assert (Htop : 0 < 2 ^ (emax - emin)) by (apply Z.pow_pos_nonneg; fexp_lia).
  destruct x as [sx | sx | | sx mx ex]; try congruence;
    destruct y as [sy | sy | | sy my ey]; try congruence;
    try (pose proof (@sval_finite_bounds sx mx ex Hx));
    try (pose proof (@sval_finite_bounds sy my ey Hy));
    unfold SFleb; cbn [sval].
  1-8: cbn [SFcompare];
       repeat match goal with s : bool |- _ => destruct s end; cbn [cond_Zopp];
       split; intros; try reflexivity; try discriminate; lia.
  rewrite (@SFcompare_finite sy sx my mx ey ex Hy Hx).
  rewrite !shl_align_value by lia.
  destruct (@valid_finite sx mx ex Hx) as (Hex & _).
  destruct (@valid_finite sy my ey Hy) as (Hey & _).
  set (ez := Z.min ey ex).
  assert (Ex : 2 ^ (ex - emin) = 2 ^ (ex - ez) * 2 ^ (ez - emin)).
  { rewrite <- pow2_split by lia. f_equal. lia. }
  assert (Ey : 2 ^ (ey - emin) = 2 ^ (ey - ez) * 2 ^ (ez - emin)).
  { rewrite <- pow2_split by lia. f_equal. lia. }
  assert (HT : 0 < 2 ^ (ez - emin)) by (apply Z.pow_pos_nonneg; lia).
  rewrite Ex, Ey, !Z.mul_assoc. clear Ex Ey H H0.
  generalize (Zpos mx * 2 ^ (ex - ez)). intros A.
  generalize (Zpos my * 2 ^ (ey - ez)). intros B.
  generalize dependent (2 ^ (ez - emin)). intros T HT.
  destruct sx, sy; cbn [cond_Zopp];
    match goal with |- context [0 ?= ?d] => destruct (Z.compare_spec 0 d) end;
    split; intros; try discriminate; try reflexivity; nia.
Qed.

Local Open Scope float_scope.

Lemma leb_not_nan (a b : float) :
  (a <=? b) = true -> Prim2SF a <> S754_nan /\ Prim2SF b <> S754_nan.
Proof.
  rewrite leb_spec. unfold SFleb.
  destruct (Prim2SF a), (Prim2SF b); cbn [SFcompare]; split; congruence.
Qed.

(** The order of numbers is transitive. *)
Lemma leb_trans (a b c : float) :
  (a <=? b) = true -> (b <=? c) = true -> (a <=? c) = true.
Proof.
  intros Hab Hbc.
  destruct (@leb_not_nan _ _ Hab) as [Na Nb].
  destruct (@leb_not_nan _ _ Hbc) as [_ Nc].
  rewrite leb_spec in *.
  apply (@SFleb_sval _ _ (Prim2SF_valid a) (Prim2SF_valid b) Na Nb) in Hab.
  apply (@SFleb_sval _ _ (Prim2SF_valid b) (Prim2SF_valid c) Nb Nc) in Hbc.
  apply (@SFleb_sval _ _ (Prim2SF_valid a) (Prim2SF_valid c) Na Nc). lia.
Qed.

End Order.

(* ================================================================== *)
(** * Facts about the analyzer *)
(* ================================================================== *)

Section AnalyzerFacts.

Import Analyzer.
Local Open Scope float_scope.

Variable this : Collaborators.

(** Comparisons of the decision table on a numeric property. *)
Lemma lt_numbers (a b : float) : Js.lt (VNumber a) (VNumber b) = (a <? b).
Proof. reflexivity. Qed.

Lemma gt_numbers (a b : float) : Js.gt (VNumber a) (VNumber b) = (b <? a).
Proof. reflexivity. Qed.

(** Nothing is below [NaN]. *)
Lemma ltb_nan_r (c : float) : (c <? nan) = false.
Proof.
  rewrite ltb_spec. change (Prim2SF nan) with S754_nan.
  unfold SFltb. destruct (Prim2SF c); reflexivity.
Qed.

(** An object is never greater than a number: it converts to [NaN]. *)
Lemma gt_object_number (o : object) (c : float) :
  Js.gt (VObject o) (VNumber c) = false.
Proof.
  unfold Js.gt, Js.lt. cbn [ToPrimitive].
  change (ToNumber (VString "[object Object]")) with nan.
  apply ltb_nan_r.
Qed.

(** A missing property is never greater than a number. *)
Lemma gt_undefined_number (c : float) : Js.gt VUndefined (VNumber c) = false.
Proof. unfold Js.gt, Js.lt. cbn. apply ltb_nan_r. Qed.

(** C1.  Whatever the other scores (and whatever else the object holds, an
    [overallScore] included), a numeric [riskScore] below [0.7] makes
    [determineAction] answer [AVOID]; the recommendation built from the same
    scores carries that action. *)
Theorem risk_rule_comes_first (scores : object) (riskScore : float) :
  get scores "riskScore" = VNumber riskScore ->
  (riskScore <? 0.7) = true ->
  determineAction scores = AVOID
  /\ action (generateTradeRecommendation this scores) = AVOID.
Proof.
  intros Hget Hlt.
  assert (H : determineAction scores = AVOID).
  { unfold determineAction. rewrite Hget, lt_numbers, Hlt. reflexivity. }
  split; [exact H | exact H].
Qed.

Lemma determineAction_without_overallScore (w h s r : value) :
  In (determineAction (scores_of w h s r)) [AVOID; STRONG_BUY; WAIT; MONITOR].
Proof.
  unfold determineAction, scores_of. cbn [get String.eqb Ascii.eqb Bool.eqb].
  rewrite gt_undefined_number.
  repeat match goal with
         | |- context [if ?b then _ else _] => destruct b
         end; cbn; auto.
Qed.

(** The fourth rule of the table, for an object that does carry an
    [overallScore]. *)
Lemma determineAction_fourth_rule (scores : object) (w h s r o : float) :
  get scores "whaleScore" = VNumber w ->
  get scores "healthScore" = VNumber h ->
  get scores "smartMoneyScore" = VNumber s ->
  get scores "riskScore" = VNumber r ->
  get scores "overallScore" = VNumber o ->
  (r <? 0.7) = false ->
  ((0.8 <? w) && (0.7 <? s))%bool = false ->
  (h <? 0.5) = false ->
  determineAction scores = if 0.75 <? o then BUY else MONITOR.
Proof.
  intros Hw Hh Hs Hr Ho H1 H2 H3. unfold determineAction.
  rewrite Hw, Hh, Hs, Hr, Ho, !lt_numbers, !gt_numbers, H1, H2, H3.
  reflexivity.
Qed.

(** C2 (the code departs from the claim).  The scores object built by
    [analyzeTradeOpportunity] has no [overallScore] property, so the last rule
    of the table compares [undefined] with [0.75]: the recommendation is never
    [BUY].  At whaleScore 0.8, healthScore 1, smartMoneyScore 1, riskScore 1
    the first three rules do not apply and the weighted score exceeds
    [0.75], yet the action is [MONITOR].  The table itself is as the claim
    says: on an object that carries the overall score, the fourth rule
    answers [BUY] above [0.75] and [MONITOR] otherwise. *)
Theorem recommendation_is_never_BUY :
  (forall w h s r : value,
      In (action (generateTradeRecommendation this (scores_of w h s r)))
         [AVOID; STRONG_BUY; WAIT; MONITOR])
  /\ (let w := 0.8 in let h := 1 in let s := 1 in let r := 1 in
      (r <? 0.7) = false
      /\ ((0.8 <? w) && (0.7 <? s))%bool = false
      /\ (h <? 0.5) = false
      /\ (0.75 <? 0.3 * w + 0.25 * h + 0.25 * s + 0.2 * r) = true
      /\ action (generateTradeRecommendation this
                   (scores_of (VNumber w) (VNumber h) (VNumber s) (VNumber r)))
         = MONITOR)
  /\ (forall (w h s r o : float),
         (r <? 0.7) = false ->
         ((0.8 <? w) && (0.7 <? s))%bool = false ->
         (h <? 0.5) = false ->
         determineAction
           (scores_of (VNumber w) (VNumber h) (VNumber s) (VNumber r)
              ++ [("overallScore", VNumber o)])%list
         = if 0.75 <? o then BUY else MONITOR)
  /\ determineAction
       (scores_of (VNumber 0.5) (VNumber 0.6) (VNumber 0.5) (VNumber 0.8)
          ++ [("overallScore", VNumber 0.8)])%list
     = BUY.
Proof.
  split; [| split; [| split]].
  - intros w h s r. apply determineAction_without_overallScore.
  - cbv zeta. repeat split; vm_compute; reflexivity.
  - intros w h s r o H1 H2 H3.
    apply (@determineAction_fourth_rule _ w h s r o); auto.
  - reflexivity.
Qed.

Lemma determineAction_object_smartMoney (w h r : value) (o : object) :
  In (determineAction (scores_of w h (VObject o) r)) [AVOID; WAIT; MONITOR].
Proof.
  unfold determineAction, scores_of. cbn [get String.eqb Ascii.eqb Bool.eqb].
  rewrite gt_undefined_number, gt_object_number, Bool.andb_false_r.
  repeat match goal with
         | |- context [if ?b then _ else _] => destruct b
         end; cbn; auto.
Qed.

(** C8 (the code departs from the claim).  [analyzeSmartMoney] returns the
    object [{score, confidence}] and that object, not its [score], is stored
    as [smartMoneyScore]: the second rule compares an object with [0.7], which
    is false, so no analysis ever recommends [STRONG_BUY].  The score inside
    the object is [0.4 * (inflowRate - outflowRate) + 0.3 * accumulation +
    0.3 * walletQuality], where the accumulation is computed from
    [flow.pattern]; the object that [analyzeTradeOpportunity] passes has its
    pattern under [accumulationPattern] and no [pattern] property, so there
    the accumulation is that of [undefined].  With riskScore 0.8,
    whaleScore 0.85, healthScore 0.9 and a smart-money score of 0.75 the
    action is [MONITOR]; the table answers [STRONG_BUY] when the property is
    the number itself. *)
Theorem smartMoneyScore_is_an_object :
  (forall r, In (action (recommendation (analyze this r))) [AVOID; WAIT; MONITOR])
  /\ (forall flow,
         exists score,
           analyzeSmartMoney this flow
           = [("score", VNumber score); ("confidence", calculateConfidence this flow)]
           /\ score = (inflowRate flow - outflowRate flow) * 0.4
                      + analyzeAccumulationPattern this (fl_pattern flow) * 0.3
                      + assessWalletQuality this (fl_walletQuality flow) * 0.3)
  /\ (forall whaleActivity tokenMetrics smartMoneyFlow manipulationScore,
         exists whaleScore healthScore riskScore confidence,
           recommendation
             (analyze this (whaleActivity, tokenMetrics, smartMoneyFlow,
                            manipulationScore))
           = generateTradeRecommendation this
               (scores_of (VNumber whaleScore) (VNumber healthScore)
                  (VObject
                     [ ("score",
                        VNumber ((inflow smartMoneyFlow - outflow smartMoneyFlow) * 0.4
                                 + analyzeAccumulationPattern this VUndefined * 0.3
                                 + assessWalletQuality this
                                     (walletQuality smartMoneyFlow) * 0.3));
                       ("confidence", confidence) ])
                  (VNumber riskScore)))
  /\ (forall confidence,
         action (generateTradeRecommendation this
                   (scores_of (VNumber 0.85) (VNumber 0.9)
                      (VObject [("score", VNumber 0.75); ("confidence", confidence)])
                      (VNumber 0.8)))
         = MONITOR)
  /\ determineAction
       (scores_of (VNumber 0.85) (VNumber 0.9) (VNumber 0.75) (VNumber 0.8))
     = STRONG_BUY.
Proof.
  split; [| split; [| split; [| split]]].
  - intros [[[wa tm] smf] ms]. unfold analyze. cbn [recommendation action].
    unfold generateTradeRecommendation. cbn [action].
    apply determineAction_object_smartMoney.
  - intros flow. eexists. split; reflexivity.
  - intros wa tm smf ms. do 4 eexists. unfold analyze.
    cbn [recommendation]. unfold analyzeSmartMoney.
    cbn [inflowRate outflowRate fl_pattern fl_walletQuality]. reflexivity.
  - intros confidence. reflexivity.
  - reflexivity.
Qed.

(** C4.  The four provider promises are created before the join is awaited.
    If at least one of them is rejected, the analysis is rejected, at the
    instant of the earliest rejection and with its reason, and the caller
    obtains no analysis (no snapshot, no score); if none is, the analysis is
    fulfilled and its [details] hold the four results. *)
Theorem aggregation_is_fail_fast (tokenAddress chain : string) :
  let pw := getWhaleActivity this tokenAddress chain in
  let pt := getTokenMetrics this tokenAddress in
  let ps := getSmartMoneyFlow this tokenAddress in
  let pm := assessManipulation this tokenAddress in
  let result := analyzeTradeOpportunity this tokenAddress chain in
  match (rejection pw ++ rejection pt ++ rejection ps ++ rejection pm)%list with
  | [] => exists w t s m a,
      outcome pw = Fulfilled w /\ outcome pt = Fulfilled t
      /\ outcome ps = Fulfilled s /\ outcome pm = Fulfilled m
      /\ outcome result = Fulfilled a
      /\ details a = {| d_whaleActivity := w; d_tokenMetrics := t;
                        d_smartMoneyFlow := s; d_manipulationScore := m |}
  | first :: others => exists e,
      outcome result = Rejected e
      /\ In (settles_at result, e) (first :: others)
      /\ Forall (fun r => settles_at result <= fst r)%nat (first :: others)
  end.
Proof.
  cbv zeta. unfold analyzeTradeOpportunity, Promise_all4, await_then.
  destruct (getWhaleActivity this tokenAddress chain) as [tw [w | ew]],
           (getTokenMetrics this tokenAddress) as [tt [t | et]],
           (getSmartMoneyFlow this tokenAddress) as [ts [s | es]],
           (assessManipulation this tokenAddress) as [tm [m | em]];
    unfold rejection, join; cbn -[Nat.ltb Nat.max];
    repeat match goal with
           | |- context [(?x <? ?y)%nat] =>
               destruct (Nat.ltb_spec x y); cbn -[Nat.ltb Nat.max]
           end;
    try (eexists; split;
         [reflexivity | split; [cbn; tauto | repeat constructor; cbn; lia]]).
  exists w, t, s, m. eexists. repeat split.
Qed.

End AnalyzerFacts.

(** C1 at the scores of the specification: riskScore 0.5, every other score
    0.95, an [overallScore] of 0.95 included. *)
Lemma risk_rule_comes_first_witness :
  Analyzer.determineAction Samples.risky_scores = Analyzer.AVOID
  /\ Analyzer.action
       (Analyzer.generateTradeRecommendation Samples.collaborators
          Samples.risky_scores)
     = Analyzer.AVOID.
Proof.
  exact (risk_rule_comes_first Samples.collaborators Samples.risky_scores
           (riskScore := 0.5%float) eq_refl eq_refl).
Defined.

(* ================================================================== *)
(** * Facts about the risk manager *)
(* ================================================================== *)

Section RiskFacts.

Import Risk.
Local Open Scope float_scope.

(** C3.  [validateTrade] looks at the daily limit first: when [dailyLoss]
    has reached [maxDailyLoss] the trade is refused with the daily-limit
    reason, whatever the trade; otherwise it is refused with the per-trade
    reason exactly when [size * (stopLoss / 100)] exceeds [maxLossPerTrade],
    and accepted (no reason) when it does not. *)
Theorem validateTrade_rules (rm : RiskManager) (trade : Trade) :
  (geb (dailyLoss rm) (maxDailyLoss rm) = true ->
     validateTrade rm trade
     = {| valid := false;
          reason := Some (DailyLossLimitReached (maxDailyLoss rm)) |})
  /\ (geb (dailyLoss rm) (maxDailyLoss rm) = false ->
        (gtb (size trade * (stopLoss trade / 100)) (maxLossPerTrade rm) = true <->
           validateTrade rm trade
           = {| valid := false;
                reason := Some (TradeRiskExceedsMaximum (maxLossPerTrade rm)) |})
        /\ (gtb (size trade * (stopLoss trade / 100)) (maxLossPerTrade rm) = false <->
              validateTrade rm trade = {| valid := true; reason := None |})).
Proof.
  unfold validateTrade, potentialLoss. split.
  - intros ->. reflexivity.
  - intros ->.
    destruct (gtb (size trade * (stopLoss trade / 100)) (maxLossPerTrade rm));
      repeat split; intros; try reflexivity; discriminate.
Qed.

(** The rule of the reset is due at the day boundaries and at no other
    reading of the clock. *)
Lemma reset_rule_is_due (t : Time) : is_due "0 0 * * *" t = is_day_boundary t.
Proof.
  unfold is_due, is_day_boundary, field_accepts. cbn.
  destruct (minute t) as [| n], (hour t) as [| k]; reflexivity.
Qed.

Lemma due_reset (t : Time) :
  due t (resetDailyLoss []) = if is_day_boundary t then resetDailyLoss [] else [].
Proof.
  unfold due, resetDailyLoss. cbn [app filter rule].
  rewrite reset_rule_is_due. destruct (is_day_boundary t); reflexivity.
Qed.

(** Two managers that agree on everything but [maxPositionSize]. *)
Lemma run_ignores_maxPositionSize (w1 w2 : World) (es : list event) :
  maxLossPerTrade (manager w1) = maxLossPerTrade (manager w2) ->
  maxDailyLoss (manager w1) = maxDailyLoss (manager w2) ->
  dailyLoss (manager w1) = dailyLoss (manager w2) ->
  jobs w1 = resetDailyLoss [] -> jobs w2 = resetDailyLoss [] ->
  snd (run w1 es) = snd (run w2 es).
Proof.
  revert w1 w2. induction es as [| e es IH]; intros w1 w2 H1 H2 H3 J1 J2;
    cbn [run]; [reflexivity |].
  destruct (step w1 e) as [w1' o1] eqn:E1, (step w2 e) as [w2' o2] eqn:E2.
  specialize (IH w1' w2').
  destruct (run w1' es) as [w1'' os1], (run w2' es) as [w2'' os2].
  cbn [snd] in *.
  destruct e as [t | trade]; cbn [step] in E1, E2;
    injection E1 as <- <-; injection E2 as <- <-; cbn [manager jobs] in IH.
  - rewrite J1, J2 in *. f_equal.
    rewrite due_reset in IH.
    apply IH; try reflexivity;
      destruct (is_day_boundary t); cbn; first [assumption | reflexivity].
  - f_equal; [| apply IH; assumption].
    unfold validateTrade. rewrite H1, H2, H3. reflexivity.
Qed.

(** C10.  Two managers that differ in [maxPositionSize] only give the same
    verdict on every trade; and two configurations that differ in
    [maxPositionSize] only cannot be told apart by any sequence of
    validations and clock ticks. *)
Theorem validateTrade_ignores_maxPositionSize :
  (forall (perTrade daily accumulated cap1 cap2 : float) (trade : Trade),
      validateTrade {| maxLossPerTrade := perTrade; maxDailyLoss := daily;
                       maxPositionSize := cap1; dailyLoss := accumulated |} trade
      = validateTrade {| maxLossPerTrade := perTrade; maxDailyLoss := daily;
                         maxPositionSize := cap2; dailyLoss := accumulated |} trade)
  /\ (forall (perTrade daily cap1 cap2 : option float) (es : list event),
         snd (run (boot {| cfg_maxLossPerTrade := perTrade;
                           cfg_maxDailyLoss := daily;
                           cfg_maxPositionSize := cap1 |}) es)
         = snd (run (boot {| cfg_maxLossPerTrade := perTrade;
                             cfg_maxDailyLoss := daily;
                             cfg_maxPositionSize := cap2 |}) es)).
Proof.
  split.
  - intros. reflexivity.
  - intros perTrade daily cap1 cap2 es.
    apply run_ignores_maxPositionSize; reflexivity.
Qed.

(** Once reset, the world is a fixed point of every event. *)
Lemma step_after_reset (config : Config) (e : event) :
  let w1 := {| manager := set_dailyLoss (manager (boot config)) 0;
               jobs := jobs (boot config) |} in
  step w1 e
  = (w1, match e with
         | Tick t => Ran (if is_day_boundary t then 1 else 0)
         | Validate trade => Validated 0 (validateTrade (manager w1) trade)
         end).
Proof.
  cbv zeta. destruct e as [t | trade]; [| reflexivity].
  unfold step. cbn [jobs manager].
  change (jobs (boot config)) with (resetDailyLoss []).
  rewrite due_reset. destruct (is_day_boundary t); reflexivity.
Qed.

(** What a reading of the scheduler's clock does to a manager whose
    accumulator holds any value. *)
Lemma reset_at_clock_reading (config : Config) (accumulated : float) (t0 : Time)
    (es : list event) :
  let w := {| manager := set_dailyLoss (manager (boot config)) accumulated;
              jobs := jobs (boot config) |} in
  let w1 := fst (step w (Tick t0)) in
  if is_day_boundary t0 then
    snd (step w (Tick t0)) = Ran 1
    /\ dailyLoss (manager w1) = 0
    /\ Forall2 (fun e o =>
                  match e with
                  | Validate trade =>
                      o = Validated 0 (validateTrade (manager w1) trade)
                  | Tick t => o = Ran (if is_day_boundary t then 1 else 0)
                  end)
               es (snd (run w1 es))
  else
    snd (step w (Tick t0)) = Ran 0
    /\ dailyLoss (manager w1) = accumulated.
Proof.
  cbv zeta. unfold step. cbn [fst snd manager jobs].
  change (jobs (boot config)) with (resetDailyLoss []).
  rewrite due_reset.
  destruct (is_day_boundary t0); [| split; reflexivity].
  split; [reflexivity | split; [reflexivity |]].
  change (run_jobs (resetDailyLoss []) (set_dailyLoss (manager (boot config)) accumulated))
    with (set_dailyLoss (manager (boot config)) 0).
  change (resetDailyLoss []) with (jobs (boot config)).
  induction es as [| e es IH]; cbn [run]; [constructor |].
  rewrite step_after_reset.
  destruct (run _ es) as [w2 os] eqn:Hrun. cbn [snd] in *.
  constructor; [| exact IH].
  destruct e; reflexivity.
Qed.

(** The clock of a zone reads 00:00 exactly when the instant, shifted by
    the offset of the zone, is a multiple of a day. *)
Lemma reading_day_boundary (zone instant : Z) :
  is_day_boundary (reading zone instant) = ((instant + zone) mod 1440 =? 0)%Z.
Proof.
  unfold reading. cbv zeta. destruct (civil _) as [[y mo] d].
  unfold is_day_boundary. cbn [hour minute].
  pose proof (Z.mod_pos_bound (instant + zone) 1440 ltac:(lia)) as Hm.
  set (m := ((instant + zone) mod 1440)%Z) in *.
  pose proof (Z.div_mod m 60 ltac:(lia)) as Hdm.
  pose proof (Z.mod_pos_bound m 60 ltac:(lia)) as Hr.
  assert (Hq : (0 <= m / 60)%Z) by (apply Z.div_pos; lia).
  destruct (Z.eqb_spec m 0) as [-> | Hne]; [reflexivity |].
  destruct (Nat.eqb_spec (Z.to_nat (m / 60)) 0) as [Eh |]; [| reflexivity].
  destruct (Nat.eqb_spec (Z.to_nat (m mod 60)) 0) as [Em |]; [| reflexivity].
  exfalso. apply Hne. lia.
Qed.

(** C9, amended.  The constructor registers one job, under the rule
    ["0 0 * * *"] and without a time zone: the rule is matched against the
    clock of the zone the process runs in, so the reset is due exactly at
    the midnights of that zone, which are the UTC day boundaries only for a
    process that runs in UTC.  Let the accumulator hold any value (a
    positive one, say) at some instant.  If the local clock then reads
    00:00 the reset runs once and leaves [dailyLoss = 0]; from then on
    every [validateTrade] reads [0], and the reset runs once more at each
    later reading of 00:00 and at no other minute.  If the local clock
    reads anything else the reset does not run and the accumulator is as
    it was. *)
Theorem daily_reset (config : Config) (accumulated : float) (zone instant : Z)
    (es : list event) :
  let t0 := reading zone instant in
  let w := {| manager := set_dailyLoss (manager (boot config)) accumulated;
              jobs := jobs (boot config) |} in
  let w1 := fst (step w (Tick t0)) in
  if ((instant + zone) mod 1440 =? 0)%Z then
    is_day_boundary t0 = true
    /\ snd (step w (Tick t0)) = Ran 1
    /\ dailyLoss (manager w1) = 0
    /\ Forall2 (fun e o =>
                  match e with
                  | Validate trade =>
                      o = Validated 0 (validateTrade (manager w1) trade)
                  | Tick t => o = Ran (if is_day_boundary t then 1 else 0)
                  end)
               es (snd (run w1 es))
  else
    is_day_boundary t0 = false
    /\ snd (step w (Tick t0)) = Ran 0
    /\ dailyLoss (manager w1) = accumulated.
Proof.
  cbv zeta.
  pose proof (reset_at_clock_reading config accumulated (reading zone instant) es)
    as H. cbv zeta in H.
  rewrite <- reading_day_boundary.
  destruct (is_day_boundary (reading zone instant)); split; try reflexivity;
    exact H.
Qed.

End RiskFacts.

(** C3 at the examples of the specification: with the accumulator at the
    daily limit of 6 the trade is refused for that reason (although its own
    risk is too high as well); with a fresh accumulator, size 100 and stop
    loss 3 against a per-trade maximum of 2 are refused for the per-trade
    reason; the sample trade of size 50 at stop loss 2 is accepted. *)
Lemma validateTrade_rules_witness :
  Risk.validateTrade Samples.exhausted Samples.risky_trade
  = {| Risk.valid := false;
       Risk.reason := Some (Risk.DailyLossLimitReached 6%float) |}
  /\ Risk.validateTrade Samples.fresh Samples.risky_trade
     = {| Risk.valid := false;
          Risk.reason := Some (Risk.TradeRiskExceedsMaximum 2%float) |}.
Proof.
  split.
  - exact (proj1 (validateTrade_rules Samples.exhausted Samples.risky_trade)
             eq_refl).
  - exact (proj1 (proj1 (proj2 (validateTrade_rules Samples.fresh
                                  Samples.risky_trade) eq_refl)) eq_refl).
Defined.

(** C9 fails as stated.  For a process that runs five hours ahead of UTC,
    take the accumulator at the daily limit of 6.  At the UTC day boundary
    1970-01-01T00:00Z the local clock reads 05:00: the reset does not run,
    the accumulator still holds 6 and a trade is still refused for the daily
    limit.  The reset runs at 19:00Z, which is no UTC day boundary. *)
Lemma reset_misses_the_UTC_day_boundary :
  Risk.is_UTC_day_boundary 0 = true
  /\ Risk.hour (Risk.reading MoreSamples.UTC_plus_5 0) = 5%nat
  /\ snd (Risk.step MoreSamples.exhausted_world
            (Risk.Tick (Risk.reading MoreSamples.UTC_plus_5 0)))
     = Risk.Ran 0
  /\ Risk.dailyLoss
       (Risk.manager
          (fst (Risk.step MoreSamples.exhausted_world
                  (Risk.Tick (Risk.reading MoreSamples.UTC_plus_5 0)))))
     = 6%float
  /\ Risk.validateTrade
       (Risk.manager
          (fst (Risk.step MoreSamples.exhausted_world
                  (Risk.Tick (Risk.reading MoreSamples.UTC_plus_5 0)))))
       Samples.trade
     = {| Risk.valid := false;
          Risk.reason := Some (Risk.DailyLossLimitReached 6) |}
  /\ Risk.is_UTC_day_boundary 1140 = false
  /\ snd (Risk.step MoreSamples.exhausted_world
            (Risk.Tick (Risk.reading MoreSamples.UTC_plus_5 1140)))
     = Risk.Ran 1.
Proof. repeat split. Qed.

(* ================================================================== *)
(** * Facts about [executeTrade] *)
(* ================================================================== *)

Section BotFacts.

Import Risk Registry Bot.
Local Open Scope float_scope.

(** The verdict on a trade depends on its size only: the stop loss is the
    strategy's. *)
Lemma validateStrategy_size (mgr : TechnicalStrategyManager) (s : Strategy)
    (t1 t2 : Trade) :
  size t1 = size t2 -> validateStrategy mgr s t1 = validateStrategy mgr s t2.
Proof.
  intros H. unfold validateStrategy, validateTrade, potentialLoss. cbn.
  rewrite H. reflexivity.
Qed.

(** With a sizing entry for every target the preparation succeeds. *)
Lemma prepareTargets_succeeds (trade : Trade) (sizing : list PositionSize)
    (targets : list float) (index : nat) :
  (index + List.length targets <= List.length sizing)%nat ->
  exists tps, prepareTargets trade sizing index targets = inr tps.
Proof.
  revert index. induction targets as [| target targets IH]; intros index H.
  - exists []. reflexivity.
  - cbn [prepareTargets]. cbn [List.length] in H.
    destruct (nth_error sizing index) as [ps |] eqn:Hnth.
    + destruct (IH (S index)) as [tps ->]; [lia |]. eexists. reflexivity.
    + apply nth_error_None in Hnth. lia.
Qed.

(** A call of [executeTrade] never returns a value. *)
Lemma executeTrade_no_value (fuel : nat) (mgr : TechnicalStrategyManager)
    (trade : Trade) (v : value) :
  executeTrade fuel mgr trade <> Some (Returned v).
Proof.
  revert trade. induction fuel as [| fuel IH]; intros trade; cbn [executeTrade].
  - discriminate.
  - destruct (activeStrategy mgr) as [strategy |]; [| discriminate].
    destruct (valid (validateStrategy mgr strategy trade)); cbn [negb];
      [| discriminate].
    destruct (prepareTargets _ _ _ _); [discriminate | apply IH].
Qed.

(** Once a trade passes validation and can be prepared, no amount of fuel
    completes the call. *)
Lemma executeTrade_loops (mgr : TechnicalStrategyManager) (strategy : Strategy)
    (fuel : nat) (trade : Trade) :
  activeStrategy mgr = Some strategy ->
  valid (validateStrategy mgr strategy trade) = true ->
  (List.length (takeProfitTargets (entryConditions strategy))
   <= List.length (positionSizing (entryConditions strategy)))%nat ->
  executeTrade fuel mgr trade = None.
Proof.
  intros Hactive Hvalid Hlen. revert trade Hvalid.
  induction fuel as [| fuel IH]; intros trade Hvalid; cbn [executeTrade].
  - reflexivity.
  - rewrite Hactive, Hvalid. cbn [negb].
    destruct (prepareTargets_succeeds trade
                (positionSizing (entryConditions strategy))
                (takeProfitTargets (entryConditions strategy)) 0) as [tps ->];
      [exact Hlen |].
    apply IH.
    rewrite (validateStrategy_size mgr strategy _ trade); [exact Hvalid |].
    reflexivity.
Qed.

(** C5 (the code departs from the claim).  After computing the take-profit
    prices, the position sizes and the stop loss, [executeTrade] calls
    itself on the prepared trade.  So a call never returns a value; it
    throws when no strategy is enabled, when the risk manager refuses the
    trade or when a sizing entry is missing; in every other case the nested
    calls never end.  With the [breakout] strategy activated on the initial
    registry, a trade of size 50 is such a case. *)
Theorem executeTrade_calls_itself :
  (forall fuel mgr trade v, executeTrade fuel mgr trade <> Some (Returned v))
  /\ (forall mgr strategy trade,
         activeStrategy mgr = Some strategy ->
         valid (validateStrategy mgr strategy trade) = true ->
         (List.length (takeProfitTargets (entryConditions strategy))
          <= List.length (positionSizing (entryConditions strategy)))%nat ->
         forall fuel, executeTrade fuel mgr trade = None)
  /\ (forall fuel,
         executeTrade fuel Samples.manager_with_breakout Samples.trade = None).
Proof.
  split; [| split].
  - intros. apply executeTrade_no_value.
  - intros mgr strategy trade Ha Hv Hl fuel.
    exact (executeTrade_loops mgr fuel trade Ha Hv Hl).
  - intros fuel.
    refine (executeTrade_loops Samples.manager_with_breakout (strategy := _)
              fuel Samples.trade eq_refl _ _).
    + reflexivity.
    + cbn. lia.
Qed.

End BotFacts.

(** C5 on the initial registry with [breakout] activated and a trade of
    size 50: a thousand nested calls do not complete the first one. *)
Lemma executeTrade_calls_itself_witness :
  Bot.executeTrade 1000 Samples.manager_with_breakout Samples.trade = None.
Proof.
  refine (proj1 (proj2 executeTrade_calls_itself)
            Samples.manager_with_breakout _ Samples.trade eq_refl _ _ 1000%nat).
  - reflexivity.
  - cbn. lia.
Defined.

(* ================================================================== *)
(** * Facts about the strategy registry *)
(* ================================================================== *)

Section RegistryFacts.

Import Risk Registry.
Local Open Scope float_scope.

Lemma Map_get_set {V} (m : Map V) (k : string) (v : V) :
  Map_get (Map_set m k v) k = Some v.
Proof.
  induction m as [| [k' v'] m IH]; cbn.
  - rewrite String.eqb_refl. reflexivity.
  - destruct (String.eqb k k') eqn:E; cbn.
    + rewrite String.eqb_refl. reflexivity.
    + rewrite E. exact IH.
Qed.

Lemma sort_insert_perm (compare : float -> float -> float) (x : float) (l : list float) :
  Permutation (sort_insert compare x l) (x :: l).
Proof.
  induction l as [| y l IH]; cbn [sort_insert]; [reflexivity |].
  destruct (gtb (compare x y) 0); [| reflexivity].
  rewrite IH. apply perm_swap.
Qed.

Lemma sort_perm (compare : float -> float -> float) (l : list float) :
  Permutation (sort compare l) l.
Proof.
  induction l as [| x l IH]; cbn [sort]; [reflexivity |].
  rewrite sort_insert_perm, IH. reflexivity.
Qed.

Lemma sort_insert_sorted (x : float) (l : list float) :
  not_NaN x = true -> Forall (fun t => not_NaN t = true) l ->
  Sorted (fun a b => (a <=? b) = true) l ->
  Sorted (fun a b => (a <=? b) = true) (sort_insert (fun a b => a - b) x l).
Proof.
  unfold not_NaN. intros Hx Hl Hs.
  apply Bool.negb_true_iff in Hx.
  induction l as [| y l IH]; cbn [sort_insert].
  - repeat constructor.
  - apply Forall_cons_iff in Hl as [Hy Hl]. apply Bool.negb_true_iff in Hy.
    apply Sorted_inv in Hs as [Hs Hhd].
    unfold gtb. rewrite (@sub_positive x y Hx Hy).
    destruct (y <? x) eqn:Hlt.
    + constructor; [apply IH; assumption |].
      destruct l as [| z l]; cbn [sort_insert].
      * constructor. apply ltb_leb. exact Hlt.
      * destruct (gtb (x - z) 0); constructor.
        -- apply HdRel_inv in Hhd. exact Hhd.
        -- apply ltb_leb. exact Hlt.
    + constructor; [constructor; assumption |].
      constructor. apply not_ltb_leb; assumption.
Qed.

Lemma sort_ascending (l : list float) :
  Forall (fun t => not_NaN t = true) l -> ascending (sort (fun a b => a - b) l).
Proof.
  intros H. apply Sorted_StronglySorted.
  - intros a b c. apply leb_trans.
  - induction l as [| x l IH]; cbn [sort].
    + constructor.
    + apply Forall_cons_iff in H as [Hx Hl].
      apply sort_insert_sorted; [exact Hx | | apply IH; exact Hl].
      eapply Permutation_Forall; [symmetry; apply sort_perm | exact Hl].
Qed.

Lemma mapi_from_length {A B} (f : A -> nat -> B) (i : nat) (l : list A) :
  List.length (mapi_from f i l) = List.length l.
Proof. revert i. induction l; intros i; cbn; [| rewrite IHl]; reflexivity. Qed.

Lemma mapi_from_nth {A B} (f : A -> nat -> B) (l : list A) (i k : nat) :
  nth_error (mapi_from f i l) k = option_map (fun x => f x (i + k)%nat) (nth_error l k).
Proof.
  revert i k. induction l as [| x l IH]; intros i [| k]; cbn; try reflexivity.
  - rewrite Nat.add_0_r. reflexivity.
  - rewrite IH. replace (S i + k)%nat with (i + S k)%nat by lia. reflexivity.
Qed.

(** What [parseTargets] keeps and how it orders it. *)
Lemma parseTargets_spec (targets : list string) :
  Permutation (parseTargets targets) (filter not_NaN (map parseFloat targets))
  /\ ascending (parseTargets targets).
Proof.
  unfold parseTargets. split; [apply sort_perm |].
  apply sort_ascending. apply Forall_forall. intros t Ht.
  apply filter_In in Ht. exact (proj2 Ht).
Qed.

(** C6.  On [/settp <strategy> <target>...] naming an existing strategy the
    handler stores, as its take-profit targets, the words that [parseFloat]
    reads as numbers (the others are dropped), in ascending order, and
    recomputes [positionSizing] with one entry per stored target: 40 percent
    for the first, 30 percent for each of the others.  On the initial
    registry, [/settp breakout 12 6 18] stores [6, 12, 18] with the sizing
    [{40, 6}, {30, 12}, {30, 18}]. *)
Theorem settp_stores_sorted_targets :
  (forall (mgr : TechnicalStrategyManager) (text command strategyId : string)
          (targets : list string) (strategy : Strategy),
      split_space text = command :: strategyId :: targets ->
      strategyId <> "" ->
      targets <> [] ->
      Map_get (strategies mgr) strategyId = Some strategy ->
      exists strategy',
        Map_get (strategies (fst (settp mgr text))) strategyId = Some strategy'
        /\ Permutation (takeProfitTargets (entryConditions strategy'))
                       (filter not_NaN (map parseFloat targets))
        /\ ascending (takeProfitTargets (entryConditions strategy'))
        /\ List.length (positionSizing (entryConditions strategy'))
           = List.length (takeProfitTargets (entryConditions strategy'))
        /\ forall index target,
             nth_error (takeProfitTargets (entryConditions strategy')) index
             = Some target ->
             nth_error (positionSizing (entryConditions strategy')) index
             = Some {| percentage := if Nat.eqb index 0 then 40 else 30;
                       target := target |})
  /\ option_map
       (fun s => (takeProfitTargets (entryConditions s),
                  positionSizing (entryConditions s)))
       (Map_get
          (strategies
             (fst (settp (fst (new_TechnicalStrategyManager Samples.config 0 []))
                         "/settp breakout 12 6 18")))
          "breakout")
     = Some ([6; 12; 18],
             [ {| percentage := 40; target := 6 |};
               {| percentage := 30; target := 12 |};
               {| percentage := 30; target := 18 |} ]).
Proof.
  split; [| vm_compute; reflexivity].
  intros mgr text command strategyId targets strategy Hsplit Hid Htargets Hget.
  unfold settp. rewrite Hsplit.
  apply String.eqb_neq in Hid. rewrite Hid.
  destruct targets as [| t0 targets]; [contradiction |].
  cbn [List.length Nat.eqb orb]. rewrite Hget. cbn [fst strategies].
  eexists. split; [apply Map_get_set |].
  cbn [set_targets entryConditions takeProfitTargets positionSizing].
  destruct (parseTargets_spec (t0 :: targets)) as [Hperm Hasc].
  split; [exact Hperm | split; [exact Hasc | split]].
  - apply mapi_from_length.
  - intros index target Hnth. unfold calculatePositionSizing, mapi.
    rewrite mapi_from_nth, Hnth. reflexivity.
Qed.

End RegistryFacts.

(** C6 on the message [/settp breakout 12 abc 6 18]: the word [abc] is
    dropped, the three numbers are stored in ascending order. *)
Lemma settp_stores_sorted_targets_witness :
  exists strategy',
    Registry.Map_get
      (Registry.strategies
         (fst (Registry.settp
                 (fst (Registry.new_TechnicalStrategyManager Samples.config 0%float []))
                 "/settp breakout 12 abc 6 18")))
      "breakout" = Some strategy'
    /\ Registry.takeProfitTargets (Registry.entryConditions strategy')
       = [6; 12; 18]%float.
Proof.
  destruct (proj1 settp_stores_sorted_targets
              (fst (Registry.new_TechnicalStrategyManager Samples.config 0%float []))
              "/settp breakout 12 abc 6 18" "/settp" "breakout"
              ["12"; "abc"; "6"; "18"] 
              {| Registry.name := Registry.spec_name Registry.breakout;
                 Registry.description := Registry.spec_description Registry.breakout;
                 Registry.entryConditions := Registry.spec_entryConditions Registry.breakout;
                 Registry.enabled := false; Registry.timestamp := 0%float |}
              eq_refl ltac:(discriminate) ltac:(discriminate) eq_refl)
    as [strategy' [Hget _]].
  exists strategy'. split; [exact Hget |].
  vm_compute in Hget. injection Hget as <-. reflexivity.
Defined.

(* ================================================================== *)
(** * The range of the whale score *)
(* ================================================================== *)

Section WhaleScore.

Import Analyzer.
Local Open Scope float_scope.

Variable this : Collaborators.

(** A weighted term stays below its weight. *)
Lemma weighted_term (x w : float) :
  in_unit_interval x = true -> fnn (Prim2SF w) ->
  (0 <=? x * w) = true /\ (x * w <=? 1 * w) = true.
Proof.
  intros Hx Hw. apply andb_prop in Hx as [H0 H1].
  apply mul_bounds; try assumption. vm_compute. exact I.
Qed.

(** C7, amended.  [calculateWhaleScore] returns the weighted sum
    [0.4 * buyPressure + 0.4 * holdingQuality + 0.2 * sizeImpact] as it is,
    without clamping; the score lies in [[0, 1]] whenever the three terms
    do. *)
Theorem whaleScore_range (metrics : WhaleMetrics) :
  let buyPressure := volume (recentBuys metrics) / timeFrame (recentBuys metrics) in
  let holdingQuality := holdingTime metrics * wm_walletAge metrics in
  let sizeImpact := normalizeTradeSize this (tradeSize metrics) in
  calculateWhaleScore this metrics
  = buyPressure * 0.4 + holdingQuality * 0.4 + sizeImpact * 0.2
  /\ (in_unit_interval buyPressure = true ->
      in_unit_interval holdingQuality = true ->
      in_unit_interval sizeImpact = true ->
      in_unit_interval (calculateWhaleScore this metrics) = true).
Proof.
  cbv zeta. split; [reflexivity |].
  unfold calculateWhaleScore. intros Hb Hh Hs.
  assert (F04 : fnn (Prim2SF 0.4)) by (vm_compute; exact I).
  assert (F02 : fnn (Prim2SF 0.2)) by (vm_compute; exact I).
  assert (F08 : fnn (Prim2SF 0.8)) by (vm_compute; exact I).
  destruct (@weighted_term _ _ Hb F04) as [B0 B1].
  destruct (@weighted_term _ _ Hh F04) as [H0 H1].
  destruct (@weighted_term _ _ Hs F02) as [S0 S1].
  change (1 * 0.4) with 0.4 in B1, H1. change (1 * 0.2) with 0.2 in S1.
  destruct (@add_bounds _ _ _ _ B0 B1 F04 H0 H1 F04) as [A0 A1].
  change (0.4 + 0.4) with 0.8 in A1.
  destruct (@add_bounds _ _ _ _ A0 A1 F08 S0 S1 F02) as [T0 T1].
  change (0.8 + 0.2) with 1 in T1.
  unfold in_unit_interval. rewrite T0, T1. reflexivity.
Qed.

End WhaleScore.

(** C7, amended, on whale metrics whose terms are 0.5, 0.5 and 0.3. *)
Lemma whaleScore_range_witness :
  Analyzer.in_unit_interval
    (Analyzer.calculateWhaleScore Samples.collaborators Samples.steady_buying)
  = true.
Proof.
  exact (proj2 (whaleScore_range Samples.collaborators Samples.steady_buying)
           eq_refl eq_refl eq_refl).
Defined.

(** C7 fails as stated.  With a buy pressure of 10, holding quality 0 and a
    normalizer that honours its contract (it answers 0 here), the whale
    score is 4: nothing clamps it to [[0, 1]]. *)
Lemma whaleScore_above_one :
  Analyzer.normalizeTradeSize Samples.collaborators
    (Analyzer.tradeSize Samples.heavy_buying) = 0%float
  /\ Analyzer.calculateWhaleScore Samples.collaborators Samples.heavy_buying
     = 4%float
  /\ (Analyzer.calculateWhaleScore Samples.collaborators Samples.heavy_buying
      <=? 1)%float = false.
Proof. repeat split. Qed.

(** C2, the table alone, on the last example of the specification: the
    scores of the [BUY] example with an overall score of 0.6 give
    [MONITOR]. *)
Lemma recommendation_is_never_BUY_witness :
  Analyzer.determineAction
    (Analyzer.scores_of (VNumber 0.5) (VNumber 0.6) (VNumber 0.5) (VNumber 0.8)
       ++ [("overallScore", VNumber 0.6)])%list
  = Analyzer.MONITOR.
Proof.
  exact (proj1 (proj2 (proj2 (recommendation_is_never_BUY Samples.collaborators)))
           0.5%float 0.6%float 0.5%float 0.8%float 0.6%float
           eq_refl eq_refl eq_refl).
Defined.

(* ================================================================== *)
(** * Facts about the registry under the commands *)
(* ================================================================== *)

Section CommandFacts.

Import Risk Registry Bot Commands.
Local Open Scope float_scope.

Lemma Map_get_set_other {V} (m : Map V) (k k' : string) (v : V) :
  k' <> k -> Map_get (Map_set m k v) k' = Map_get m k'.
Proof.
  intros Hk. apply String.eqb_neq in Hk.
  induction m as [| [k0 v0] m IH]; cbn.
  - rewrite Hk. reflexivity.
  - destruct (String.eqb k k0) eqn:E; cbn.
    + apply String.eqb_eq in E. subst k0. rewrite Hk. reflexivity.
    + destruct (String.eqb k' k0); [reflexivity | exact IH].
Qed.

Lemma Map_set_set {V} (m : Map V) (k : string) (v v' : V) :
  Map_set (Map_set m k v) k v' = Map_set m k v'.
Proof.
  induction m as [| [k0 v0] m IH]; cbn.
  - rewrite String.eqb_refl. reflexivity.
  - destruct (String.eqb k k0) eqn:E; cbn.
    + rewrite String.eqb_refl. reflexivity.
    + rewrite E, IH. reflexivity.
Qed.

Lemma Map_set_Forall {V} (P : V -> Prop) (m : Map V) (k : string) (v : V) :
  Forall P (Map_values m) -> P v -> Forall P (Map_values (Map_set m k v)).
Proof.
  unfold Map_values. intros Hm Hv.
  induction m as [| [k0 v0] m IH]; cbn.
  - constructor; [exact Hv | constructor].
  - cbn in Hm. apply Forall_cons_iff in Hm as [H0 Hm].
    destruct (String.eqb k k0); cbn; constructor; auto.
Qed.

Lemma Map_get_In {V} (m : Map V) (k : string) (v : V) :
  Map_get m k = Some v -> In v (Map_values m).
Proof.
  unfold Map_values. induction m as [| [k0 v0] m IH]; cbn; [discriminate |].
  destruct (String.eqb k k0); intros H.
  - left. congruence.
  - right. exact (IH H).
Qed.

Lemma evolves_refl (s : Strategy) : evolves s s.
Proof. unfold evolves. tauto. Qed.

Lemma evolves_trans (a b c : Strategy) : evolves a b -> evolves b c -> evolves a c.
Proof.
  unfold evolves. intros (A1 & A2 & A3 & A4 & A5 & A6) (B1 & B2 & B3 & B4 & B5 & B6).
  repeat split; try congruence. auto.
Qed.

Lemma alike_refl (R : Strategy -> Strategy -> Prop) (m : Map Strategy) :
  (forall s, R s s) -> alike R m m.
Proof.
  intros HR. unfold alike. induction m; constructor; auto.
Qed.

Lemma alike_trans (R : Strategy -> Strategy -> Prop) (m1 m2 m3 : Map Strategy) :
  (forall a b c, R a b -> R b c -> R a c) ->
  alike R m1 m2 -> alike R m2 m3 -> alike R m1 m3.
Proof.
  intros HR H12. revert m3. unfold alike in *.
  induction H12 as [| a b m1 m2 [Hk Hab] _ IH]; intros m3 H23;
    inversion H23 as [| b' c m2' m3' [Hk' Hbc] H23']; subst; constructor.
  - split; [congruence | eauto].
  - apply IH. exact H23'.
Qed.

(** Replacing the value of an existing key by a related one. *)
Lemma Map_set_alike (R : Strategy -> Strategy -> Prop) (m : Map Strategy)
    (k : string) (s s' : Strategy) :
  (forall x, R x x) -> Map_get m k = Some s -> R s s' ->
  alike R m (Map_set m k s').
Proof.
  intros HR Hget Hs. unfold alike.
  induction m as [| [k0 v0] m IH]; cbn in *; [discriminate |].
  destruct (String.eqb k k0) eqn:E.
  - apply String.eqb_eq in E. subst k0. injection Hget as ->.
    constructor; [split; [reflexivity | exact Hs] |].
    apply alike_refl. exact HR.
  - constructor; [split; [reflexivity | apply HR] | exact (IH Hget)].
Qed.

Lemma alike_keys (R : Strategy -> Strategy -> Prop) (m m' : Map Strategy) :
  alike R m m' -> map fst m' = map fst m.
Proof.
  unfold alike. induction 1 as [| a b m m' [Hk _] _ IH]; cbn; congruence.
Qed.

Lemma alike_get (R : Strategy -> Strategy -> Prop) (m m' : Map Strategy)
    (k : string) :
  alike R m m' ->
  match Map_get m k, Map_get m' k with
  | Some s, Some s' => R s s'
  | None, None => True
  | _, _ => False
  end.
Proof.
  unfold alike.
  induction 1 as [| [k0 v0] [k1 v1] m m' [Hk Hv] _ IH]; cbn in *; [exact I |].
  subst k1. destruct (String.eqb k k0); [exact Hv | exact IH].
Qed.

(** What one command does to the registry. *)
Lemma strategyCommand_cases (mgr : TechnicalStrategyManager) (text : string) :
  (fst (strategyCommand mgr text) = mgr
   /\ forall n, snd (strategyCommand mgr text) <> Some (StrategyActivated n))
  \/ exists id s,
       nth_error (split_space text) 2 = Some id
       /\ Map_get (strategies mgr) id = Some s
       /\ strategyCommand mgr text
          = ( {| strategies := Map_set (strategies mgr) id (enable s);
                 riskManager := riskManager mgr |},
              Some (StrategyActivated (name s)) ).
Proof.
  unfold strategyCommand.
  destruct (word_is (nth_error (split_space text) 1) "list").
  - left. split; [reflexivity | discriminate].
  - destruct (word_is (nth_error (split_space text) 1) "activate"
              && ToBoolean (word (nth_error (split_space text) 2)));
      [| left; split; [reflexivity | discriminate]].
    destruct (nth_error (split_space text) 2) as [id |];
      [| left; split; [reflexivity | discriminate]].
    destruct (Map_get (strategies mgr) id) as [s |] eqn:Hget;
      [| left; split; [reflexivity | discriminate]].
    right. exists id, s. split; [reflexivity | split; [exact Hget |]].
    unfold activate. rewrite Hget. reflexivity.
Qed.

Lemma settp_cases (mgr : TechnicalStrategyManager) (text : string) :
  (fst (settp mgr text) = mgr
   /\ (snd (settp mgr text) = Usage \/ snd (settp mgr text) = StrategyNotFound))
  \/ exists w0 id t0 targets s,
       split_space text = w0 :: id :: t0 :: targets
       /\ String.eqb id "" = false
       /\ Map_get (strategies mgr) id = Some s
       /\ settp mgr text
          = (let tps := parseTargets (t0 :: targets) in
             let s' := set_targets s tps (calculatePositionSizing tps) in
             ( {| strategies := Map_set (strategies mgr) id s';
                  riskManager := riskManager mgr |},
               formatTakeProfitUpdate id tps s' )).
Proof.
  unfold settp.
  destruct (split_space text) as [| w0 [| id targets]];
    [left; split; [reflexivity | left; reflexivity] ..|].
  destruct (String.eqb id "") eqn:Eid;
    [left; split; [reflexivity | left; reflexivity] |].
  destruct targets as [| t0 targets];
    [left; split; [reflexivity | left; reflexivity] |].
  cbn [List.length Nat.eqb orb].
  destruct (Map_get (strategies mgr) id) as [s |] eqn:Hget;
    [| left; split; [reflexivity | right; reflexivity]].
  right. exists w0, id, t0, targets, s.
  split; [reflexivity | split; [exact Eid |]].
  split; [exact Hget | reflexivity].
Qed.

Lemma handle_alike (mgr : TechnicalStrategyManager) (c : command) :
  alike evolves (strategies mgr) (strategies (handle mgr c))
  /\ riskManager (handle mgr c) = riskManager mgr.
Proof.
  destruct c as [text | text]; cbn [handle].
  - destruct (strategyCommand_cases mgr text) as [[-> _] | (id & s & _ & Hget & ->)].
    + split; [apply alike_refl, evolves_refl | reflexivity].
    + cbn. split; [| reflexivity].
      apply Map_set_alike with (s := s); [apply evolves_refl | exact Hget |].
      unfold evolves, enable. cbn. tauto.
  - destruct (settp_cases mgr text)
      as [[-> _] | (w0 & id & t0 & targets & s & _ & _ & Hget & ->)].
    + split; [apply alike_refl, evolves_refl | reflexivity].
    + cbn. split; [| reflexivity].
      apply Map_set_alike with (s := s); [apply evolves_refl | exact Hget |].
      unfold evolves, set_targets. cbn. tauto.
Qed.

Lemma after_alike (mgr : TechnicalStrategyManager) (cs : list command) :
  alike evolves (strategies mgr) (strategies (after mgr cs))
  /\ riskManager (after mgr cs) = riskManager mgr.
Proof.
  unfold after. revert mgr.
  induction cs as [| c cs IH]; intros mgr; cbn [fold_left].
  - split; [apply alike_refl, evolves_refl | reflexivity].
  - destruct (handle_alike mgr c) as [H1 H2].
    destruct (IH (handle mgr c)) as [H3 H4]. split; [| congruence].
    eapply alike_trans; [apply evolves_trans | exact H1 | exact H3].
Qed.

Lemma handle_sized (mgr : TechnicalStrategyManager) (c : command) :
  Forall sized (Map_values (strategies mgr)) ->
  Forall sized (Map_values (strategies (handle mgr c))).
Proof.
  intros H. destruct c as [text | text]; cbn [handle].
  - destruct (strategyCommand_cases mgr text) as [[-> _] | (id & s & _ & Hget & ->)];
      [exact H |].
    cbn. apply Map_set_Forall; [exact H |].
    apply Map_get_In in Hget.
    exact (proj1 (Forall_forall _ _) H _ Hget).
  - destruct (settp_cases mgr text)
      as [[-> _] | (w0 & id & t0 & targets & s & _ & _ & Hget & ->)]; [exact H |].
    cbn. apply Map_set_Forall; [exact H | reflexivity].
Qed.

Lemma after_sized (mgr : TechnicalStrategyManager) (cs : list command) :
  Forall sized (Map_values (strategies mgr)) ->
  Forall sized (Map_values (strategies (after mgr cs))).
Proof.
  unfold after. revert mgr.
  induction cs as [| c cs IH]; intros mgr H; cbn [fold_left]; [exact H |].
  apply IH, handle_sized, H.
Qed.

Lemma initial_sized (config : Config) (now : float) (js : list Job) :
  Forall sized
    (Map_values (strategies (fst (new_TechnicalStrategyManager config now js)))).
Proof.
  unfold new_TechnicalStrategyManager. destruct (new_RiskManager config js).
  cbn. repeat constructor.
Qed.

Lemma alike_Forall (R : Strategy -> Strategy -> Prop) (P : Strategy -> Prop)
    (m m' : Map Strategy) :
  (forall a b, R a b -> P a -> P b) ->
  alike R m m' -> Forall P (Map_values m) -> Forall P (Map_values m').
Proof.
  intros HR. unfold alike, Map_values.
  induction 1 as [| a b m m' [_ Hab] _ IH]; cbn; intros H; [constructor |].
  apply Forall_cons_iff in H as [Ha H]. constructor; eauto.
Qed.

(** An enabled strategy stays enabled, so an active strategy stays one. *)
Lemma alike_active (m m' : Map Strategy) (s : Strategy) :
  alike evolves m m' -> find enabled (Map_values m) = Some s ->
  exists s', find enabled (Map_values m') = Some s'.
Proof.
  unfold alike, Map_values.
  induction 1 as [| a b m m' [_ Hab] _ IH]; cbn; [discriminate |].
  destruct (enabled (snd a)) eqn:Ea.
  - intros _. rewrite (proj2 (proj2 (proj2 (proj2 (proj2 Hab)))) Ea).
    eexists. reflexivity.
  - intros H. destruct (enabled (snd b)); [eexists; reflexivity | exact (IH H)].
Qed.

Lemma Map_set_enable_active (m : Map Strategy) (id : string) (s : Strategy) :
  Map_get m id = Some s ->
  exists s', find enabled (Map_values (Map_set m id (enable s))) = Some s'.
Proof.
  unfold Map_values. induction m as [| [k0 v0] m IH]; cbn; [discriminate |].
  destruct (String.eqb id k0); cbn.
  - intros _. eexists. reflexivity.
  - intros H. destruct (enabled v0); [eexists; reflexivity | exact (IH H)].
Qed.

Lemma initial_registry (config : Config) (now : float) (js : list Job) :
  map fst (strategies (fst (new_TechnicalStrategyManager config now js)))
  = [ "breakout"; "movingAverages"; "volumeAnalysis" ]%string
  /\ Forall (fun s => ec_stopLoss (entryConditions s) = 2 /\ enabled s = false)
       (Map_values (strategies (fst (new_TechnicalStrategyManager config now js))))
  /\ riskManager (fst (new_TechnicalStrategyManager config now js))
     = fst (new_RiskManager config js).
Proof.
  unfold new_TechnicalStrategyManager. destruct (new_RiskManager config js).
  cbn. repeat split; repeat constructor.
Qed.

(** The stop losses and the risk manager in a state that the commands can
    bring the registry to. *)
Lemma reachable_stopLoss (config : Config) (now : float) (js : list Job)
    (cs : list command) :
  Forall (fun s => ec_stopLoss (entryConditions s) = 2)
    (Map_values
       (strategies (after (fst (new_TechnicalStrategyManager config now js)) cs)))
  /\ riskManager (after (fst (new_TechnicalStrategyManager config now js)) cs)
     = fst (new_RiskManager config js).
Proof.
  destruct (after_alike (fst (new_TechnicalStrategyManager config now js)) cs)
    as [Halike Hrm].
  destruct (initial_registry config now js) as (_ & Hinit & Hrm0).
  split; [| congruence].
  eapply alike_Forall; [| exact Halike |].
  - intros a b Hab Ha. cbv beta in *.
    destruct Hab as (_ & _ & Hsl & _). rewrite Hsl. exact Ha.
  - eapply Forall_impl; [| exact Hinit]. intros a [Ha _]. exact Ha.
Qed.

(** X1.  Whatever [/strategy] and [/settp] messages the bot has handled
    since its construction, the registry holds the same three strategies
    under the same keys in the same order, each with a stop loss of 2, and
    the risk manager is the one the constructor built: no command adds,
    removes or renames a strategy, changes a stop loss or touches the risk
    settings. *)
Theorem registry_entries_are_fixed (config : Config) (now : float)
    (js : list Job) (cs : list command) :
  let mgr := after (fst (new_TechnicalStrategyManager config now js)) cs in
  map fst (strategies mgr)
  = [ "breakout"; "movingAverages"; "volumeAnalysis" ]%string
  /\ map name (Map_values (strategies mgr))
     = [ spec_name breakout; spec_name movingAverages; spec_name volumeAnalysis ]
  /\ Forall (fun s => ec_stopLoss (entryConditions s) = 2)
       (Map_values (strategies mgr))
  /\ riskManager mgr = fst (new_RiskManager config js).
Proof.
  cbv zeta.
  destruct (after_alike (fst (new_TechnicalStrategyManager config now js)) cs)
    as [Halike _].
  destruct (initial_registry config now js) as (Hkeys & _ & _).
  split; [rewrite (alike_keys Halike); exact Hkeys |].
  split; [| exact (reachable_stopLoss config now js cs)].
  - clear Hkeys. revert Halike.
    unfold new_TechnicalStrategyManager. destruct (new_RiskManager config js).
    cbn [fst strategies]. generalize (strategies (after
      {| strategies := initializeTechnicalStrategies [] now; riskManager := r |} cs)).
    intros m H. unfold alike in H. cbn in H.
    repeat match goal with
           | H : Forall2 _ _ _ |- _ => inversion H; clear H; subst
           end.
    unfold evolves in *. cbn in *.
    repeat match goal with H : _ /\ _ |- _ => destruct H end.
    congruence.
Qed.

(** X2.  In every state that the commands can bring the registry to, the
    position sizing of each strategy is the one [calculatePositionSizing]
    gives to its take-profit targets: one entry per target, aligned with
    it, 40 percent for the first and 30 percent for the others. *)
Theorem sizing_follows_targets (config : Config) (now : float)
    (js : list Job) (cs : list command) :
  Forall (fun s => positionSizing (entryConditions s)
                   = calculatePositionSizing (takeProfitTargets (entryConditions s)))
    (Map_values
       (strategies (after (fst (new_TechnicalStrategyManager config now js)) cs))).
Proof.
  exact (after_sized _ cs (initial_sized config now js)).
Qed.

(** X3.  On every registry that the commands can produce, a call of
    [executeTrade] has one of three fates, decided by the configuration and
    the size of the trade alone: it throws [No active strategy found] when
    no strategy is enabled; it throws [Trade validation failed] when the
    risk manager refuses the trade taken with a stop loss of 2; otherwise
    its nested calls never end.  The [TypeError] of a missing sizing entry
    cannot occur. *)
Theorem executeTrade_on_reachable_registry (config : Config) (now : float)
    (js : list Job) (cs : list command) (fuel : nat) (trade : Trade) :
  let mgr := after (fst (new_TechnicalStrategyManager config now js)) cs in
  let validation :=
    validateTrade (fst (new_RiskManager config js))
      {| size := size trade; entryPrice := entryPrice trade; stopLoss := 2;
         trade_takeProfitTargets := trade_takeProfitTargets trade |} in
  executeTrade (S fuel) mgr trade
  = match activeStrategy mgr with
    | None => Some (Thrown NoActiveStrategy)
    | Some _ =>
        if valid validation then None
        else Some (Thrown (TradeValidationFailed (reason validation)))
    end.
Proof.
  cbv zeta.
  destruct (reachable_stopLoss config now js cs) as (Hsl & Hrm).
  pose proof (after_sized _ cs (initial_sized config now js)) as Hsized.
  set (mgr := after _ cs) in *.
  destruct (activeStrategy mgr) as [s |] eqn:Hactive;
    [| cbn [executeTrade]; rewrite Hactive; reflexivity].
  assert (Hin : In s (Map_values (strategies mgr)))
    by (apply find_some in Hactive; exact (proj1 Hactive)).
  pose proof (proj1 (Forall_forall _ _) Hsl _ Hin) as Hs2. cbv beta in Hs2.
  pose proof (proj1 (Forall_forall _ _) Hsized _ Hin) as Hsz.
  assert (Hv : validateStrategy mgr s trade
               = validateTrade (fst (new_RiskManager config js))
                   {| size := size trade; entryPrice := entryPrice trade;
                      stopLoss := 2;
                      trade_takeProfitTargets := trade_takeProfitTargets trade |})
    by (unfold validateStrategy; rewrite Hrm, Hs2; reflexivity).
  rewrite <- Hv.
  destruct (valid (validateStrategy mgr s trade)) eqn:Hvalid.
  - apply (executeTrade_loops mgr (S fuel) trade Hactive Hvalid).
    rewrite Hsz. unfold calculatePositionSizing, mapi.
    rewrite mapi_from_length. apply Nat.le_refl.
  - cbn [executeTrade]. rewrite Hactive, Hvalid. reflexivity.
Qed.

(** X4.  Once the bot has answered a [/strategy activate] message with
    [Strategy ... activated], the strategy it named is enabled in every
    later state, whatever [/strategy] and [/settp] messages follow: no
    command disables a strategy.  From then on there is an active strategy,
    so [analyzePair] reaches [performAnalysis] instead of throwing
    [No active strategy found]. *)
Theorem activation_is_permanent (mgr : TechnicalStrategyManager)
    (text strategyName : string) (cs : list command) :
  snd (strategyCommand mgr text) = Some (StrategyActivated strategyName) ->
  let mgr' := after (fst (strategyCommand mgr text)) cs in
  (exists id s,
      nth_error (split_space text) 2 = Some id
      /\ Map_get (strategies mgr') id = Some s
      /\ name s = strategyName /\ enabled s = true)
  /\ exists active,
       activeStrategy mgr' = Some active /\ enabled active = true
       /\ forall (A : Type) (performAnalysis : string -> Strategy -> A) symbol,
            analyzePair performAnalysis mgr' symbol
            = inr (performAnalysis symbol active).
Proof.
  intros Hreply. cbv zeta.
  destruct (strategyCommand_cases mgr text)
    as [[_ Hno] | (id & s & Hid & Hget & Heq)];
    [exfalso; exact (Hno _ Hreply) |].
  rewrite Heq in Hreply |- *. cbn [fst snd] in *.
  injection Hreply as <-.
  set (mgr1 := {| strategies := Map_set (strategies mgr) id (enable s);
                  riskManager := riskManager mgr |}).
  destruct (after_alike mgr1 cs) as [Halike _].
  split.
  - pose proof (alike_get id Halike) as Hk. cbn [mgr1 strategies] in Hk.
    rewrite Map_get_set in Hk.
    destruct (Map_get (strategies (after mgr1 cs)) id) as [s' |] eqn:Hs';
      [| contradiction].
    exists id, s'. destruct Hk as (Hn & _ & _ & _ & _ & He).
    split; [exact Hid | split; [exact Hs' | split; [exact Hn | exact (He eq_refl)]]].
  - destruct (Map_set_enable_active (strategies mgr) id Hget) as [a0 Ha0].
    destruct (@alike_active _ _ a0 Halike Ha0) as [active Hactive].
    exists active. split; [exact Hactive |].
    split; [exact (proj2 (find_some _ _ Hactive)) |].
    intros A performAnalysis symbol. unfold analyzePair.
    unfold activeStrategy. rewrite Hactive. reflexivity.
Qed.

(** X5.  What a [/strategy] message does is decided by its second and
    third words.  When the second word is [list], the reply is the listing:
    one entry per strategy, in the order of the registry, with the id, the
    name, the description, the stop loss and the targets; nothing changes.
    When it is [activate] and the third word is the id of a strategy, the
    reply names that strategy and its [enabled] flag is set, and nothing
    else changes: every other strategy, the keys and the risk manager are
    as before.  Any other message (another action, no id, an empty id, an
    unknown id) is ignored: no reply, no change. *)
Theorem strategy_command_outcomes (mgr : TechnicalStrategyManager) (text : string) :
  let action := nth_error (split_space text) 1 in
  let strategyId := nth_error (split_space text) 2 in
  (action = Some "list"%string ->
     strategyCommand mgr text
     = ( mgr,
         Some (AvailableStrategies
                 (map (fun '(id, strategy) =>
                         {| ls_id := id; ls_name := name strategy;
                            ls_description := description strategy;
                            ls_stopLoss := ec_stopLoss (entryConditions strategy);
                            ls_takeProfits :=
                              takeProfitTargets (entryConditions strategy) |})
                      (strategies mgr))) ))
  /\ (action = Some "activate"%string ->
      forall id s,
        strategyId = Some id -> id <> ""%string ->
        Map_get (strategies mgr) id = Some s ->
        snd (strategyCommand mgr text) = Some (StrategyActivated (name s))
        /\ Map_get (strategies (fst (strategyCommand mgr text))) id
           = Some (enable s)
        /\ (forall id', id' <> id ->
               Map_get (strategies (fst (strategyCommand mgr text))) id'
               = Map_get (strategies mgr) id')
        /\ map fst (strategies (fst (strategyCommand mgr text)))
           = map fst (strategies mgr)
        /\ riskManager (fst (strategyCommand mgr text)) = riskManager mgr)
  /\ (action <> Some "list"%string ->
      action <> Some "activate"%string
      \/ strategyId = None \/ strategyId = Some ""%string
      \/ (exists id, strategyId = Some id /\ Map_get (strategies mgr) id = None) ->
      strategyCommand mgr text = (mgr, None)).
Proof.
  cbv zeta. unfold strategyCommand.
  generalize (nth_error (split_space text) 1) (nth_error (split_space text) 2).
  intros action strategyId. split; [| split].
  - intros ->. reflexivity.
  - intros -> id s -> Hne Hget. cbn [word_is word ToBoolean].
    change (String.eqb "activate" "list") with false.
    change (String.eqb "activate" "activate") with true.
    apply String.eqb_neq in Hne. rewrite Hne. cbn [negb andb].
    rewrite Hget. unfold activate. rewrite Hget.
    cbn [fst snd strategies riskManager].
    split; [reflexivity | split; [apply Map_get_set |]].
    split; [intros id' Hid'; apply Map_get_set_other; exact Hid' |].
    split; [| reflexivity].
    apply alike_keys with (R := fun _ _ => True).
    apply Map_set_alike with (s := s); auto.
  - intros Hlist Hcases.
    assert (Hl : word_is action "list" = false).
    { destruct action as [a |]; [| reflexivity]. cbn [word_is].
      apply String.eqb_neq. congruence. }
    rewrite Hl.
    destruct Hcases as [Ha | [-> | [-> | (id & -> & Hnone)]]].
    + assert (Hact : word_is action "activate" = false).
      { destruct action as [a |]; [| reflexivity]. cbn [word_is].
        apply String.eqb_neq. congruence. }
      rewrite Hact. reflexivity.
    + cbn [word ToBoolean]. rewrite Bool.andb_false_r. reflexivity.
    + cbn [word ToBoolean String.eqb negb]. rewrite Bool.andb_false_r. reflexivity.
    + rewrite Hnone. destruct (_ && _); reflexivity.
Qed.

Lemma mapi_from_ext {A B} (f g : A -> nat -> B) (i : nat) (l : list A) :
  (forall k x, nth_error l k = Some x -> f x (i + k)%nat = g x (i + k)%nat) ->
  mapi_from f i l = mapi_from g i l.
Proof.
  revert i. induction l as [| x l IH]; intros i H; cbn; [reflexivity |].
  f_equal.
  - specialize (H 0%nat x eq_refl). rewrite Nat.add_0_r in H. exact H.
  - apply IH. intros k y Hk. specialize (H (S k) y Hk).
    replace (S i + k)%nat with (i + S k)%nat by lia. exact H.
Qed.

(** X6.  A [/settp] message that is answered by the usage text or by
    [Strategy not found] changes nothing.  One that is accepted changes the
    targets and the sizing of the strategy it names and nothing else: the
    strategy keeps its name, description, stop loss, parameters, time stamp
    and [enabled] flag, every other strategy and the risk manager are as
    before; and the reply lists the stored targets in order, numbered from
    1, with 40 percent for the first and 30 percent for the others, never a
    missing percentage.  The strategy changed, and named in the reply, is
    the one that the second word of the message names. *)
Theorem settp_outcomes (mgr : TechnicalStrategyManager) (text : string) :
  match snd (settp mgr text) with
  | Usage | StrategyNotFound => fst (settp mgr text) = mgr
  | TakeProfitUpdate id lines =>
      exists s s',
        Map_get (strategies mgr) id = Some s
        /\ Map_get (strategies (fst (settp mgr text))) id = Some s'
        /\ evolves s s' /\ enabled s' = enabled s
        /\ lines
           = mapi (fun target index =>
                     (S index, target, Some (if Nat.eqb index 0 then 40 else 30)))
                  (takeProfitTargets (entryConditions s'))
        /\ (forall id', id' <> id ->
               Map_get (strategies (fst (settp mgr text))) id'
               = Map_get (strategies mgr) id')
        /\ map fst (strategies (fst (settp mgr text))) = map fst (strategies mgr)
        /\ riskManager (fst (settp mgr text)) = riskManager mgr
        /\ nth_error (split_space text) 1 = Some id
  end.
Proof.
  destruct (settp_cases mgr text)
    as [[Hfst [-> | ->]] | (w0 & id & t0 & targets & s & Hsplit & _ & Hget & ->)];
    [exact Hfst | exact Hfst |].
  cbv zeta. cbn [fst snd formatTakeProfitUpdate strategies riskManager].
  set (tps := parseTargets (t0 :: targets)).
  exists s, (set_targets s tps (calculatePositionSizing tps)).
  split; [exact Hget | split; [apply Map_get_set |]].
  split; [unfold evolves, set_targets; cbn; tauto |].
  split; [reflexivity |].
  split.
  - cbn [set_targets entryConditions positionSizing takeProfitTargets].
    unfold mapi. apply mapi_from_ext. intros k x Hk. cbn [Nat.add].
    unfold calculatePositionSizing, mapi. rewrite mapi_from_nth, Hk. reflexivity.
  - split; [intros id' Hne; apply Map_get_set_other; exact Hne |].
    split; [| split; [reflexivity | rewrite Hsplit; reflexivity]].
    apply alike_keys with (R := fun _ _ => True).
    apply Map_set_alike with (s := s); auto.
Qed.

(** X7.  Handling the same [/settp] message a second time changes nothing
    more and gives the same reply. *)
Theorem settp_is_idempotent (mgr : TechnicalStrategyManager) (text : string) :
  settp (fst (settp mgr text)) text = settp mgr text.
Proof.
  destruct (settp_cases mgr text)
    as [[Hfst _] | (w0 & id & t0 & targets & s & Hsplit & Hid & Hget & Heq)].
  - rewrite Hfst. reflexivity.
  - rewrite Heq. cbv zeta. cbn [fst].
    set (tps := parseTargets (t0 :: targets)).
    unfold settp at 1. rewrite Hsplit, Hid.
    cbn [List.length Nat.eqb orb strategies riskManager].
    rewrite Map_get_set, Map_set_set. reflexivity.
Qed.

End CommandFacts.

(** X4 on the registry as the constructor builds it: after
    [/strategy activate breakout], a [/settp] and a [/strategy list], there
    is an active strategy. *)
Lemma activation_is_permanent_witness :
  exists active,
    Bot.activeStrategy
      (Commands.after
         (fst (Commands.strategyCommand
                 (fst (Registry.new_TechnicalStrategyManager Samples.config 0%float []))
                 "/strategy activate breakout"))
         [ Commands.Settp "/settp breakout 3 1 2";
           Commands.Strategy_ "/strategy list" ])
    = Some active
    /\ Registry.enabled active = true.
Proof.
  destruct (proj2 (@activation_is_permanent
                     (fst (Registry.new_TechnicalStrategyManager Samples.config 0%float []))
                     "/strategy activate breakout" "Smart Breakout Trading"
                     [ Commands.Settp "/settp breakout 3 1 2";
                       Commands.Strategy_ "/strategy list" ]
                     eq_refl))
    as (active & H1 & H2 & _).
  exists active. split; [exact H1 | exact H2].
Defined.

(** X5 on the registry as the constructor builds it and the message
    [/strategy activate breakout]: the reply names the strategy, which is
    then enabled. *)
Lemma strategy_command_outcomes_witness :
  snd (Commands.strategyCommand
         (fst (Registry.new_TechnicalStrategyManager Samples.config 0%float []))
         "/strategy activate breakout")
  = Some (Commands.StrategyActivated "Smart Breakout Trading")
  /\ option_map Registry.enabled
       (Registry.Map_get
          (Registry.strategies
             (fst (Commands.strategyCommand
                     (fst (Registry.new_TechnicalStrategyManager Samples.config
                             0%float []))
                     "/strategy activate breakout")))
          "breakout")
     = Some true.
Proof.
  destruct (proj1 (proj2 (strategy_command_outcomes
                            (fst (Registry.new_TechnicalStrategyManager
                                    Samples.config 0%float []))
                            "/strategy activate breakout"))
              eq_refl "breakout"
              {| Registry.name := Registry.spec_name Registry.breakout;
                 Registry.description := Registry.spec_description Registry.breakout;
                 Registry.entryConditions :=
                   Registry.spec_entryConditions Registry.breakout;
                 Registry.enabled := false; Registry.timestamp := 0%float |}
              eq_refl ltac:(discriminate) eq_refl)
    as (Hreply & Hget & _).
  split; [exact Hreply |]. rewrite Hget. reflexivity.
Defined.

(* ================================================================== *)
(** * Facts about the preparation of a trade *)
(* ================================================================== *)

Section TradeFacts.

Import Risk Registry Bot.
Local Open Scope float_scope.

Lemma prepareTargets_spec (trade : Trade) (sizing : list PositionSize)
    (targets : list float) (index : nat) :
  match prepareTargets trade sizing index targets with
  | inl k =>
      k = Nat.max index (List.length sizing)
      /\ (List.length sizing < index + List.length targets)%nat
  | inr tps =>
      (targets = [] \/ index + List.length targets <= List.length sizing)%nat
      /\ List.length tps = List.length targets
      /\ forall i target,
           nth_error targets i = Some target ->
           exists ps,
             nth_error sizing (index + i) = Some ps
             /\ nth_error tps i
                = Some {| price := entryPrice trade * (1 + target / 100);
                          positionSize := percentage ps / 100 * size trade |}
  end.
Proof.
  revert index. induction targets as [| target targets IH]; intros index;
    cbn [prepareTargets].
  - split; [left; reflexivity | split; [reflexivity |]].
    intros [| i] t H; discriminate.
  - destruct (nth_error sizing index) as [ps |] eqn:Hnth.
    + assert (Hlt : (index < List.length sizing)%nat)
        by (apply nth_error_Some; congruence).
      specialize (IH (S index)).
      destruct (prepareTargets trade sizing (S index) targets) as [k | tps].
      * destruct IH as [-> Hlen]. cbn [List.length]. split; lia.
      * destruct IH as (Hlen & Hl & Hnths). cbn [List.length].
        split; [right; destruct Hlen as [-> | Hlen]; cbn [List.length]; lia |].
        split; [rewrite Hl; reflexivity |].
        intros [| i] t Ht; cbn [nth_error] in *.
        -- injection Ht as <-. exists ps. rewrite Nat.add_0_r. split; [exact Hnth | reflexivity].
        -- destruct (Hnths i t Ht) as (ps' & H1 & H2). exists ps'.
           replace (index + S i)%nat with (S index + i)%nat by lia.
           split; assumption.
    + apply nth_error_None in Hnth. cbn [List.length]. split; lia.
Qed.

(** Whether the preparation succeeds, and the index at which it fails, do
    not depend on the trade. *)
Lemma prepareTargets_shape (t1 t2 : Trade) (sizing : list PositionSize)
    (targets : list float) (index : nat) :
  match prepareTargets t1 sizing index targets,
        prepareTargets t2 sizing index targets with
  | inl a, inl b => a = b
  | inr _, inr _ => True
  | _, _ => False
  end.
Proof.
  revert index. induction targets as [| target targets IH]; intros index;
    cbn [prepareTargets]; [exact I |].
  destruct (nth_error sizing index); [| reflexivity].
  specialize (IH (S index)).
  destruct (prepareTargets t1 sizing (S index) targets),
           (prepareTargets t2 sizing (S index) targets); exact IH.
Qed.

(** X8.  The take-profit legs that [executeTrade] computes: when the sizing
    list has an entry for every target there is one leg per target, in
    order, with the price [entryPrice * (1 + target / 100)] and the size
    [percentage / 100 * size] of the entry at the same index; when the
    sizing list is shorter than the target list the computation stops with
    a [TypeError] at the first index without an entry, the length of the
    sizing list. *)
Theorem prepareTargets_outcomes (trade : Trade) (sizing : list PositionSize)
    (targets : list float) :
  match prepareTargets trade sizing 0 targets with
  | inl index =>
      index = List.length sizing
      /\ (List.length sizing < List.length targets)%nat
  | inr tps =>
      (List.length targets <= List.length sizing)%nat
      /\ List.length tps = List.length targets
      /\ forall i target,
           nth_error targets i = Some target ->
           exists ps,
             nth_error sizing i = Some ps
             /\ nth_error tps i
                = Some {| price := entryPrice trade * (1 + target / 100);
                          positionSize := percentage ps / 100 * size trade |}
  end.
Proof.
  pose proof (prepareTargets_spec trade sizing targets 0) as H.
  destruct (prepareTargets trade sizing 0 targets) as [k | tps].
  - destruct H as [-> Hlen]. cbn [Nat.max Nat.add] in *. split; [reflexivity | exact Hlen].
  - destruct H as (Hlen & Hl & Hnths). split; [| split; [exact Hl | exact Hnths]].
    destruct Hlen as [-> | Hlen]; cbn [List.length Nat.add] in *; lia.
Qed.

(** X9.  The outcome of [executeTrade] depends on the size of the trade and
    on nothing else in it: the entry price, the stop loss and the
    take-profit legs that the caller gave are never read by the checks
    (the stop loss and the legs are overwritten). *)
Theorem executeTrade_reads_the_size_only (fuel : nat)
    (mgr : TechnicalStrategyManager) (t1 t2 : Trade) :
  size t1 = size t2 ->
  executeTrade fuel mgr t1 = executeTrade fuel mgr t2.
Proof.
  revert t1 t2. induction fuel as [| fuel IH]; intros t1 t2 Hsize;
    cbn [executeTrade]; [reflexivity |].
  destruct (activeStrategy mgr) as [strategy |]; [| reflexivity].
  rewrite (validateStrategy_size mgr strategy t1 t2 Hsize).
  destruct (valid (validateStrategy mgr strategy t2)); cbn [negb]; [| reflexivity].
  pose proof (prepareTargets_shape t1 t2
                (positionSizing (entryConditions strategy))
                (takeProfitTargets (entryConditions strategy)) 0) as Hshape.
  destruct (prepareTargets t1 _ 0 _) as [a | tps1],
           (prepareTargets t2 _ 0 _) as [b | tps2]; try contradiction.
  - rewrite Hshape. reflexivity.
  - apply IH. exact Hsize.
Qed.

End TradeFacts.

(** X9 on two trades of size 50 that differ in everything else, on the
    registry with [breakout] activated. *)
Lemma executeTrade_reads_the_size_only_witness :
  Bot.executeTrade 25 Samples.manager_with_breakout Samples.trade
  = Bot.executeTrade 25 Samples.manager_with_breakout MoreSamples.same_size.
Proof.
  exact (@executeTrade_reads_the_size_only 25 Samples.manager_with_breakout
           Samples.trade MoreSamples.same_size eq_refl).
Defined.


(* ================================================================== *)
(** * Facts about the risk manager over its whole life *)
(* ================================================================== *)

Section RiskLifeFacts.

Import Risk.
Local Open Scope float_scope.

Lemma ltb_not_leb (a b : float) : (a <? b) = true -> (b <=? a) = false.
Proof.
  rewrite ltb_spec, leb_spec. unfold SFltb, SFleb.
  rewrite (SFcompare_antisym (Prim2SF b) (Prim2SF a)).
  destruct (SFcompare (Prim2SF a) (Prim2SF b)) as [[] |]; cbn; congruence.
Qed.

Lemma SFcompare_refl (x : spec_float) : x <> S754_nan -> SFcompare x x = Some Eq.
Proof.
  destruct x as [s | s | | s m e]; intros H; try congruence.
  - reflexivity.
  - destruct s; reflexivity.
  - cbn [SFcompare]. rewrite Z.compare_refl, Pos.compare_cont_refl.
    destruct s; reflexivity.
Qed.

Lemma is_nan_spec (a : float) : PrimFloat.is_nan a = true -> Prim2SF a = S754_nan.
Proof.
  unfold PrimFloat.is_nan. rewrite eqb_spec. unfold SFeqb. intros H.
  destruct (Prim2SF a) as [s | s | | s m e] eqn:E; [| | reflexivity |];
    rewrite SFcompare_refl in H; discriminate.
Qed.

Lemma ltb_nan (a b : float) : Prim2SF b = S754_nan -> (a <? b) = false.
Proof.
  intros Hb. rewrite ltb_spec, Hb. unfold SFltb.
  destruct (Prim2SF a) as [| [] | |]; reflexivity.
Qed.

Lemma mul_nan (a b : float) :
  Prim2SF a = S754_nan \/ Prim2SF b = S754_nan -> Prim2SF (a * b) = S754_nan.
Proof.
  rewrite mul_spec. intros [-> | ->]; [reflexivity |].
  destruct (Prim2SF a); reflexivity.
Qed.

Lemma div_nan (a b : float) :
  Prim2SF a = S754_nan -> Prim2SF (a / b) = S754_nan.
Proof.
  rewrite div_spec. intros ->. reflexivity.
Qed.

(** From its construction on, the world of the risk manager is a fixed
    point of every event. *)
Lemma step_boot (config : Config) (e : event) :
  step (boot config) e
  = (boot config,
     match e with
     | Tick t => Ran (if is_day_boundary t then 1 else 0)
     | Validate trade => Validated 0 (validateTrade (manager (boot config)) trade)
     end).
Proof.
  exact (step_after_reset config e).
Qed.

Lemma run_boot (config : Config) (es : list event) :
  run (boot config) es
  = (boot config,
     map (fun e => match e with
                   | Tick t => Ran (if is_day_boundary t then 1 else 0)
                   | Validate trade =>
                       Validated 0 (validateTrade (manager (boot config)) trade)
                   end) es).
Proof.
  induction es as [| e es IH]; cbn [run map]; [reflexivity |].
  rewrite step_boot, IH. reflexivity.
Qed.

(** X10.  Nothing ever charges the accumulator: in every run of the risk
    manager from its construction, through any clock ticks and validations,
    [dailyLoss] reads 0 and the manager stays as built.  So with a positive
    daily limit no trade is ever refused for the daily limit, and the
    verdict on a trade is that of the per-trade rule alone. *)
Theorem daily_limit_never_triggers (config : Config) (es : list event) :
  (0 <? maxDailyLoss (manager (boot config))) = true ->
  fst (run (boot config) es) = boot config
  /\ Forall2
       (fun e o =>
          match e with
          | Tick t => o = Ran (if is_day_boundary t then 1 else 0)
          | Validate trade =>
              o = Validated 0
                    (if gtb (size trade * (stopLoss trade / 100))
                            (maxLossPerTrade (manager (boot config)))
                     then {| valid := false;
                             reason := Some (TradeRiskExceedsMaximum
                                               (maxLossPerTrade (manager (boot config)))) |}
                     else {| valid := true; reason := None |})
          end)
       es (snd (run (boot config) es)).
Proof.
  intros Hpos. rewrite run_boot. cbn [fst snd]. split; [reflexivity |].
  induction es as [| e es IH]; cbn [map]; constructor; [| exact IH].
  destruct e as [t | trade]; [reflexivity |].
  unfold validateTrade, potentialLoss.
  change (dailyLoss (manager (boot config))) with 0.
  unfold geb at 1. rewrite (@ltb_not_leb _ _ Hpos). reflexivity.
Qed.

(** X12.  A trade whose size or stop loss is not a number passes the
    per-trade rule: its risk is [NaN], and no comparison with [NaN] holds.
    Unless the daily limit is reached, [validateTrade] accepts it. *)
Theorem validateTrade_accepts_NaN_risk (rm : RiskManager) (trade : Trade) :
  geb (dailyLoss rm) (maxDailyLoss rm) = false ->
  PrimFloat.is_nan (size trade) = true \/ PrimFloat.is_nan (stopLoss trade) = true ->
  PrimFloat.is_nan (potentialLoss trade) = true
  /\ validateTrade rm trade = {| valid := true; reason := None |}.
Proof.
  intros Hdaily Hnan.
  assert (H : Prim2SF (potentialLoss trade) = S754_nan).
  { unfold potentialLoss. apply mul_nan.
    destruct Hnan as [H | H]; [left | right; apply div_nan];
      apply is_nan_spec; exact H. }
  split.
  - unfold PrimFloat.is_nan. rewrite eqb_spec, H. reflexivity.
  - unfold validateTrade. rewrite Hdaily. unfold gtb.
    rewrite (@ltb_nan _ _ H). reflexivity.
Qed.

End RiskLifeFacts.

(** X10 on the configuration of [trading-bot.js] and a day of events. *)
Lemma daily_limit_never_triggers_witness :
  (0 <? Risk.maxDailyLoss (Risk.manager (Risk.boot Samples.config)))%float = true
  /\ fst (Risk.run (Risk.boot Samples.config) MoreSamples.day)
     = Risk.boot Samples.config.
Proof.
  split; [reflexivity |].
  exact (proj1 (@daily_limit_never_triggers Samples.config MoreSamples.day eq_refl)).
Defined.

(** X12 on [Samples.trade], which has no stop loss, and a fresh manager. *)
Lemma validateTrade_accepts_NaN_risk_witness :
  Risk.validateTrade Samples.fresh Samples.trade
  = {| Risk.valid := true; Risk.reason := None |}.
Proof.
  exact (proj2 (@validateTrade_accepts_NaN_risk Samples.fresh Samples.trade
                  eq_refl (or_intror eq_refl))).
Defined.

(* ================================================================== *)
(** * Facts about the authorized users and the notifications *)
(* ================================================================== *)

Section AccessFacts.

Import Analyzer Access.
Local Open Scope float_scope.

Lemma Set_has_In (s : list string) (x : string) : Set_has s x = true <-> In x s.
Proof.
  unfold Set_has. rewrite existsb_exists. split.
  - intros (y & Hy & E). apply String.eqb_eq in E. subst y. exact Hy.
  - intros H. exists x. split; [exact H | apply String.eqb_refl].
Qed.

Lemma fold_Set_add (l acc : list string) :
  NoDup acc ->
  NoDup (fold_left Set_add l acc)
  /\ forall x, In x (fold_left Set_add l acc) <-> In x acc \/ In x l.
Proof.
  revert acc. induction l as [| y l IH]; intros acc Hacc; cbn [fold_left].
  - split; [exact Hacc |]. intros x. cbn. tauto.
  - assert (Hstep : NoDup (Set_add acc y)
                    /\ forall x, In x (Set_add acc y) <-> In x acc \/ x = y).
    { unfold Set_add. destruct (Set_has acc y) eqn:E.
      - apply Set_has_In in E. split; [exact Hacc |].
        intros x. split; [tauto | intros [H | ->]; assumption].
      - split.
        + apply NoDup_app; [exact Hacc | repeat constructor; intros [] |].
          intros x Hx [<- | []]. apply Set_has_In in Hx. congruence.
        + intros x. rewrite in_app_iff. cbn. intuition congruence. }
    destruct Hstep as [Hnd Hin]. destruct (IH _ Hnd) as [IH1 IH2].
    split; [exact IH1 |]. intros x. rewrite IH2, Hin. cbn. intuition congruence.
Qed.

Lemma new_Set_spec (l : list string) :
  NoDup (new_Set l) /\ forall x, In x (new_Set l) <-> In x l.
Proof.
  destruct (@fold_Set_add l [] (NoDup_nil _)) as [H1 H2].
  split; [exact H1 |]. intros x. rewrite (H2 x). cbn. tauto.
Qed.

Lemma Set_has_new_Set (l : list string) (x : string) :
  Set_has (new_Set l) x = existsb (String.eqb x) l.
Proof.
  apply Bool.eq_true_iff_eq. rewrite Set_has_In, (proj2 (new_Set_spec l) x).
  exact (iff_sym (Set_has_In l x)).
Qed.

Lemma split_on_nonempty (sep : ascii) (s : string) : split_on sep s <> [].
Proof.
  destruct s as [| c s]; cbn; [discriminate |].
  destruct (Ascii.eqb c sep); [discriminate |].
  destruct (split_on sep s); discriminate.
Qed.

(** A loop whose body never rejects calls it for every user. *)
Lemma loop_total (body : string -> settlement unit) (users : list string) :
  (forall u, body u = Fulfilled tt) ->
  loop body users = {| called := users; settled := Fulfilled tt |}.
Proof.
  intros Hbody. unfold loop.
  assert (H : calls_of body users = users /\ snd (for_each body users) = None).
  { induction users as [| u users [IH1 IH2]]; cbn [calls_of for_each];
      [split; reflexivity |].
    rewrite Hbody. rewrite IH1.
    destruct (for_each body users) as [served e]. cbn [snd] in *.
    split; [reflexivity | exact IH2]. }
  destruct H as [-> ->]. reflexivity.
Qed.

Lemma sendTradeNotification_resolves (sendMessage : string -> settlement unit)
    (userId : string) :
  sendTradeNotification sendMessage userId = Fulfilled tt.
Proof.
  unfold sendTradeNotification. destruct (sendMessage userId); reflexivity.
Qed.

(** X13.  The handler of the [trade] event.  The authorized users are the
    distinct entries of the comma-separated list, each one once.  When the
    analysis is fulfilled with an overall score of at least 0.7 the handler
    calls [sendMessage] once for every authorized user, in order, and a
    delivery that fails does not keep the later users from their alert;
    with a lower score, or one that is not a number, it calls it for
    nobody; in both cases its promise is fulfilled.  When the analysis is
    rejected the handler is rejected with the same reason and nobody is
    called. *)
Theorem trade_alerts_reach_every_user (this : Collaborators)
    (AUTHORIZED_USERS : string) (sendMessage : string -> settlement unit)
    (tokenAddress chain : string) :
  let users := authorizedUsers AUTHORIZED_USERS in
  let h := onTrade this users sendMessage tokenAddress chain in
  NoDup users
  /\ (forall x, In x users <-> In x (split_on "," AUTHORIZED_USERS))
  /\ match outcome (analyzeTradeOpportunity this tokenAddress chain) with
     | Rejected e => called h = [] /\ settled h = Rejected e
     | Fulfilled enhancedAnalysis =>
         settled h = Fulfilled tt
         /\ called h
            = if ge (overallScore enhancedAnalysis) (VNumber 0.7)
              then users else []
     end.
Proof.
  cbv zeta. unfold authorizedUsers.
  destruct (new_Set_spec (split_on "," AUTHORIZED_USERS)) as [Hnd Hin].
  split; [exact Hnd | split; [exact Hin |]].
  unfold onTrade.
  destruct (outcome (analyzeTradeOpportunity this tokenAddress chain)) as [a | e];
    [| split; reflexivity].
  destruct (ge (overallScore a) (VNumber 0.7)); [| split; reflexivity].
  rewrite loop_total by apply sendTradeNotification_resolves.
  split; reflexivity.
Qed.

(** X14.  The handler of the [error] event has no [try]: it calls
    [sendErrorNotification] for the users in order and stops at the first
    call that is rejected.  The users after that one are not called, and the
    handler is rejected with that reason; it is fulfilled, having called
    everybody, only when no call is rejected. *)
Theorem error_alerts_stop_at_the_first_failure
    (sendErrorNotification : string -> settlement unit) (users : list string) :
  exists rest,
    users = (called (onError sendErrorNotification users) ++ rest)%list
    /\ match settled (onError sendErrorNotification users) with
       | Fulfilled _ =>
           rest = []
           /\ Forall (fun u => sendErrorNotification u = Fulfilled tt) users
       | Rejected e =>
           exists served u,
             called (onError sendErrorNotification users) = (served ++ [u])%list
             /\ sendErrorNotification u = Rejected e
             /\ Forall (fun u' => sendErrorNotification u' = Fulfilled tt) served
       end.
Proof.
  unfold onError, loop. cbn [called settled].
  induction users as [| u users (rest & Hcalled & IH)]; cbn [calls_of for_each].
  - exists []. split; [reflexivity | split; [reflexivity | constructor]].
  - destruct (sendErrorNotification u) as [[] | e] eqn:Hu.
    + exists rest. split; [cbn [app]; f_equal; exact Hcalled |].
      destruct (for_each sendErrorNotification users) as [served0 [e |]];
        cbn [snd] in *.
      * destruct IH as (served & u' & Hc & Hrej & Hserved).
        exists (u :: served), u'. rewrite Hc.
        split; [reflexivity | split; [exact Hrej |]].
        constructor; assumption.
      * destruct IH as [-> Hall]. split; [reflexivity |].
        constructor; assumption.
    + exists users. cbn [snd]. split; [reflexivity |].
      exists [], u. split; [reflexivity | split; [exact Hu | constructor]].
Qed.

Lemma add_nan_r (a b : float) :
  Prim2SF b = S754_nan -> Prim2SF (a + b) = S754_nan.
Proof.
  rewrite add_spec. intros ->. destruct (Prim2SF a); reflexivity.
Qed.

Lemma add_nan_l (a b : float) :
  Prim2SF a = S754_nan -> Prim2SF (a + b) = S754_nan.
Proof.
  rewrite add_spec. intros ->. reflexivity.
Qed.

Lemma leb_nan_r (a b : float) : Prim2SF b = S754_nan -> (a <=? b) = false.
Proof.
  intros Hb. rewrite leb_spec, Hb. unfold SFleb.
  destruct (Prim2SF a) as [| [] | |]; reflexivity.
Qed.

(** X15.  If [computeWeightedScore] adds the four components it is given,
    as the specification describes it, then the overall score of every
    analysis is [NaN], because the smart-money component is: no analysis
    reaches the threshold of 0.7, and the handler of the [trade] event
    never sends an alert to anybody. *)
Theorem trade_alerts_are_never_sent (this : Collaborators)
    (users : list string) (sendMessage : string -> settlement unit)
    (tokenAddress chain : string) :
  (forall o,
      computeWeightedScore this o
      = VNumber (ToNumber (get o "whaleScore") + ToNumber (get o "healthScore")
                 + ToNumber (get o "smartMoneyScore")
                 + ToNumber (get o "riskScore"))) ->
  called (onTrade this users sendMessage tokenAddress chain) = []
  /\ forall r, ge (overallScore (analyze this r)) (VNumber 0.7) = false.
Proof.
  intros Hsum.
  assert (Hlow : forall r, ge (overallScore (analyze this r)) (VNumber 0.7) = false).
  { intros [[[w m] f] ms]. unfold analyze. cbn [overallScore]. rewrite Hsum.
    cbn [get String.eqb Ascii.eqb Bool.eqb]. unfold ge. cbn [ToPrimitive ToNumber].
    apply leb_nan_r. apply add_nan_l. apply add_nan_r. reflexivity. }
  split; [| exact Hlow].
  unfold onTrade, analyzeTradeOpportunity, await_then. cbn [outcome].
  destruct (outcome (Promise_all4 _ _ _ _)) as [r |]; [| reflexivity].
  rewrite Hlow. reflexivity.
Qed.

Lemma split_on_word (sep : ascii) (w : string) :
  ~ In sep (list_ascii_of_string w) -> split_on sep w = [w].
Proof.
  induction w as [| c w IH]; cbn; intros H; [reflexivity |].
  destruct (Ascii.eqb c sep) eqn:E.
  - apply Ascii.eqb_eq in E. tauto.
  - rewrite IH by tauto. reflexivity.
Qed.

Lemma split_on_app (sep : ascii) (w r : string) :
  ~ In sep (list_ascii_of_string w) ->
  split_on sep (w ++ String sep r) = w :: split_on sep r.
Proof.
  induction w as [| c w IH]; cbn; intros H.
  - rewrite Ascii.eqb_refl. reflexivity.
  - destruct (Ascii.eqb c sep) eqn:E.
    + apply Ascii.eqb_eq in E. tauto.
    + rewrite IH by tauto. reflexivity.
Qed.

(** Splitting what [join] put together gives the words back, as long as no
    word holds the separator. *)
Lemma split_on_join (sep : ascii) (l : list string) :
  l <> [] -> Forall (fun w => ~ In sep (list_ascii_of_string w)) l ->
  split_on sep (join_with sep l) = l.
Proof.
  induction l as [| w l IH]; [congruence |]. intros _ H.
  apply Forall_cons_iff in H as [Hw Hl].
  destruct l as [| w' l]; cbn [join_with].
  - apply split_on_word. exact Hw.
  - rewrite split_on_app by exact Hw. f_equal. apply IH; [discriminate | exact Hl].
Qed.

Lemma digits_hold_no_comma (d : Decimal.uint) :
  ~ In ","%char (list_ascii_of_string (NilEmpty.string_of_uint d)).
Proof.
  induction d; cbn; intros H; try (destruct H as [H | H]; [discriminate | auto]).
  exact H.
Qed.

Lemma id_toString_no_comma (id : UserId) :
  ~ In ","%char (list_ascii_of_string (id_toString id)).
Proof.
  unfold id_toString, NilZero.string_of_uint.
  destruct (N.to_uint (id_value id)) eqn:E;
    try (rewrite <- E; apply digits_hold_no_comma).
  cbn. intros [H | []]. discriminate.
Qed.

Lemma id_toString_not_empty (id : UserId) : id_toString id <> ""%string.
Proof.
  unfold id_toString, NilZero.string_of_uint.
  destruct (N.to_uint (id_value id)); cbn; discriminate.
Qed.

Lemma id_toString_inj (a b : UserId) :
  id_toString a = id_toString b -> id_value a = id_value b.
Proof.
  unfold id_toString. intros H.
  assert (Hinv : forall n,
             option_map N.of_uint
               (NilZero.uint_of_string (NilZero.string_of_uint (N.to_uint n)))
             = Some n).
  { intros n. destruct (N.to_uint n) eqn:E;
      try (rewrite NilZero.usu by discriminate; cbn [option_map];
           rewrite <- E, DecimalN.Unsigned.of_to; reflexivity).
    rewrite NilZero.usu_nil. cbn [option_map].
    rewrite <- (DecimalN.Unsigned.of_to n), E. reflexivity. }
  pose proof (Hinv (id_value a)) as Ha. rewrite H, Hinv in Ha. congruence.
Qed.

Lemma id_toString_eqb (a b : UserId) :
  String.eqb (id_toString a) (id_toString b) = N.eqb (id_value a) (id_value b).
Proof.
  destruct (N.eqb_spec (id_value a) (id_value b)) as [E | Hne].
  - unfold id_toString. rewrite E. apply String.eqb_refl.
  - apply String.eqb_neq. intros H. apply Hne, id_toString_inj, H.
Qed.

(** X16.  User ids are natural numbers below [2 ^ 53], which [toString]
    prints digit for digit.  When [AUTHORIZED_USERS] is the list of the ids
    of some users, joined by commas, the middleware lets an update through
    exactly when it comes from one of these users, and answers every other
    sender with the refusal. *)
Theorem listed_ids_are_authorized (ids : list UserId) (id : UserId) :
  authMiddleware
    (authorizedUsers (join_with "," (map id_toString ids))) id
  = if existsb (fun listed => N.eqb (id_value id) (id_value listed)) ids
    then Next else Unauthorized.
Proof.
  unfold authMiddleware, authorizedUsers. rewrite Set_has_new_Set.
  destruct ids as [| i0 ids].
  - cbn. rewrite Bool.orb_false_r.
    destruct (String.eqb_spec (id_toString id) "") as [E |]; [| reflexivity].
    exfalso. exact (@id_toString_not_empty id E).
  - rewrite split_on_join.
    + assert (Hex : forall l,
                 existsb (String.eqb (id_toString id)) (map id_toString l)
                 = existsb (fun listed => N.eqb (id_value id) (id_value listed)) l).
      { induction l as [| a l IH]; cbn [map existsb]; [reflexivity |].
        rewrite id_toString_eqb, IH. reflexivity. }
      rewrite Hex.
      destruct (existsb (fun listed => N.eqb (id_value id) (id_value listed))
                  (i0 :: ids)); reflexivity.
    + discriminate.
    + apply Forall_forall. intros w Hw. apply in_map_iff in Hw as (n & <- & _).
      apply id_toString_no_comma.
Qed.

End AccessFacts.

(** X15 on collaborators whose [computeWeightedScore] is that sum and whose
    four providers succeed. *)
Lemma trade_alerts_are_never_sent_witness :
  Access.called
    (Access.onTrade Samples.healthy ["1001"; "1002"]
       (fun _ => Fulfilled tt) "0xabc" "ethereum")
  = [].
Proof.
  exact (proj1 (@trade_alerts_are_never_sent Samples.healthy ["1001"; "1002"]
                  (fun _ => Fulfilled tt) "0xabc" "ethereum"
                  (fun o => eq_refl))).
Defined.

(** X16 on [AUTHORIZED_USERS = "1001,1002"]: the user 1002 is let through,
    the user 7 is refused. *)
Lemma listed_ids_are_authorized_witness :
  Access.authMiddleware (Access.authorizedUsers "1001,1002") MoreSamples.bob
  = Access.Next
  /\ Access.authMiddleware (Access.authorizedUsers "1001,1002")
       MoreSamples.stranger
     = Access.Unauthorized.
Proof.
  split.
  - exact (listed_ids_are_authorized [MoreSamples.alice; MoreSamples.bob]
             MoreSamples.bob).
  - exact (listed_ids_are_authorized [MoreSamples.alice; MoreSamples.bob]
             MoreSamples.stranger).
Defined.

(* ================================================================== *)
(** * Facts about the start-up script and the risk settings *)
(* ================================================================== *)

Section StartupFacts.

Import Risk Registry Bot Access Startup.
Local Open Scope float_scope.

Lemma or_default_truthy (x : option float) (d : float) :
  ToBoolean (VNumber d) = true -> ToBoolean (VNumber (or_default x d)) = true.
Proof.
  intros Hd. unfold or_default. destruct x as [f |]; [| exact Hd].
  destruct (ToBoolean (VNumber f)) eqn:E; [exact E | exact Hd].
Qed.

Lemma or_default_twice (f d : float) :
  ToBoolean (VNumber d) = true ->
  or_default (Some (or_default (Some f) d)) d = or_default (Some f) d.
Proof.
  intros Hd. unfold or_default at 1.
  rewrite (@or_default_truthy (Some f) d Hd). reflexivity.
Qed.

Lemma env_value_truthy (env : Env) (k : string) :
  ToBoolean (env_value env k) = true ->
  exists s, Map_get env k = Some s /\ s <> ""%string.
Proof.
  unfold env_value. destruct (Map_get env k) as [s |]; cbn; [| discriminate].
  intros H. exists s. split; [reflexivity |].
  apply String.eqb_neq. apply Bool.negb_true_iff. exact H.
Qed.

(** X11.  The risk settings are never zero and never [NaN]: the
    constructor replaces an absent, zero or [NaN] setting by its default (2,
    6 and 5) and keeps every other number, negative ones and infinities
    included; the accumulator starts at 0.  For the configuration that the
    start-up script reads from the environment, each limit is the number
    that [parseFloat] finds at the head of the variable when that number is
    neither 0 nor [NaN], and the default otherwise; a limit of 0 cannot be
    configured. *)
Theorem risk_limits_are_never_zero :
  (forall (config : Config) (js : list Job),
      let rm := fst (new_RiskManager config js) in
      ToBoolean (VNumber (maxLossPerTrade rm)) = true
      /\ ToBoolean (VNumber (maxDailyLoss rm)) = true
      /\ ToBoolean (VNumber (maxPositionSize rm)) = true
      /\ dailyLoss rm = 0
      /\ (forall f, PrimFloat.is_zero f || PrimFloat.is_nan f = false ->
            (cfg_maxLossPerTrade config = Some f -> maxLossPerTrade rm = f)
            /\ (cfg_maxDailyLoss config = Some f -> maxDailyLoss rm = f)
            /\ (cfg_maxPositionSize config = Some f -> maxPositionSize rm = f)))
  /\ (forall (env : Env) (now : float) (js : list Job),
         let rm := riskManager
                     (fst (new_TechnicalStrategyManager (risk (config env)) now js)) in
         let setting k d :=
           let f := parseFloat_env env k in
           if PrimFloat.is_zero f || PrimFloat.is_nan f then d else f in
         maxLossPerTrade rm = setting "MAX_LOSS_PER_TRADE"%string 2
         /\ maxDailyLoss rm = setting "MAX_DAILY_LOSS"%string 6
         /\ maxPositionSize rm = setting "MAX_POSITION_SIZE"%string 5)
  /\ (forall (config : Config) (js : list Job),
         let rm := fst (new_RiskManager config js) in
         let setting x d :=
           match x with
           | Some f => if PrimFloat.is_zero f || PrimFloat.is_nan f then d else f
           | None => d
           end in
         maxLossPerTrade rm = setting (cfg_maxLossPerTrade config) 2
         /\ maxDailyLoss rm = setting (cfg_maxDailyLoss config) 6
         /\ maxPositionSize rm = setting (cfg_maxPositionSize config) 5).
Proof.
  split; [| split].
  - intros config js. cbv zeta. cbn [new_RiskManager fst maxLossPerTrade
      maxDailyLoss maxPositionSize dailyLoss].
    repeat split; try (apply or_default_truthy; reflexivity);
      try reflexivity; intros ->; unfold or_default, ToBoolean; rewrite H;
      reflexivity.
  - intros env now js. cbv zeta.
    unfold new_TechnicalStrategyManager, new_RiskManager.
    cbn [fst riskManager maxLossPerTrade maxDailyLoss maxPositionSize
         risk config cfg_maxLossPerTrade cfg_maxDailyLoss cfg_maxPositionSize].
    rewrite !or_default_twice by reflexivity.
    unfold or_default, ToBoolean.
    repeat split;
      match goal with
      | |- context [PrimFloat.is_zero ?f || PrimFloat.is_nan ?f] =>
          destruct (PrimFloat.is_zero f || PrimFloat.is_nan f); reflexivity
      end.
  - intros config js. cbv zeta.
    cbn [new_RiskManager fst maxLossPerTrade maxDailyLoss maxPositionSize].
    unfold or_default, ToBoolean.
    repeat split;
      match goal with
      | |- context [match ?x with Some _ => _ | None => _ end] =>
          destruct x as [f |];
          [destruct (PrimFloat.is_zero f || PrimFloat.is_nan f) |]; reflexivity
      end.
Qed.

Lemma new_Set_nonempty (l : list string) : l <> [] -> new_Set l <> [].
Proof.
  destruct l as [| x l]; [congruence |]. intros _ H.
  pose proof (proj2 (proj2 (new_Set_spec (x :: l)) x) (or_introl eq_refl)) as Hin.
  rewrite H in Hin. exact Hin.
Qed.

(** X17.  The start-up script ends with exit code 1, naming the variables
    concerned, as soon as one of the four required variables is unset or
    empty.  Once that check has passed, the constructor's [split] always
    finds a text: only an exception from the parts that the sources do not
    define can still end the script.  When there is none the bot is built
    with a set of authorized users that has at least one member, the only
    scheduled job is the daily reset, and no strategy is active yet. *)
Theorem startup_outcomes (external : BotConfig -> bool) (env : Env) (now : float) :
  match main external env now with
  | Exit code missing =>
      code = 1%nat /\ missing = missingEnvVars env
      /\ ((exists k, In k requiredEnvVars /\ ToBoolean (env_value env k) = false)
          \/ (missing = [] /\ external (config env) = false))
  | Running b js =>
      external (config env) = true
      /\ (forall k, In k requiredEnvVars ->
            exists s, Map_get env k = Some s /\ s <> ""%string)
      /\ (exists s, Map_get env "AUTHORIZED_USERS" = Some s
                    /\ bot_authorizedUsers b = authorizedUsers s)
      /\ bot_authorizedUsers b <> []
      /\ js = resetDailyLoss []
      /\ activeStrategy (strategyManager b) = None
  end.
Proof.
  unfold main.
  destruct (missingEnvVars env) as [| k0 missing] eqn:Hmissing.
  - assert (Hall : forall k, In k requiredEnvVars ->
                     ToBoolean (env_value env k) = true).
    { intros k Hk. destruct (ToBoolean (env_value env k)) eqn:E; [reflexivity |].
      assert (Hin : In k (missingEnvVars env))
        by (apply filter_In; split; [exact Hk | rewrite E; reflexivity]).
      rewrite Hmissing in Hin. destruct Hin. }
    destruct (@env_value_truthy env "AUTHORIZED_USERS") as (s & Hs & Hne);
      [apply Hall; cbn; tauto |].
    unfold new_TradingBot.
    destruct (external (config env)) eqn:Hext;
      [| split; [reflexivity | split; [reflexivity | right; split; reflexivity]]].
    unfold new_TechnicalStrategyManager, new_RiskManager.
    cbn [config AUTHORIZED_USERS]. unfold env_value. rewrite Hs.
    cbn [strategyManager bot_authorizedUsers].
    split; [reflexivity |].
    split; [intros k Hk; apply env_value_truthy, Hall, Hk |].
    split; [exists s; split; reflexivity |].
    split; [apply new_Set_nonempty, split_on_nonempty |].
    split; reflexivity.
  - split; [reflexivity | split; [reflexivity | left]].
    assert (Hin : In k0 (missingEnvVars env))
      by (rewrite Hmissing; left; reflexivity).
    apply filter_In in Hin as [Hk Hfalse]. exists k0.
    split; [exact Hk | apply Bool.negb_true_iff; exact Hfalse].
Qed.

End StartupFacts.

(* ================================================================== *)
(** * More facts about the analyzer *)
(* ================================================================== *)

Section AnalyzerOrder.

Import Analyzer.
Local Open Scope float_scope.

Variable this : Collaborators.

(** A weighted term grows with the term, and stays a number. *)
Lemma weighted_term_mono (x y w : float) :
  (0 <=? x) = true -> (x <=? y) = true -> (y <=? 1) = true ->
  fnn (Prim2SF w) ->
  (0 <=? x * w) = true /\ (x * w <=? y * w) = true
  /\ (y * w <=? 1 * w) = true /\ (0 <=? y * w) = true.
Proof.
  intros H0 Hxy Hy1 Hw.
  assert (F1 : fnn (Prim2SF 1)) by (vm_compute; exact I).
  assert (H0y : (0 <=? y) = true) by (eapply leb_trans; eassumption).
  assert (Fy : fnn (Prim2SF y)) by (eapply fnn_between; eassumption).
  destruct (@mul_bounds x y w H0 Hxy Fy Hw) as [A B].
  destruct (@mul_bounds y 1 w H0y Hy1 F1 Hw) as [C D].
  repeat split; assumption.
Qed.

(** X18.  Within the range that the specification gives to the three terms
    of the whale score, the score is monotone: metrics with at least the
    buy pressure, the holding quality and the size impact of other metrics
    never score lower, rounding included. *)
Theorem whaleScore_is_monotone (m m' : WhaleMetrics) :
  let buyPressure x := volume (recentBuys x) / timeFrame (recentBuys x) in
  let holdingQuality x := holdingTime x * wm_walletAge x in
  let sizeImpact x := normalizeTradeSize this (tradeSize x) in
  (0 <=? buyPressure m) = true -> (buyPressure m <=? buyPressure m') = true ->
  (buyPressure m' <=? 1) = true ->
  (0 <=? holdingQuality m) = true ->
  (holdingQuality m <=? holdingQuality m') = true ->
  (holdingQuality m' <=? 1) = true ->
  (0 <=? sizeImpact m) = true -> (sizeImpact m <=? sizeImpact m') = true ->
  (sizeImpact m' <=? 1) = true ->
  (calculateWhaleScore this m <=? calculateWhaleScore this m') = true.
Proof.
  cbv zeta. intros B0 B1 B2 H0 H1 H2 S0 S1 S2. unfold calculateWhaleScore.
  assert (F04 : fnn (Prim2SF 0.4)) by (vm_compute; exact I).
  assert (F02 : fnn (Prim2SF 0.2)) by (vm_compute; exact I).
  assert (F08 : fnn (Prim2SF 0.8)) by (vm_compute; exact I).
  destruct (@weighted_term_mono _ _ _ B0 B1 B2 F04) as (Ba & Bb & Bc & Bd).
  destruct (@weighted_term_mono _ _ _ H0 H1 H2 F04) as (Ha & Hb & Hc & Hd).
  destruct (@weighted_term_mono _ _ _ S0 S1 S2 F02) as (Sa & Sb & Sc & Sd).
  change (1 * 0.4) with 0.4 in Bc, Hc. change (1 * 0.2) with 0.2 in Sc.
  assert (FB : fnn (Prim2SF (volume (recentBuys m') / timeFrame (recentBuys m') * 0.4)))
    by (eapply fnn_between; eassumption).
  assert (FH : fnn (Prim2SF (holdingTime m' * wm_walletAge m' * 0.4)))
    by (eapply fnn_between; eassumption).
  assert (FS : fnn (Prim2SF (normalizeTradeSize this (tradeSize m') * 0.2)))
    by (eapply fnn_between; eassumption).
  destruct (@add_bounds _ _ _ _ Ba Bb FB Ha Hb FH) as [A0 A1].
  destruct (@add_bounds _ _ _ _ Bd Bc F04 Hd Hc F04) as [A2 A3].
  change (0.4 + 0.4) with 0.8 in A3.
  assert (FA : fnn (Prim2SF (volume (recentBuys m') / timeFrame (recentBuys m') * 0.4
                             + holdingTime m' * wm_walletAge m' * 0.4)))
    by (eapply fnn_between; eassumption).
  exact (proj2 (@add_bounds _ _ _ _ A0 A1 FA Sa Sb FS)).
Qed.

(** X19.  The action of an analysis is decided by the risk score and the
    health score alone: [AVOID] when the risk score is below 0.7, else
    [WAIT] when the health score is below 0.5, else [MONITOR].  The whale
    activity and the smart-money flow have no part in it. *)
Theorem action_depends_on_risk_and_health
    (whaleActivity : WhaleActivity) (tokenMetrics : TokenMetrics)
    (smartMoneyFlow : SmartMoneyFlow) (manipulationScore : ManipulationScore) :
  action (recommendation
            (analyze this (whaleActivity, tokenMetrics, smartMoneyFlow,
                           manipulationScore)))
  = if calculateRiskScore this manipulationScore <? 0.7 then AVOID
    else if calculateHealthScore this tokenMetrics <? 0.5 then WAIT
    else MONITOR.
Proof.
  unfold analyze. cbn [recommendation]. unfold generateTradeRecommendation.
  cbn [action]. unfold determineAction, scores_of.
  cbn [get String.eqb Ascii.eqb Bool.eqb].
  rewrite gt_undefined_number, gt_object_number, Bool.andb_false_r, !lt_numbers.
  reflexivity.
Qed.

(** X21.  The score that [analyzeSmartMoney] puts in its result is the
    weighted sum [0.4 * netFlow + 0.3 * accumulation + 0.3 * walletQuality],
    with [netFlow = inflowRate - outflowRate], the accumulation computed
    from [flow.pattern] and the wallet quality from [flow.walletQuality]; it
    lies in [[0, 1]] whenever the three terms do, rounding included. *)
Theorem smartMoney_score_range (flow : Flow) :
  let netFlow := inflowRate flow - outflowRate flow in
  let accumulation := analyzeAccumulationPattern this (fl_pattern flow) in
  let walletQuality := assessWalletQuality this (fl_walletQuality flow) in
  in_unit_interval netFlow = true ->
  in_unit_interval accumulation = true ->
  in_unit_interval walletQuality = true ->
  exists score,
    get (analyzeSmartMoney this flow) "score" = VNumber score
    /\ score = netFlow * 0.4 + accumulation * 0.3 + walletQuality * 0.3
    /\ in_unit_interval score = true.
Proof.
  cbv zeta. intros Hn Ha Hw. eexists. split; [reflexivity | split; [reflexivity |]].
  assert (F04 : fnn (Prim2SF 0.4)) by (vm_compute; exact I).
  assert (F03 : fnn (Prim2SF 0.3)) by (vm_compute; exact I).
  assert (F07 : fnn (Prim2SF (0.4 + 0.3))) by (vm_compute; exact I).
  destruct (@weighted_term _ _ Hn F04) as [N0 N1].
  destruct (@weighted_term _ _ Ha F03) as [A0 A1].
  destruct (@weighted_term _ _ Hw F03) as [W0 W1].
  change (1 * 0.4) with 0.4 in N1. change (1 * 0.3) with 0.3 in A1, W1.
  destruct (@add_bounds _ _ _ _ N0 N1 F04 A0 A1 F03) as [S0 S1].
  destruct (@add_bounds _ _ _ _ S0 S1 F07 W0 W1 F03) as [T0 T1].
  change (0.4 + 0.3 + 0.3) with 1 in T1.
  unfold in_unit_interval. rewrite T0, T1. reflexivity.
Qed.

Lemma is_zero_spec (x : float) :
  PrimFloat.is_zero x = true -> exists s, Prim2SF x = S754_zero s.
Proof.
  unfold PrimFloat.is_zero. rewrite eqb_spec.
  change (Prim2SF 0) with (S754_zero false). unfold SFeqb.
  destruct (Prim2SF x) as [s | s | | s m e]; cbn.
  - intros _. exists s. reflexivity.
  - destruct s; discriminate.
  - discriminate.
  - destruct s; discriminate.
Qed.

(** X22.  Nothing guards the division by the time frame: for whales that
    bought nothing in a time frame of zero, the buy pressure is [0 / 0] and
    the whale score is [NaN], whatever the other metrics and the
    normalizer. *)
Theorem whaleScore_of_an_empty_time_frame (metrics : WhaleMetrics) :
  PrimFloat.is_zero (volume (recentBuys metrics)) = true ->
  PrimFloat.is_zero (timeFrame (recentBuys metrics)) = true ->
  PrimFloat.is_nan (calculateWhaleScore this metrics) = true
  /\ Js.gt (VNumber (calculateWhaleScore this metrics)) (VNumber 0.8) = false.
Proof.
  intros Hv Ht.
  destruct (@is_zero_spec _ Hv) as [sv Ev], (@is_zero_spec _ Ht) as [st Et].
  assert (H : Prim2SF (calculateWhaleScore this metrics) = S754_nan).
  { unfold calculateWhaleScore. apply add_nan_l, add_nan_l, mul_nan. left.
    rewrite div_spec, Ev, Et. reflexivity. }
  split.
  - unfold PrimFloat.is_nan. rewrite eqb_spec, H. reflexivity.
  - rewrite gt_numbers. exact (@ltb_nan _ _ H).
Qed.

End AnalyzerOrder.

(** X21 on [MoreSamples.steady_flow], a flow without a [pattern] property,
    and collaborators that tell a pattern from its absence: the terms are
    0.8, 0 and 0.8, the score is [0.8 * 0.4 + 0 * 0.3 + 0.8 * 0.3]. *)
Lemma smartMoney_score_range_witness :
  exists score,
    get (Analyzer.analyzeSmartMoney MoreSamples.pattern_reader MoreSamples.steady_flow)
        "score" = VNumber score
    /\ score = ((0.9 - 0.1) * 0.4 + 0 * 0.3 + 0.8 * 0.3)%float
    /\ Analyzer.in_unit_interval score = true.
Proof.
  destruct (@smartMoney_score_range MoreSamples.pattern_reader MoreSamples.steady_flow
              eq_refl eq_refl eq_refl) as (score & H1 & H2 & H3).
  exists score. split; [exact H1 | split; [exact H2 | exact H3]].
Defined.

(** X22 on [MoreSamples.idle_whales]. *)
Lemma whaleScore_of_an_empty_time_frame_witness :
  PrimFloat.is_nan
    (Analyzer.calculateWhaleScore Samples.collaborators MoreSamples.idle_whales)
  = true.
Proof.
  exact (proj1 (@whaleScore_of_an_empty_time_frame Samples.collaborators
                  MoreSamples.idle_whales eq_refl eq_refl)).
Defined.

(** X18 on [Samples.steady_buying] and [MoreSamples.stronger_buying]. *)
Lemma whaleScore_is_monotone_witness :
  (Analyzer.calculateWhaleScore Samples.collaborators Samples.steady_buying
   <=? Analyzer.calculateWhaleScore Samples.collaborators MoreSamples.stronger_buying)%float
  = true.
Proof.
  exact (@whaleScore_is_monotone Samples.collaborators Samples.steady_buying
           MoreSamples.stronger_buying
           eq_refl eq_refl eq_refl eq_refl eq_refl eq_refl eq_refl eq_refl eq_refl).
Defined.

(* ================================================================== *)
(** * Facts about the coercion of a text to a number *)
(* ================================================================== *)

Ltac split_conditions H :=
  repeat match type of H with
         | (if ?b then _ else _) = _ =>
             let E := fresh "E" in destruct b eqn:E
         end.

Ltac no_bracket :=
  repeat match goal with
         | H : (_ && _)%bool = true |- _ => apply andb_prop in H; destruct H
         end;
  let Hin := fresh "Hin" in
  intros Hin; cbn [list_ascii_of_string In] in Hin;
  repeat (destruct Hin as [Hin | Hin];
          [subst;
           repeat match goal with
                  | H : context [nat_of_ascii "["] |- _ => vm_compute in H
                  end;
           congruence |]);
  exact Hin.

Section CoercionFacts.

Import Analyzer.
Local Open Scope string_scope.

Variable this : Collaborators.

Lemma substring_all (s : string) : String.substring 0 (String.length s) s = s.
Proof. induction s as [| c s IH]; cbn; [| rewrite IH]; reflexivity. Qed.

Lemma prefix_drop (p s : string) :
  String.prefix p s = true ->
  s = p ++ String.substring (String.length p) (String.length s - String.length p) s.
Proof.
  revert s. induction p as [| a p IH]; intros s H.
  - cbn. rewrite Nat.sub_0_r, substring_all. reflexivity.
  - destruct s as [| b s]; cbn in H; [discriminate |].
    destruct (ascii_dec a b) as [<- |]; [| discriminate].
    cbn. f_equal. apply IH. exact H.
Qed.

Lemma prefix_refl_app (p t : string) : String.prefix p (p ++ t) = true.
Proof.
  induction p as [| a p IH]; cbn; [destruct t; reflexivity |].
  destruct (ascii_dec a a); [exact IH | congruence].
Qed.

Lemma In_append (c : ascii) (p t : string) :
  In c (list_ascii_of_string (p ++ t))
  <-> In c (list_ascii_of_string p) \/ In c (list_ascii_of_string t).
Proof.
  induction p as [| a p IH]; cbn; [tauto |]. rewrite IH. tauto.
Qed.

(** The white space at the head of a text holds no bracket. *)
Lemma ws_prefix (s : string) (n : nat) :
  ws_length s = S n ->
  exists p, String.prefix p s = true /\ String.length p = S n
            /\ ~ In "["%char (list_ascii_of_string p).
Proof.
  intros Hws. destruct s as [| c r]; [discriminate |].
  unfold ws_length in Hws. cbv zeta in Hws.
  destruct ((9 <=? nat_of_ascii c) && (nat_of_ascii c <=? 13)
            || (nat_of_ascii c =? 32))%nat eqn:E1.
  - injection Hws as <-. exists (String c "").
    split; [apply (prefix_refl_app (String c "") r) | split; [reflexivity |]].
    intros [-> | []]. discriminate.
  - destruct r as [| c2 [| c3 r3]]; [discriminate | |];
      split_conditions Hws; try discriminate; injection Hws as <-.
  all: try (exists (String c (String c2 ""));
              split; [apply (prefix_refl_app (String c (String c2 "")))
                     | split; [reflexivity |]]).
  all: try (exists (String c (String c2 (String c3 "")));
              split; [apply (prefix_refl_app (String c (String c2 (String c3 ""))))
                     | split; [reflexivity |]]).
  all: no_bracket.
Qed.

Lemma ws_keeps_bracket (s : string) (n : nat) :
  In "["%char (list_ascii_of_string s) -> ws_length s = S n ->
  In "["%char
     (list_ascii_of_string
        (String.substring (S n) (String.length s - S n) s)).
Proof.
  intros HB Hws.
  destruct (ws_prefix s Hws) as (p & Hpre & Hlen & Hno).
  pose proof (prefix_drop p s Hpre) as Hs. rewrite Hlen in Hs.
  rewrite Hs in HB. apply In_append in HB. tauto.
Qed.

Lemma trim_start_fuel_keeps_bracket (fuel : nat) (s : string) :
  In "["%char (list_ascii_of_string s) ->
  In "["%char (list_ascii_of_string (trim_start_fuel fuel s)).
Proof.
  revert s. induction fuel as [| fuel IH]; intros s HB; cbn [trim_start_fuel];
    [exact HB |].
  destruct (ws_length s) as [| n] eqn:E; [exact HB |].
  apply IH. apply ws_keeps_bracket; assumption.
Qed.

Lemma all_ws_bracket (s : string) :
  In "["%char (list_ascii_of_string s) -> all_ws s = false.
Proof.
  intros HB. unfold all_ws, trim_start.
  pose proof (trim_start_fuel_keeps_bracket (String.length s) s HB) as H.
  destruct (trim_start_fuel (String.length s) s); [destruct H | reflexivity].
Qed.

Lemma digits_prefix_keeps_bracket (s : string) :
  In "["%char (list_ascii_of_string s) ->
  In "["%char (list_ascii_of_string (snd (digits_prefix s))).
Proof.
  induction s as [| c s IH]; cbn [digits_prefix]; [intros [] |].
  destruct (is_digit c) eqn:E; [| intros H; exact H].
  intros [-> | H]; [vm_compute in E; discriminate E |].
  specialize (IH H). destruct (digits_prefix s) as [d r]. exact IH.
Qed.

(** An optional sign at the head of a text that holds a bracket. *)
Lemma sign_keeps_bracket {A} (s : string) (plus minus : string -> A) (other : A) :
  In "["%char (list_ascii_of_string s) ->
  (exists r, In "["%char (list_ascii_of_string r)
             /\ (match s with
                 | String "+" r => plus r
                 | String "-" r => minus r
                 | _ => other
                 end = plus r
                 \/ match s with
                    | String "+" r => plus r
                    | String "-" r => minus r
                    | _ => other
                    end = minus r))
  \/ match s with
     | String "+" r => plus r
     | String "-" r => minus r
     | _ => other
     end = other.
Proof.
  intros HB. destruct s as [| c r]; [destruct HB |].
  destruct c as [[] [] [] [] [] [] [] []];
    try (right; reflexivity);
    (left; exists r; split;
     [destruct HB as [HB | HB]; [discriminate HB | exact HB]
     | first [left; reflexivity | right; reflexivity]]).
Qed.

Lemma scan_exponent_keeps_bracket (s : string) :
  In "["%char (list_ascii_of_string s) ->
  In "["%char (list_ascii_of_string (snd (scan_exponent s))).
Proof.
  intros HB. unfold scan_exponent. destruct s as [| c r]; [exact HB |].
  destruct (Ascii.eqb c "e" || Ascii.eqb c "E")%bool eqn:E; [| exact HB].
  assert (Hr : In "["%char (list_ascii_of_string r)).
  { destruct HB as [-> | H]; [vm_compute in E; discriminate E | exact H]. }
  assert (Hbody : forall (neg : bool) r',
             In "["%char (list_ascii_of_string r') ->
             In "["%char
                (list_ascii_of_string
                   (snd (let '(d, rest) := digits_prefix r' in
                         match d with
                         | EmptyString => (0%Z, String c r)
                         | _ => ((if neg then - Z_of_digits 0 d
                                  else Z_of_digits 0 d)%Z, rest)
                         end)))).
  { intros neg r' H'. pose proof (digits_prefix_keeps_bracket r' H') as Hd.
    destruct (digits_prefix r') as [[| d0 d] rest]; [exact HB | exact Hd]. }
  destruct (sign_keeps_bracket r (fun r' => (false, r')) (fun r' => (true, r'))
              (false, r) Hr) as [(r' & Hr' & [-> | ->]) | ->];
    first [apply (Hbody false) | apply (Hbody true)]; assumption.
Qed.

Lemma scan_unsigned_keeps_bracket (neg : bool) (s : string) :
  In "["%char (list_ascii_of_string s) ->
  match scan_unsigned neg s with
  | Some (_, rest) => In "["%char (list_ascii_of_string rest)
  | None => True
  end.
Proof.
  intros HB. unfold scan_unsigned.
  destruct (String.prefix "Infinity" s) eqn:Hinf.
  - pose proof (prefix_drop "Infinity" s Hinf) as Hs.
    rewrite Hs in HB. apply In_append in HB as [HB | HB]; [| exact HB].
    cbn in HB. repeat (destruct HB as [HB | HB]; [discriminate HB |]).
    destruct HB.
  - pose proof (digits_prefix_keeps_bracket s HB) as H1.
    destruct (digits_prefix s) as [ip r1]. cbn [snd] in H1.
    assert (H2 : In "["%char
                   (list_ascii_of_string
                      (snd (match r1 with
                            | String "." r =>
                                let '(fp, r2) := digits_prefix r in
                                match ip, fp with
                                | EmptyString, EmptyString => (EmptyString, r1)
                                | _, _ => (fp, r2)
                                end
                            | _ => (EmptyString, r1)
                            end)))).
    { destruct r1 as [| c r]; [destruct H1 |].
      destruct c as [[] [] [] [] [] [] [] []]; try exact H1.
      destruct H1 as [H1 | H1]; [discriminate H1 |].
      pose proof (digits_prefix_keeps_bracket r H1) as H2.
      destruct (digits_prefix r) as [fp r2]. cbn [snd] in H2.
      destruct ip, fp; first [exact H2 | right; exact H1]. }
    destruct (match r1 with String "." r => _ | _ => _ end) as [fp r2].
    cbn [snd] in H2.
    pose proof (scan_exponent_keeps_bracket r2 H2) as H3.
    destruct (scan_exponent r2) as [e r3]. cbn [snd] in H3.
    destruct ip, fp; first [exact I | exact H3].
Qed.

Lemma scan_decimal_keeps_bracket (s : string) :
  In "["%char (list_ascii_of_string s) ->
  match scan_decimal s with
  | Some (_, rest) => In "["%char (list_ascii_of_string rest)
  | None => True
  end.
Proof.
  intros HB. unfold scan_decimal.
  destruct (sign_keeps_bracket s (scan_unsigned false) (scan_unsigned true)
              (scan_unsigned false s) HB) as [(r & Hr & [-> | ->]) | ->];
    apply scan_unsigned_keeps_bracket; assumption.
Qed.

Lemma scan_radix_bracket (radix acc : Z) (seen : bool) (s : string) :
  In "["%char (list_ascii_of_string s) -> scan_radix radix acc seen s = None.
Proof.
  revert acc seen. induction s as [| c s IH]; intros acc seen HB; [destruct HB |].
  cbn [scan_radix]. destruct (radix_digit radix c) as [v |] eqn:E.
  - apply IH. destruct HB as [-> | HB]; [| exact HB].
    unfold radix_digit in E. cbn in E. rewrite Z.ltb_irrefl in E. discriminate.
  - rewrite (all_ws_bracket _ HB), Bool.andb_false_r. reflexivity.
Qed.

(** A text that holds a bracket is not a numeric literal. *)
Lemma StringToNumber_bracket (s : string) :
  In "["%char (list_ascii_of_string s) -> StringToNumber s = nan.
Proof.
  intros HB. unfold StringToNumber, trim_start.
  pose proof (trim_start_fuel_keeps_bracket (String.length s) s HB) as Ht.
  generalize dependent (trim_start_fuel (String.length s) s). clear s HB.
  intros t Ht.
  assert (HD : match scan_decimal t with
               | Some (d, rest) => if all_ws rest then float_of_decimal d else nan
               | None => nan
               end = nan).
  { pose proof (scan_decimal_keeps_bracket t Ht) as H.
    destruct (scan_decimal t) as [[d rest] |]; [| reflexivity].
    rewrite (all_ws_bracket _ H). reflexivity. }
  destruct t as [| c1 t1]; [destruct Ht |].
  destruct c1 as [[] [] [] [] [] [] [] []]; try exact HD.
  destruct t1 as [| c2 r]; [exact HD |].
  assert (Hr : c2 <> "["%char -> In "["%char (list_ascii_of_string r)).
  { intros Hc. destruct Ht as [Ht | [Ht | Ht]];
      [discriminate Ht | congruence | exact Ht]. }
  destruct c2 as [[] [] [] [] [] [] [] []]; try exact HD;
    rewrite scan_radix_bracket by (apply Hr; discriminate); reflexivity.
Qed.

Lemma bracket_of_object (p : string) :
  In "["%char (list_ascii_of_string (p ++ "[object Object]")).
Proof. apply In_append. right. left. reflexivity. Qed.

(** X20.  The confidence from which the position size of a recommendation
    is computed is [NaN] in every analysis: [whaleScore + smartMoneyScore]
    adds a number and an object, which concatenates their texts, and no
    text that ends with ["[object Object]"] reads as a number, whatever the
    engine prints for the whale score. *)
Theorem position_size_confidence_is_NaN
    (whaleActivity : WhaleActivity) (tokenMetrics : TokenMetrics)
    (smartMoneyFlow : SmartMoneyFlow) (manipulationScore : ManipulationScore) :
  Analyzer.size
    (recommendation
       (analyze this (whaleActivity, tokenMetrics, smartMoneyFlow,
                      manipulationScore)))
  = calculateOptimalPosition this
      [ ("confidence", VNumber nan);
        ("risk", VNumber (calculateRiskScore this manipulationScore));
        ("marketConditions", VNumber (calculateHealthScore this tokenMetrics)) ].
Proof.
  unfold analyze. cbn [recommendation]. unfold generateTradeRecommendation.
  cbn [Analyzer.size]. unfold scores_of.
  cbn [get String.eqb Ascii.eqb Bool.eqb].
  unfold add. cbn [ToPrimitive ToString]. unfold ToNumber. cbn [ToPrimitive].
  rewrite StringToNumber_bracket by apply bracket_of_object.
  reflexivity.
Qed.

End CoercionFacts.

